(** * Incipio: the plugin coordination core

    A shallow embedding of the Go sources of barab-i/incipio:

    - [internal/app/model.go]       the [PluginManager] (registry and router)
                                    and the Bubble Tea [model] with its
                                    [Update] loop,
    - [internal/yaegi/yaegi.go]     [LoadPlugins], the dynamic loader,
    - [cmd/incipio/main.go]         [registerPlugins], [parseEnabledPlugins],
    - [internal/plugins/applauncher], [internal/plugins/pluginmanager] and
      [internal/theme]              the scoring and the results of the two
                                    built-in plugins, the theme file.

    Go strings are byte sequences; they are modelled by [string], whose
    characters are the 256 values of [ascii].  A Go interface value that may
    be [nil] is an [option].  Methods with a pointer receiver on the
    [PluginManager] take the manager and return the manager they leave
    behind.  In the loader and at start-up, where code of an extension is
    called for the first time and nothing recovers, the calls on a plugin
    can panic. *)

From Stdlib Require Import String Ascii List Bool Arith Lia.
From Stdlib Require OrderedTypeEx.
From stdpp Require Import gmap strings list sorting.

Local Open Scope string_scope.

(** ** Byte strings: the pieces of Go's [strings] package the code calls *)

(** [s[n:]] for [n <= len(s)]. *)
Fixpoint sliceFrom (n : nat) (s : string) : string :=
  match n, s with
  | O, _ => s
  | S n', String _ r => sliceFrom n' r
  | S _, EmptyString => EmptyString
  end.

(** [strings.HasPrefix(s, prefix)]. *)
Definition HasPrefix (s pre : string) : bool := String.prefix pre s.

(** [s[i] == c], false when [i] is out of range (the code guards every
    index with a length test). *)
Definition byteAt (s : string) (i : nat) (c : ascii) : bool :=
  match String.get i s with
  | Some b => Ascii.eqb b c
  | None => false
  end.

(** The table [asciiSpace] of Go's strings package:
    tab, newline, vertical tab, form feed, carriage return, space. *)
Definition asciiSpace (c : ascii) : bool :=
  let n := nat_of_ascii c in
  Nat.eqb n 9 || Nat.eqb n 10 || Nat.eqb n 11 || Nat.eqb n 12 ||
  Nat.eqb n 13 || Nat.eqb n 32.

(** [unicode.IsSpace] on the UTF-8 encoding of a rune that is not ASCII:
    U+0085, U+00A0 (two bytes) and U+1680, U+2000..U+200A, U+2028, U+2029,
    U+202F, U+205F, U+3000 (three bytes). *)
Definition space2 (b1 b2 : ascii) : bool :=
  Nat.eqb (nat_of_ascii b1) 194 &&
  (Nat.eqb (nat_of_ascii b2) 133 || Nat.eqb (nat_of_ascii b2) 160).

Definition space3 (b1 b2 b3 : ascii) : bool :=
  let n1 := nat_of_ascii b1 in
  let n2 := nat_of_ascii b2 in
  let n3 := nat_of_ascii b3 in
  (Nat.eqb n1 225 && Nat.eqb n2 154 && Nat.eqb n3 128) ||
  (Nat.eqb n1 226 && Nat.eqb n2 128 &&
     ((Nat.leb 128 n3 && Nat.leb n3 138) || Nat.eqb n3 168 ||
      Nat.eqb n3 169 || Nat.eqb n3 175)) ||
  (Nat.eqb n1 226 && Nat.eqb n2 129 && Nat.eqb n3 159) ||
  (Nat.eqb n1 227 && Nat.eqb n2 128 && Nat.eqb n3 128).

(** [strings.TrimLeftFunc(s, unicode.IsSpace)]: drop leading white-space
    runes. *)
Fixpoint trimLeftSpace (s : string) : string :=
  match s with
  | EmptyString => EmptyString
  | String b1 r1 =>
      if asciiSpace b1 then trimLeftSpace r1
      else
        match r1 with
        | String b2 r2 =>
            if space2 b1 b2 then trimLeftSpace r2
            else
              match r2 with
              | String b3 r3 => if space3 b1 b2 b3 then trimLeftSpace r3 else s
              | EmptyString => s
              end
        | EmptyString => s
        end
  end.

(** The same scan over the reversed bytes: the last rune of the string comes
    first, its bytes in reverse order. *)
Fixpoint trimLeftSpaceRev (s : string) : string :=
  match s with
  | EmptyString => EmptyString
  | String b1 r1 =>
      if asciiSpace b1 then trimLeftSpaceRev r1
      else
        match r1 with
        | String b2 r2 =>
            if space2 b2 b1 then trimLeftSpaceRev r2
            else
              match r2 with
              | String b3 r3 => if space3 b3 b2 b1 then trimLeftSpaceRev r3 else s
              | EmptyString => s
              end
        | EmptyString => s
        end
  end.

Definition trimRightSpace (s : string) : string :=
  String.rev (trimLeftSpaceRev (String.rev s)).

(** [strings.TrimSpace(s)]. *)
Definition TrimSpace (s : string) : string := trimRightSpace (trimLeftSpace s).

(** ** Errors and results *)

(** The errors the code builds with [fmt.Errorf], one constructor per
    format string, and an opaque error raised by a plugin. *)
Inductive error : Type :=
  | errEmptyKeyword (pluginName : string)
  | errKeywordRegistered (keyword pluginName : string)
  | errMetadataEmptyKeyword (pluginName : string)
  | errNoActivePlugin
  | errInitialLoad (pluginName : string) (cause : error)
  | errReadDir (path : string)
  | errGetwd
  | errPlugin (what : string).

(** [plugin.Result]. *)
Record Result : Type := mkResult {
  Title : string;
  Description : string;
  Identifier : string
}.

(** ** Bubble Tea messages and commands

    [tea.Msg] is the empty interface and [tea.Cmd] a function returning a
    message.  The messages and commands this program distinguishes are
    enumerated; anything else is opaque. *)
Module tea.

Inductive Key : Type :=
  | KeyCtrlC
  | KeyEsc
  | KeyEnter
  | KeyBackspace
  | KeyUp
  | KeyDown
  | KeyRune (c : ascii).

Inductive Msg : Type :=
  | KeyMsg (k : Key)
  | WindowSizeMsg (Width Height : Z)
  | processQueryMsg
  | resultsMsg (results : list Result) (err : option error)
               (pluginSwitched : bool) (forQuery : string)
  | clearSummaryMsg
  | QuitMsg
  | otherMsg (tag : nat).

(** A command is a function that returns a message when it is run.  The
    commands of the loop are named; a command of a plugin is given by the
    message it returns, [None] for nil. *)
Inductive Cmd : Type :=
  | Quit
  | fetchResults (newQuery : string) (pluginSwitched : bool)
  | awaitDebounce
  | widgetCmd
  | pluginCmd (tag : nat) (msg : option Msg).

(** [cmd() == tea.Quit()]: the command is run and the message it returns
    is [tea.QuitMsg{}].  [tea.Quit] returns it; a fetch returns a
    [resultsMsg], the debounce a [processQueryMsg] or nil, the commands of
    the widgets messages of their own. *)
Definition returnsQuitMsg (cmd : Cmd) : bool :=
  match cmd with
  | Quit => true
  | pluginCmd _ (Some QuitMsg) => true
  | _ => false
  end.

End tea.

(** ** The plugin contract ([pkgs/plugin]) *)
Module plugin.

Module Meta.
(** [plugin.Metadata]. *)
Record t : Type := mk {
  Name : string;
  Description : string;
  Keyword : string;
  Flag : string;
  IsMandatory : bool;
  IsDefault : bool
}.
End Meta.

(** The method set of [plugin.Plugin] for a plugin type whose instances
    have their state in [S].  [Update] yields the state of the instance it
    returns, [None] for a nil interface value. *)
Record methods (S : Type) : Type := mkMethods {
  Metadata_ : S -> Meta.t;
  Name_ : S -> string;
  Keyword_ : S -> string;
  Init_ : S -> option tea.Cmd;
  GetResults_ : S -> string -> list Result * option error;
  Execute_ : S -> string -> option tea.Cmd;
  Update_ : S -> tea.Msg -> option S * option tea.Cmd;
  View_ : S -> string;
  GetError_ : S -> option error
}.
Arguments mkMethods {S}.
Arguments Metadata_ {S}.
Arguments Name_ {S}.
Arguments Keyword_ {S}.
Arguments Init_ {S}.
Arguments GetResults_ {S}.
Arguments Execute_ {S}.
Arguments Update_ {S}.
Arguments View_ {S}.
Arguments GetError_ {S}.

(** [plugin.Plugin], an interface value that is not nil: a state with the
    methods of its type.  The methods are functions of the state: what a
    Go method writes into its receiver is visible only in the instance
    that [Update] returns. *)
Record Plugin : Type := mkPlugin {
  stateType : Type;
  impl : methods stateType;
  self : stateType
}.

Definition Metadata (p : Plugin) : Meta.t := Metadata_ (impl p) (self p).
Definition Name (p : Plugin) : string := Name_ (impl p) (self p).
Definition Keyword (p : Plugin) : string := Keyword_ (impl p) (self p).
Definition Init (p : Plugin) : option tea.Cmd := Init_ (impl p) (self p).
Definition GetResults (p : Plugin) (query : string)
    : list Result * option error :=
  GetResults_ (impl p) (self p) query.
Definition Execute (p : Plugin) (identifier : string) : option tea.Cmd :=
  Execute_ (impl p) (self p) identifier.
Definition Update (p : Plugin) (msg : tea.Msg)
    : option Plugin * option tea.Cmd :=
  let '(s, cmd) := Update_ (impl p) (self p) msg in
  (option_map (mkPlugin (stateType p) (impl p)) s, cmd).
Definition View (p : Plugin) : string := View_ (impl p) (self p).
Definition GetError (p : Plugin) : option error :=
  GetError_ (impl p) (self p).

(** Every plugin of the repository answers [Keyword()] with
    [Metadata().Keyword]; the interface does not force it. *)
Definition consistent (p : Plugin) : Prop :=
  Keyword p = Meta.Keyword (Metadata p).

(** The accessor calls that the loader and start-up make on a plugin:
    [Metadata()], [Name()] and [Keyword()] in [LoadPlugins], then
    [Metadata()] and, for the fatal error, [Name()] in [registerPlugins]. *)
Inductive accessorCall : Type :=
  | loadedMetadata
  | loadedName
  | loadedKeyword
  | registeredMetadata
  | registeredName.

(** A value of the interface type as the loader and [registerPlugins]
    hold it: code of an extension, not known to return.  [panicsAt] tells
    which of their accessor calls panic; [asPlugin] is the plugin that the
    instance is for the manager, whose own calls on a registered plugin are
    calls on that plugin. *)
Record Instance : Type := mkInstance {
  asPlugin : Plugin;
  panicsAt : accessorCall -> bool
}.

(** An instance on which no accessor call panics, as those of the
    plugins of the repository, whose accessors return constants. *)
Definition returning (p : Plugin) : Instance := mkInstance p (fun _ => false).

End plugin.

Import plugin.

(** ** [sort.Slice]

    The standard library promises a permutation ordered by [less] and
    nothing about equal elements.  The sort is an interface with that
    contract; [mergeSorter] is one implementation. *)
Class SliceSorter : Type := {
  sortSlice : (string -> string -> bool) -> list string -> list string;
  sortSlice_perm : forall less l, sortSlice less l ≡ₚ l;
  sortSlice_sorted : forall less l,
    (forall a b, less a b = true -> less b a = false) ->
    (forall a b c, less b a = false -> less c b = false -> less c a = false) ->
    StronglySorted (fun a b => less b a = false) (sortSlice less l)
}.

(** [sort.Slice] and [sort.SliceStable] on a slice of any element type,
    with the contract of [SliceSorter]: a permutation ordered by [less];
    nothing is assumed about the order of equal elements. *)
Class Sorter (A : Type) : Type := {
  sortBy : (A -> A -> bool) -> list A -> list A;
  sortBy_perm : forall less l, sortBy less l ≡ₚ l;
  sortBy_sorted : forall less l,
    (forall a b, less a b = true -> less b a = false) ->
    (forall a b c, less b a = false -> less c b = false -> less c a = false) ->
    StronglySorted (fun a b => less b a = false) (sortBy less l)
}.

(** [for kw, v := range m] visits every entry of a Go map once, in an
    order that the language leaves open. *)
Class MapRange : Type := {
  rangeOver : forall {V : Type}, gmap string V -> list (string * V);
  rangeOver_perm : forall (V : Type) (m : gmap string V),
    rangeOver m ≡ₚ map_to_list m
}.

(** The comparison [RegisterPlugin] hands to [sort.Slice]:
    [len(a) > len(b)]. *)
Definition longerThan (a b : string) : bool :=
  Nat.ltb (String.length b) (String.length a).

(** ** The registry and router ([internal/app]) *)
Module app.

(** [PluginManager].  A Go map never holds a nil plugin here: every write
    stores a value on which a method has just been called. *)
Record PluginManager : Type := mkPluginManager {
  plugins : gmap string Plugin;
  disabledPluginsMetadata : gmap string Meta.t;
  defaultPlugin : option Plugin;
  activePlugin : option Plugin;
  sortedKeywords : list string
}.

Definition set_plugins (m : gmap string Plugin) (pm : PluginManager) :=
  mkPluginManager m (disabledPluginsMetadata pm) (defaultPlugin pm)
                  (activePlugin pm) (sortedKeywords pm).
Definition set_disabledPluginsMetadata (d : gmap string Meta.t)
    (pm : PluginManager) :=
  mkPluginManager (plugins pm) d (defaultPlugin pm) (activePlugin pm)
                  (sortedKeywords pm).
Definition set_defaultPlugin (p : option Plugin) (pm : PluginManager) :=
  mkPluginManager (plugins pm) (disabledPluginsMetadata pm) p
                  (activePlugin pm) (sortedKeywords pm).
Definition set_activePlugin (p : option Plugin) (pm : PluginManager) :=
  mkPluginManager (plugins pm) (disabledPluginsMetadata pm)
                  (defaultPlugin pm) p (sortedKeywords pm).
Definition set_sortedKeywords (l : list string) (pm : PluginManager) :=
  mkPluginManager (plugins pm) (disabledPluginsMetadata pm)
                  (defaultPlugin pm) (activePlugin pm) l.

Definition NewPluginManager : PluginManager :=
  mkPluginManager ∅ ∅ None None [].

(** [p.Keyword()] behind a nil test, [""] for nil: the idiom of
    [DetermineActivePlugin] for both the current and the determined
    plugin. *)
Definition keywordOrEmpty (p : option Plugin) : string :=
  match p with
  | Some q => Keyword q
  | None => ""
  end.

Section WithSorter.
Context {sorter : SliceSorter}.

Definition RegisterPlugin (p : Plugin) (pm : PluginManager)
    : option error * PluginManager :=
  let metadata := Metadata p in
  let keyword := Meta.Keyword metadata in
  if decide (keyword = "") then
    (Some (errEmptyKeyword (Meta.Name metadata)), pm)
  else
    match plugins pm !! keyword with
    | Some _ =>
        (Some (errKeywordRegistered keyword (Meta.Name metadata)), pm)
    | None =>
        let pm1 := set_plugins (<[keyword := p]> (plugins pm)) pm in
        let pm2 :=
          if decide (keyword = "") then pm1
          else set_sortedKeywords
                 (sortSlice longerThan (sortedKeywords pm1 ++ [keyword])%list)
                 pm1 in
        let pm3 :=
          if Meta.IsDefault metadata then
            let pm' := set_defaultPlugin (Some p) pm2 in
            match activePlugin pm' with
            | None => set_activePlugin (Some p) pm'
            | Some _ => pm'
            end
          else pm2 in
        (None, pm3)
    end.

End WithSorter.

Definition RegisterMetadata (metadata : Meta.t) (pm : PluginManager)
    : option error * PluginManager :=
  if decide (Meta.Keyword metadata = "") then
    (Some (errMetadataEmptyKeyword (Meta.Name metadata)), pm)
  else
    match plugins pm !! Meta.Keyword metadata with
    | Some _ => (None, pm)
    | None =>
        (None,
         set_disabledPluginsMetadata
           (<[Meta.Keyword metadata := metadata]>
              (disabledPluginsMetadata pm)) pm)
    end.

(** The test of the routing loop on one keyword:
    [len(q) == len(k) || (len(q) > len(k) && q[len(k)] == ' ')]. *)
Definition atBoundary (trimmedQuery keyword : string) : bool :=
  Nat.eqb (String.length trimmedQuery) (String.length keyword)
  || (Nat.ltb (String.length keyword) (String.length trimmedQuery)
      && byteAt trimmedQuery (String.length keyword) " "%char).

(** The loop over [pm.sortedKeywords]: the plugin of the first keyword
    that passes every test, [None] when the loop ends without a [break]. *)
Fixpoint scanKeywords (plugins : gmap string Plugin) (trimmedQuery : string)
    (keywords : list string) : option Plugin :=
  match keywords with
  | [] => None
  | keyword :: rest =>
      if negb (String.eqb keyword "") && HasPrefix trimmedQuery keyword then
        if atBoundary trimmedQuery keyword then
          match plugins !! keyword with
          | Some p => Some p
          | None => scanKeywords plugins trimmedQuery rest
          end
        else scanKeywords plugins trimmedQuery rest
      else scanKeywords plugins trimmedQuery rest
  end.

(** The value of [determinedPlugin] after the loop. *)
Definition determinedPlugin (query : string) (pm : PluginManager)
    : option Plugin :=
  match scanKeywords (plugins pm) (TrimSpace query) (sortedKeywords pm) with
  | Some p => Some p
  | None => defaultPlugin pm
  end.

Definition DetermineActivePlugin (query : string) (pm : PluginManager)
    : (option Plugin * bool) * PluginManager :=
  let currentActiveKeyword := keywordOrEmpty (activePlugin pm) in
  let determined := determinedPlugin query pm in
  let determinedKeyword := keywordOrEmpty determined in
  let switched := negb (String.eqb currentActiveKeyword determinedKeyword) in
  let pm1 := if switched then set_activePlugin determined pm else pm in
  let pm2 :=
    match activePlugin pm1 with
    | None => set_activePlugin (defaultPlugin pm1) pm1
    | Some _ => pm1
    end in
  ((activePlugin pm2, switched), pm2).

Definition GetCurrentPlugin (pm : PluginManager) : option Plugin :=
  match activePlugin pm with
  | None => defaultPlugin pm
  | Some p => Some p
  end.

(** The value of [pluginQuery] that [GetResults] hands to the plugin
    [active]. *)
Definition pluginQuery (active : Plugin) (query : string) : string :=
  let trimmedQuery := TrimSpace query in
  let activeKeyword := Keyword active in
  if negb (Meta.IsDefault (Metadata active))
     && negb (String.eqb activeKeyword "")
     && HasPrefix trimmedQuery activeKeyword
  then
    let prefixLen := String.length activeKeyword in
    if Nat.ltb prefixLen (String.length trimmedQuery)
       && byteAt trimmedQuery prefixLen " "%char
    then TrimSpace (sliceFrom (prefixLen + 1) trimmedQuery)
    else if Nat.eqb (String.length trimmedQuery) prefixLen then ""
    else query
  else query.

Definition GetResults (query : string) (pm : PluginManager)
    : (list Result * option error) * PluginManager :=
  match GetCurrentPlugin pm with
  | None => (([], Some errNoActivePlugin), pm)
  | Some active => (plugin.GetResults active (pluginQuery active query), pm)
  end.

Definition Execute (identifier : string) (pm : PluginManager)
    : option tea.Cmd :=
  match GetCurrentPlugin pm with
  | None => None
  | Some active => plugin.Execute active identifier
  end.

Definition UpdatePluginInstance (updatedPlugin : option Plugin)
    (pm : PluginManager) : PluginManager :=
  match updatedPlugin with
  | None => pm
  | Some updated =>
      let keyword := Keyword updated in
      if decide (keyword = "") then pm
      else
        match plugins pm !! keyword with
        | None => pm
        | Some _ =>
            let pm1 := set_plugins (<[keyword := updated]> (plugins pm)) pm in
            let pm2 :=
              match activePlugin pm1 with
              | Some a =>
                  if decide (Keyword a = keyword)
                  then set_activePlugin (Some updated) pm1 else pm1
              | None => pm1
              end in
            match defaultPlugin pm2 with
            | Some d =>
                if decide (Keyword d = keyword)
                then set_defaultPlugin (Some updated) pm2 else pm2
            | None => pm2
            end
        end
  end.

(** [InitPlugins].  The receivers of [Init], in the order of the calls: the
    default plugin, then the entries of the map whose keyword is not in
    [initializedKeywords].  Go visits a map in an unspecified order;
    [map_to_list] is one such order. *)
Definition initializedKeywords (pm : PluginManager) : list string :=
  match defaultPlugin pm with
  | Some d => if decide (Keyword d = "") then [] else [Keyword d]
  | None => []
  end.

Definition initReceivers (pm : PluginManager) : list Plugin :=
  (match defaultPlugin pm with
   | Some d => [d]
   | None => []
   end ++
   omap (fun entry : string * Plugin =>
           if decide (fst entry ∈ initializedKeywords pm) then None
           else Some (snd entry))
        (map_to_list (plugins pm)))%list.

(** The commands that are not nil, as handed to [tea.Batch]; the empty list
    is the nil command. *)
Definition InitPlugins (pm : PluginManager) : list tea.Cmd :=
  omap plugin.Init (initReceivers pm).

(** [GetError]. *)
Definition GetError (pm : PluginManager) : option error :=
  match GetCurrentPlugin pm with
  | None => None
  | Some active => plugin.GetError active
  end.

(** *** The interaction loop

    Of bubbles' [list.Model] the loop uses the items and the cursor, of
    [textinput.Model] the value, edited at its end and limited to
    [CharLimit] bytes.  The sizes that [tea.WindowSizeMsg] gives to the
    list are layout: they change neither the items nor the index of the
    selected item. *)

(** [listItem], the adapter of [plugin.Result]. *)
Record listItem : Type := mkListItem {
  title : string;
  description : string;
  identifier : string
}.

Definition toListItem (r : Result) : listItem :=
  mkListItem (Title r) (Description r) (Identifier r).

Record listModel : Type := mkListModel {
  items : list listItem;
  cursor : nat
}.

Definition SetItems (i : list listItem) (l : listModel) : listModel :=
  mkListModel i (cursor l).
Definition Select (n : nat) (l : listModel) : listModel :=
  mkListModel (items l) n.
Definition SelectedItem (l : listModel) : option listItem :=
  items l !! cursor l.

(** [list.Model.Update] with the key map of [InitialModel]: up/k and
    down/j move the cursor inside the items. *)
Definition listUpdate (msg : tea.Msg) (l : listModel) : listModel :=
  match msg with
  | tea.KeyMsg tea.KeyUp | tea.KeyMsg (tea.KeyRune "k"%char) =>
      mkListModel (items l) (Nat.pred (cursor l))
  | tea.KeyMsg tea.KeyDown | tea.KeyMsg (tea.KeyRune "j"%char) =>
      if Nat.ltb (S (cursor l)) (List.length (items l))
      then mkListModel (items l) (S (cursor l)) else l
  | _ => l
  end.

Definition CharLimit : nat := 156.

Fixpoint dropLast (s : string) : string :=
  match s with
  | EmptyString => EmptyString
  | String _ EmptyString => EmptyString
  | String c r => String c (dropLast r)
  end.

(** [textinput.Model.Update] on the value. *)
Definition textInputUpdate (msg : tea.Msg) (value : string) : string :=
  match msg with
  | tea.KeyMsg (tea.KeyRune c) =>
      if Nat.ltb (String.length value) CharLimit
      then value ++ String c EmptyString else value
  | tea.KeyMsg tea.KeyBackspace => dropLast value
  | _ => value
  end.

(** [model]; [debounceTimer] is [true] when the pointer is not nil,
    [list_] is the field [list]. *)
Record model : Type := mkModel {
  pluginManager : PluginManager;
  list_ : listModel;
  textInput : string;
  width : Z;
  height : Z;
  err : option error;
  quitting : bool;
  debounceTimer : bool;
  lastQuery : string
}.

Definition set_pluginManager (pm : PluginManager) (m : model) :=
  mkModel pm (list_ m) (textInput m) (width m) (height m) (err m)
          (quitting m) (debounceTimer m) (lastQuery m).
Definition set_list (l : listModel) (m : model) :=
  mkModel (pluginManager m) l (textInput m) (width m) (height m) (err m)
          (quitting m) (debounceTimer m) (lastQuery m).
Definition set_textInput (v : string) (m : model) :=
  mkModel (pluginManager m) (list_ m) v (width m) (height m) (err m)
          (quitting m) (debounceTimer m) (lastQuery m).
Definition set_size (w h : Z) (m : model) :=
  mkModel (pluginManager m) (list_ m) (textInput m) w h (err m)
          (quitting m) (debounceTimer m) (lastQuery m).
Definition set_err (e : option error) (m : model) :=
  mkModel (pluginManager m) (list_ m) (textInput m) (width m) (height m) e
          (quitting m) (debounceTimer m) (lastQuery m).
Definition set_quitting (b : bool) (m : model) :=
  mkModel (pluginManager m) (list_ m) (textInput m) (width m) (height m)
          (err m) b (debounceTimer m) (lastQuery m).
Definition set_debounceTimer (b : bool) (m : model) :=
  mkModel (pluginManager m) (list_ m) (textInput m) (width m) (height m)
          (err m) (quitting m) b (lastQuery m).
Definition set_lastQuery (q : string) (m : model) :=
  mkModel (pluginManager m) (list_ m) (textInput m) (width m) (height m)
          (err m) (quitting m) (debounceTimer m) q.

(** [InitialModel]: empty input, and the list filled from the current
    plugin's answer to the empty query.  [InitPlugins] only collects the
    commands of the plugins' [Init], which [InitialModel] drops. *)
Definition InitialModel (pm : PluginManager) : model :=
  let m := mkModel pm (mkListModel [] 0) "" 0%Z 0%Z None false false "" in
  match GetCurrentPlugin pm with
  | Some defaultPlugin =>
      match plugin.GetResults defaultPlugin "" with
      | (_, Some e) =>
          set_list (SetItems [] (list_ m))
            (set_err (Some (errInitialLoad (plugin.Name defaultPlugin) e)) m)
      | (results, None) =>
          set_list (SetItems (map toListItem results) (list_ m)) m
      end
  | None => set_list (SetItems [] (list_ m)) m
  end.

(** A command that may be nil, appended to [cmds] when it is not. *)
Definition appendCmd (cmds : list tea.Cmd) (c : option tea.Cmd)
    : list tea.Cmd :=
  match c with
  | Some c' => (cmds ++ [c'])%list
  | None => cmds
  end.

Definition updatePluginState (updatedPlugin : option Plugin) (m : model)
    : model :=
  match updatedPlugin with
  | None => m
  | Some _ =>
      set_pluginManager
        (UpdatePluginInstance updatedPlugin (pluginManager m)) m
  end.

Definition handleQueryChange (newQuery : string) (m : model)
    : option tea.Cmd * model :=
  let m0 := set_err None m in
  let '((active, pluginSwitched), pm') :=
    DetermineActivePlugin newQuery (pluginManager m0) in
  let m1 := set_pluginManager pm' m0 in
  let m2 := if pluginSwitched then set_list (SetItems [] (list_ m1)) m1
            else m1 in
  match active with
  | None =>
      (None,
       if negb pluginSwitched then set_list (SetItems [] (list_ m2)) m2
       else m2)
  | Some _ => (Some (tea.fetchResults newQuery pluginSwitched), m2)
  end.

(** The closure returned by [handleQueryChange], run by the runtime: it
    asks the manager as it is when the command runs. *)
Definition runFetch (newQuery : string) (pluginSwitched : bool)
    (pm : PluginManager) : tea.Msg :=
  let '((results, e), _) := GetResults newQuery pm in
  tea.resultsMsg results e pluginSwitched newQuery.

(** The call of the active plugin's [Update] with its hand-back. *)
Definition forwardToActive (msg : tea.Msg) (cmds : list tea.Cmd) (m : model)
    : list tea.Cmd * model :=
  match GetCurrentPlugin (pluginManager m) with
  | Some active =>
      let '(updatedPlugin, pluginCmd) := plugin.Update active msg in
      (appendCmd cmds pluginCmd, updatePluginState updatedPlugin m)
  | None => (cmds, m)
  end.

(** The loop of the [tea.WindowSizeMsg] case over
    [m.pluginManager.plugins].  [keywords] are the keys in the order of the
    range; the instance is the one the map holds when its key is reached,
    since [updatePluginState] writes into the map that is ranged over.  No
    entry of the map is nil. *)
Fixpoint updateEach (keywords : list string) (msg : tea.Msg)
    (cmds : list tea.Cmd) (m : model) : list tea.Cmd * model :=
  match keywords with
  | [] => (cmds, m)
  | kw :: rest =>
      match plugins (pluginManager m) !! kw with
      | None => updateEach rest msg cmds m
      | Some pluginInstance =>
          let '(updatedPlugin, pluginCmd) :=
            plugin.Update pluginInstance msg in
          updateEach rest msg (appendCmd cmds pluginCmd)
                     (updatePluginState updatedPlugin m)
      end
  end.

(** [Update].  In the Enter case the command that [Execute] returns is
    run by [Update] itself for the comparison with [tea.Quit()], and
    returned to the runtime as well. *)
Definition Update `{MapRange} (msg : tea.Msg) (m : model)
    : model * list tea.Cmd :=
  let queryBeforeInputUpdate := textInput m in
  let fallThrough :=
    let '(cmds1, m1) := forwardToActive msg [] m in
    let m2 := set_textInput (textInputUpdate msg (textInput m1)) m1 in
    let cmds2 := (cmds1 ++ [tea.widgetCmd])%list in
    let newQuery := textInput m2 in
    let '(cmds3, m3) :=
      if negb (String.eqb newQuery queryBeforeInputUpdate) then
        ((cmds2 ++ [tea.awaitDebounce])%list,
         set_debounceTimer true (set_lastQuery newQuery m2))
      else (cmds2, m2) in
    let m4 := set_list (listUpdate msg (list_ m3)) m3 in
    (m4, (cmds3 ++ [tea.widgetCmd])%list) in
  match msg with
  | tea.WindowSizeMsg Width Height =>
      let m1 := set_size Width Height m in
      let '(cmds, m2) :=
        updateEach (rangeOver (plugins (pluginManager m1))).*1 msg [] m1 in
      (m2, cmds)
  | tea.processQueryMsg =>
      let '(cmds, m1) :=
        if debounceTimer m then
          let '(queryCmd, m') := handleQueryChange (lastQuery m) m in
          (appendCmd [] queryCmd, m')
        else ([], m) in
      (set_debounceTimer false m1, cmds)
  | tea.resultsMsg results e pluginSwitched forQuery =>
      if negb (String.eqb forQuery (lastQuery m)) then (m, [])
      else
        let m1 :=
          match e with
          | Some _ => set_list (SetItems [] (list_ m)) (set_err e m)
          | None =>
              set_list (SetItems (map toListItem results) (list_ m))
                       (set_err None m)
          end in
        let m2 :=
          if pluginSwitched then set_list (Select 0 (list_ m1)) m1
          else if Nat.ltb 0 (List.length (items (list_ m1)))
               then set_list (Select 0 (list_ m1)) m1
               else m1 in
        (m2, [])
  | tea.KeyMsg tea.KeyCtrlC => (set_quitting true m, [tea.Quit])
  | tea.KeyMsg tea.KeyEsc =>
      let m1 := set_debounceTimer false m in
      if negb (String.eqb (textInput m1) "") then
        let m2 := set_err None (set_textInput "" m1) in
        let '(queryCmd, m3) := handleQueryChange "" m2 in
        let cmds := appendCmd [] queryCmd in
        let '(cmds', m4) := forwardToActive tea.clearSummaryMsg cmds m3 in
        (m4, cmds')
      else (set_quitting true m1, [tea.Quit])
  | tea.KeyMsg tea.KeyEnter =>
      let '(cmds, m1) :=
        if debounceTimer m then
          let '(queryCmd, m') :=
            handleQueryChange (textInput m) (set_debounceTimer false m) in
          (appendCmd [] queryCmd, m')
        else ([], m) in
      match SelectedItem (list_ m1) with
      | Some selectedItem =>
          let execCmd := Execute (identifier selectedItem) (pluginManager m1) in
          let m2 :=
            match execCmd with
            | Some cmd =>
                if tea.returnsQuitMsg cmd then set_quitting true m1 else m1
            | None => m1
            end in
          (m2, appendCmd [] execCmd)
      | None => (m1, cmds)
      end
  | _ => fallThrough
  end.

End app.

(** ** The dynamic loader ([internal/yaegi]) *)
Module yaegi.

(** [strings.HasSuffix(s, suffix)]. *)
Definition HasSuffix (s suffix : string) : bool :=
  String.prefix (String.rev suffix) (String.rev s).

(** What the call [newFunc()] does: it returns an instance, possibly nil,
    or it panics.  [LoadPlugins] has no [recover]. *)
Inductive construction : Type :=
  | constructs (p : option Instance)
  | constructorPanics.

(** The value of [main.New] in the interpreter: a [func() plugin.Plugin]
    or a value of another type. *)
Inductive symbolValue : Type :=
  | funcNew (body : construction)
  | notAConstructor.

(** A source text, by what the interpreter does with it: [i.Eval(src)]
    fails or not, then [i.Eval("main.New")] fails or yields a value. *)
Record source : Type := mkSource {
  evalSource : option error;
  evalMainNew : option symbolValue
}.

(** A directory entry with the outcome of the calls made on it; [None]
    for [ReadFile] is a read error. *)
Record DirEntry : Type := mkDirEntry {
  IsDir : bool;
  Name : string;
  useStdlib : option error;
  useSymbols : option error;
  ReadFile : option source
}.

(** The environment [LoadPlugins] looks at. *)
Record fileSystem : Type := mkFileSystem {
  configHomeNotExist : bool;
  pluginDirNotExist : bool;
  ReadDir : error + list DirEntry;
  Getwd : option string
}.

(** How a call ends: with its return values or in a panic. *)
Inductive outcome : Type :=
  | returned (loadedPlugins : list Instance) (err : option error)
  | panicked.

(** The loop over [files]; each [continue] is a recursive call with
    [loadedPlugins] as it is.  On an instance that is not nil the loop
    calls [Metadata()] for the test of the name, then [Name()] and
    [Keyword()] for the log entry, before it appends the instance. *)
Fixpoint loadFiles (files : list DirEntry) (loadedPlugins : list Instance)
    : outcome :=
  match files with
  | [] => returned loadedPlugins None
  | file :: rest =>
      if IsDir file || negb (HasSuffix (Name file) ".go") then
        loadFiles rest loadedPlugins
      else
        match useStdlib file with
        | Some _ => loadFiles rest loadedPlugins
        | None =>
        match useSymbols file with
        | Some _ => loadFiles rest loadedPlugins
        | None =>
        match ReadFile file with
        | None => loadFiles rest loadedPlugins
        | Some src =>
        match evalSource src with
        | Some _ => loadFiles rest loadedPlugins
        | None =>
        match evalMainNew src with
        | None => loadFiles rest loadedPlugins
        | Some notAConstructor => loadFiles rest loadedPlugins
        | Some (funcNew constructorPanics) => panicked
        | Some (funcNew (constructs None)) => loadFiles rest loadedPlugins
        | Some (funcNew (constructs (Some pluginInstance))) =>
            if panicsAt pluginInstance loadedMetadata then panicked
            else if panicsAt pluginInstance loadedName then panicked
            else if panicsAt pluginInstance loadedKeyword then panicked
            else loadFiles rest (loadedPlugins ++ [pluginInstance])%list
        end end end end end
  end.

Definition PluginDirName : string := "incipio/plugins".

Definition LoadPlugins (fs : fileSystem) : outcome :=
  if configHomeNotExist fs then returned [] None
  else if pluginDirNotExist fs then returned [] None
  else
    match ReadDir fs with
    | inl _ => returned [] (Some (errReadDir PluginDirName))
    | inr files =>
        match Getwd fs with
        | None => returned [] (Some errGetwd)
        | Some _ => loadFiles files []
        end
    end.

End yaegi.

(** ** Start-up ([cmd/incipio]) *)
Module main.
Import app.

(** [strings.SplitSeq(s, ",")]. *)
Fixpoint splitComma (s : string) : list string :=
  match s with
  | EmptyString => [EmptyString]
  | String c r =>
      if Ascii.eqb c ","%char then EmptyString :: splitComma r
      else
        match splitComma r with
        | h :: t => String c h :: t
        | [] => [String c EmptyString]
        end
  end.

Definition parseEnabledPlugins (flagValue : string) : gset string :=
  if String.eqb flagValue "" then ∅
  else
    foldl (fun enabledPlugins f =>
             let trimmedFlag := TrimSpace f in
             if String.eqb trimmedFlag "" then enabledPlugins
             else {[trimmedFlag]} ∪ enabledPlugins)
          ∅ (splitComma flagValue).

(** How [registerPlugins] ends: it returns, [logger.Fatal] ends the
    process, or a panic of the loader or of an accessor of a plugin leaves
    it. *)
Inductive startup : Type :=
  | started (pm : PluginManager)
  | fatal (pluginName : string) (e : error)
  | crashed.

(** [shouldRegister] in the loop of [registerPlugins]. *)
Definition shouldRegister (metadata : Meta.t)
    (enabledOptionalPlugins : gset string) : bool :=
  let isEnabled := bool_decide (Meta.Flag metadata ∈ enabledOptionalPlugins) in
  Meta.IsMandatory metadata || isEnabled.

Section WithSorter.
Context {sorter : SliceSorter}.

(** The loop over [allPlugins].  [p.Metadata()] opens each turn, and
    [p.Name()] is evaluated for the fatal error before [logger.Fatal] is
    called; either can panic.  The calls that [RegisterPlugin] makes on
    the plugin are those of the manager.  An error of [RegisterMetadata]
    is logged and the loop goes on. *)
Fixpoint registerEach (allPlugins : list Instance)
    (enabledOptionalPlugins : gset string) (pm : PluginManager)
    : startup :=
  match allPlugins with
  | [] => started pm
  | p :: rest =>
      if panicsAt p registeredMetadata then crashed
      else
      let metadata := Metadata (asPlugin p) in
      let isEnabled :=
        bool_decide (Meta.Flag metadata ∈ enabledOptionalPlugins) in
      let shouldRegister := Meta.IsMandatory metadata || isEnabled in
      if shouldRegister then
        match RegisterPlugin (asPlugin p) pm with
        | (Some e, _) =>
            if panicsAt p registeredName then crashed
            else fatal (plugin.Name (asPlugin p)) e
        | (None, pm') => registerEach rest enabledOptionalPlugins pm'
        end
      else if negb (Meta.IsMandatory metadata) then
        registerEach rest enabledOptionalPlugins
                     (snd (RegisterMetadata metadata pm))
      else registerEach rest enabledOptionalPlugins pm
  end.

(** [builtInPlugins] are the three instances built by the packages
    [applauncher], [calculator] and [pluginmanager], code of the
    repository; [enabledPluginsFlag] is the value of the flag
    [-plugins]. *)
Definition registerPlugins (builtInPlugins : list Plugin)
    (fs : yaegi.fileSystem) (enabledPluginsFlag : string)
    (pluginManager : PluginManager) : startup :=
  match yaegi.LoadPlugins fs with
  | yaegi.panicked => crashed
  | yaegi.returned yaegiPlugins _ =>
      let allPlugins :=
        ((returning <$> builtInPlugins) ++ yaegiPlugins)%list in
      registerEach allPlugins (parseEnabledPlugins enabledPluginsFlag)
                   pluginManager
  end.

End WithSorter.

End main.

(** ** The application launcher's ranking ([internal/plugins/applauncher]) *)
Module launcher.

(** [strings.Contains(s, substr)]. *)
Fixpoint Contains (s substr : string) : bool :=
  String.prefix substr s ||
  match s with
  | EmptyString => false
  | String _ r => Contains r substr
  end.

(** [DesktopEntry]. *)
Record DesktopEntry : Type := mkDesktopEntry {
  Name : string;
  Exec : string;
  Icon : string;
  Comment : string;
  FilePath : string;
  GenericName : string;
  Keywords : string
}.

Definition scoreNamePrefix : nat := 100.
Definition scoreNameMatch : nat := 50.
Definition scoreGeneric : nat := 30.
Definition scoreKeyword : nat := 20.
Definition scoreComment : nat := 10.
Definition scoreExec : nat := 5.

Section WithToLower.
(** [strings.ToLower], with its Unicode case tables, is a parameter. *)
Variable ToLower : string -> string.

(** The test that closes [calculateRelevanceScore]: some field contains
    the query. *)
Definition someFieldContains (app : DesktopEntry) (lowerQuery : string) : bool :=
  Contains (ToLower (Name app)) lowerQuery
  || Contains (ToLower (GenericName app)) lowerQuery
  || Contains (ToLower (Keywords app)) lowerQuery
  || Contains (ToLower (Comment app)) lowerQuery
  || Contains (ToLower (Exec app)) lowerQuery.

(** The value of [score] before that test. *)
Definition scoreBeforeGuard (app : DesktopEntry) (lowerQuery : string) : nat :=
  let score := 0 in
  let lowerName := ToLower (Name app) in
  let lowerGeneric := ToLower (GenericName app) in
  let lowerKeywords := ToLower (Keywords app) in
  let lowerComment := ToLower (Comment app) in
  let lowerExec := ToLower (Exec app) in
  let score :=
    if HasPrefix lowerName lowerQuery then Nat.max score scoreNamePrefix
    else if Contains lowerName lowerQuery then Nat.max score scoreNameMatch
    else score in
  let score :=
    if Contains lowerGeneric lowerQuery then Nat.max score scoreGeneric
    else score in
  let score :=
    if Contains lowerKeywords lowerQuery then Nat.max score scoreKeyword
    else score in
  let score :=
    if Contains lowerComment lowerQuery then Nat.max score scoreComment
    else score in
  let score :=
    if Contains lowerExec lowerQuery then Nat.max score scoreExec
    else score in
  score.

Definition calculateRelevanceScore (app : DesktopEntry) (lowerQuery : string)
    : nat :=
  let score := scoreBeforeGuard app lowerQuery in
  if Nat.ltb 0 score && negb (someFieldContains app lowerQuery) then 0
  else score.

(** [scoredResult]. *)
Record scoredResult : Type := mkScoredResult {
  Result_ : Result;
  Score : nat
}.

(** The [plugin.Result] built from an entry, in both branches of
    [GetResults]. *)
Definition toResult (app : DesktopEntry) : Result :=
  mkResult (Name app) (Comment app) (FilePath app).

(** [results[i].Title < results[j].Title], the comparison of Go strings
    byte by byte. *)
Definition byTitle (a b : Result) : bool := String.ltb (Title a) (Title b).

(** The comparison handed to [sort.SliceStable]. *)
Definition byScoreThenTitle (a b : scoredResult) : bool :=
  if negb (Nat.eqb (Score a) (Score b)) then Nat.ltb (Score b) (Score a)
  else String.ltb (Title (Result_ a)) (Title (Result_ b)).

(** The loop that fills [scoredResults]. *)
Definition scoreApps (apps : list DesktopEntry) (lowerQuery : string)
    : list scoredResult :=
  foldl (fun scoredResults app =>
           let score := calculateRelevanceScore app lowerQuery in
           if Nat.ltb 0 score
           then (scoredResults ++ [mkScoredResult (toResult app) score])%list
           else scoredResults)
        [] apps.

(** [GetResults] of the launcher; [apps] is the field of the receiver. *)
Definition GetResults `{Sorter Result} `{Sorter scoredResult}
    (apps : list DesktopEntry) (query : string) : list Result * option error :=
  let lowerQuery := ToLower (TrimSpace query) in
  if String.eqb lowerQuery "" then
    let results := map toResult apps in
    (sortBy byTitle results, None)
  else
    let scoredResults := sortBy byScoreThenTitle (scoreApps apps lowerQuery) in
    let finalResults := map Result_ scoredResults in
    (finalResults, None).

End WithToLower.

End launcher.

(** ** The plugin that lists the plugins ([internal/plugins/pluginmanager]) *)

Module pluginmanager.
Import app.

(** The two [fmt.Sprintf] of [GetResults]. *)
Definition enabledDescription (kw : string) : string :=
  "Keyword: " ++ kw ++ " | Status: ✅ Enabled".
Definition disabledDescription (kw flag : string) : string :=
  "Keyword: " ++ kw ++ " | Status: ❌ Disabled (use --plugins=" ++ flag ++ ")".

Definition enabledRow (kw : string) (pl : Plugin) : Result :=
  mkResult (Meta.Name (Metadata pl)) (enabledDescription kw) kw.
Definition disabledRow (kw : string) (meta : Meta.t) : Result :=
  mkResult (Meta.Name meta) (disabledDescription kw (Meta.Flag meta)) kw.

(** The informational item. *)
Definition infoItem : Result :=
  mkResult "Info"
    "Use --plugins=flag1,flag2,... at startup to enable optional plugins."
    "pm_info_flag".

Section WithToLower.
(** [strings.ToLower] is a parameter, as for the launcher. *)
Variable ToLower : string -> string.
Context {ranging : MapRange} {sorting : Sorter Result}.

(** The comparison handed to both [sort.Slice]. *)
Definition byLowerTitle (a b : Result) : bool :=
  String.ltb (ToLower (Title a)) (ToLower (Title b)).

(** The first loop: the enabled plugins, mandatory and optional apart. *)
Definition enabledRows (loadedPlugins : gmap string Plugin)
    : list Result * list Result :=
  foldl (fun (lists : list Result * list Result) (entry : string * Plugin) =>
           let meta := Metadata (snd entry) in
           let result := enabledRow (fst entry) (snd entry) in
           if Meta.IsMandatory meta
           then ((fst lists ++ [result])%list, snd lists)
           else (fst lists, (snd lists ++ [result])%list))
        ([], []) (rangeOver loadedPlugins).

(** The second loop: the disabled plugins that are not enabled. *)
Definition withDisabledRows (loadedPlugins : gmap string Plugin)
    (disabledPluginsMetadata : gmap string Meta.t)
    (optionalPlugins : list Result) : list Result :=
  foldl (fun (optionalPlugins : list Result) (entry : string * Meta.t) =>
           match loadedPlugins !! fst entry with
           | Some _ => optionalPlugins
           | None =>
               (optionalPlugins ++ [disabledRow (fst entry) (snd entry)])%list
           end)
        optionalPlugins (rangeOver disabledPluginsMetadata).

(** The test of the filter loop. *)
Definition keeps (trimmedQuery : string) (r : Result) : bool :=
  String.eqb (Identifier r) "pm_info_flag"
  || launcher.Contains (ToLower (Title r)) trimmedQuery
  || launcher.Contains (ToLower (Description r)) trimmedQuery.

(** [GetResults]; [mainPluginManager] is the manager the receiver points
    to, as it is when the call is made. *)
Definition GetResults (mainPluginManager : PluginManager) (query : string)
    : list Result * option error :=
  let loadedPlugins := plugins mainPluginManager in
  let '(mandatoryPlugins, optionalPlugins) := enabledRows loadedPlugins in
  let disabledPluginsMetadata := disabledPluginsMetadata mainPluginManager in
  let optionalPlugins :=
    withDisabledRows loadedPlugins disabledPluginsMetadata optionalPlugins in
  let mandatoryPlugins := sortBy byLowerTitle mandatoryPlugins in
  let optionalPlugins := sortBy byLowerTitle optionalPlugins in
  let allResults := (mandatoryPlugins ++ optionalPlugins)%list in
  let allResults := (allResults ++ [infoItem])%list in
  let trimmedQuery := TrimSpace (ToLower query) in
  if negb (String.eqb trimmedQuery "") then
    let filteredResults :=
      foldl (fun (filteredResults : list Result) (r : Result) =>
               if keeps trimmedQuery r then (filteredResults ++ [r])%list
               else filteredResults)
            [] allResults in
    (filteredResults, None)
  else (allResults, None).

End WithToLower.

End pluginmanager.

(** ** The theme file ([internal/theme]) *)
Module theme.

(** [lipgloss.Color] is a string type. *)
Definition Color : Type := string.

Record Theme : Type := mkTheme {
  Base00 : Color; Base01 : Color; Base02 : Color; Base03 : Color;
  Base04 : Color; Base05 : Color; Base06 : Color; Base07 : Color;
  Base08 : Color; Base09 : Color; Base0A : Color; Base0B : Color;
  Base0C : Color; Base0D : Color; Base0E : Color; Base0F : Color
}.

Definition DefaultTheme : Theme :=
  mkTheme "#1e1e2e" "#181825" "#313244" "#45475a"
          "#585b70" "#cdd6f4" "#f5e0dc" "#b4befe"
          "#f38ba8" "#fab387" "#f9e2af" "#a6e3a1"
          "#94e2d5" "#89b4fa" "#cba6f7" "#f2cdcd".

(** The closure [getColor] of [LoadThemeFromFile] over [rawThemeData]. *)
Definition getColor (rawThemeData : gmap string string) (lowerKey : string)
    (defaultValue : Color) : Color :=
  match rawThemeData !! lowerKey with
  | None => defaultValue
  | Some val =>
      if String.eqb val "" then defaultValue
      else
        let val' := if HasPrefix val "#" then val else "#" ++ val in
        if negb (Nat.eqb (String.length val') 7) then defaultValue
        else val'
  end.

(** What [LoadThemeFromFile] finds: no configuration path, no file, a file
    that cannot be read, content that [yaml.Unmarshal] refuses, or the map
    it fills from the lower-cased content. *)
Inductive themeFile : Type :=
  | noConfigPath
  | notFound
  | unreadable
  | unmarshalError
  | unmarshalled (rawThemeData : gmap string string).

(** [LoadThemeFromFile], as the value it leaves in [CurrentTheme]. *)
Definition LoadThemeFromFile (file : themeFile) : Theme :=
  match file with
  | unmarshalled rawThemeData =>
      let getColor := getColor rawThemeData in
      mkTheme
        (getColor "base00" (Base00 DefaultTheme))
        (getColor "base01" (Base01 DefaultTheme))
        (getColor "base02" (Base02 DefaultTheme))
        (getColor "base03" (Base03 DefaultTheme))
        (getColor "base04" (Base04 DefaultTheme))
        (getColor "base05" (Base05 DefaultTheme))
        (getColor "base06" (Base06 DefaultTheme))
        (getColor "base07" (Base07 DefaultTheme))
        (getColor "base08" (Base08 DefaultTheme))
        (getColor "base09" (Base09 DefaultTheme))
        (getColor "base0a" (Base0A DefaultTheme))
        (getColor "base0b" (Base0B DefaultTheme))
        (getColor "base0c" (Base0C DefaultTheme))
        (getColor "base0d" (Base0D DefaultTheme))
        (getColor "base0e" (Base0E DefaultTheme))
        (getColor "base0f" (Base0F DefaultTheme))
  | _ => DefaultTheme
  end.

(** The sixteen colours of a theme with their keys. *)
Definition colors (t : Theme) : list (string * Color) :=
  [("base00", Base00 t); ("base01", Base01 t); ("base02", Base02 t);
   ("base03", Base03 t); ("base04", Base04 t); ("base05", Base05 t);
   ("base06", Base06 t); ("base07", Base07 t); ("base08", Base08 t);
   ("base09", Base09 t); ("base0a", Base0A t); ("base0b", Base0B t);
   ("base0c", Base0C t); ("base0d", Base0D t); ("base0e", Base0E t);
   ("base0f", Base0F t)].

End theme.

(** ** An implementation of [sort.Slice] and some plugins to run the code on *)

Definition notLess (less : string -> string -> bool) : relation string :=
  fun a b => less b a = false.

#[export] Instance notLess_dec less : RelDecision (notLess less) :=
  fun a b => decide (less b a = false).

#[export] Program Instance mergeSorter : SliceSorter := {|
  sortSlice less := merge_sort (notLess less)
|}.
Next Obligation. intros less l. apply merge_sort_Permutation. Qed.
Next Obligation.
  intros less l Hasym Htrans.
  apply (@StronglySorted_merge_sort _ (notLess less) _).
  - intros a b c Hab Hbc. exact (Htrans a b c Hab Hbc).
  - intros a b. unfold notLess.
    destruct (less b a) eqn:Hba; [right; auto | left; reflexivity].
Qed.

(** A plugin without state that answers a query with one result carrying
    the query it received, and returns itself from [Update]. *)
Definition echoMethods (metadata : Meta.t) : methods unit :=
  mkMethods
    (fun _ => metadata)
    (fun _ => Meta.Name metadata)
    (fun _ => Meta.Keyword metadata)
    (fun _ => None)
    (fun _ query => ([mkResult query "" query], None))
    (fun _ _ => None)
    (fun s _ => (Some s, None))
    (fun _ => "")
    (fun _ => None).

Definition echoPlugin (metadata : Meta.t) : Plugin :=
  mkPlugin unit (echoMethods metadata) tt.

(** The metadata of the built-in plugins and of the examples shipped with
    the repository. *)
Definition applauncher : Plugin :=
  echoPlugin (Meta.mk "Application Launcher" "" "!a" "" true true).
Definition calculator : Plugin :=
  echoPlugin (Meta.mk "Calculator" "" "=" "" true false).
Definition wikipedia : Plugin :=
  echoPlugin (Meta.mk "Wikipedia" "" "!w" "wikipedia" false false).
Definition hello : Plugin :=
  echoPlugin (Meta.mk "Hello" "A simple example plugin that greets the user."
                      "!hello" "hello" false false).

(** Two more, for keywords of which one is a prefix of the other. *)
Definition wiki : Plugin :=
  echoPlugin (Meta.mk "Wiki" "" "!wiki" "wiki" false false).
Definition h : Plugin :=
  echoPlugin (Meta.mk "H" "" "!h" "h" false false).

(** ** What the properties are stated with *)

Import app.

(** A keyword matches a trimmed query: the query starts with it and ends
    there or goes on with a space. *)
Definition matches (trimmedQuery keyword : string) : bool :=
  HasPrefix trimmedQuery keyword && atBoundary trimmedQuery keyword.

(** [a] is a strict prefix of [b]. *)
Definition strictPrefix (a b : string) : Prop :=
  HasPrefix b a = true /\ a <> b.

(** A keyword on which the routing loop over the map [m] breaks for the
    trimmed query [t]. *)
Definition hit (m : gmap string Plugin) (t k : string) : Prop :=
  k <> "" /\ matches t k = true /\ is_Some (m !! k).

#[export] Instance hit_dec m t k : Decision (hit m t k).
Proof. unfold hit. apply _. Defined.

(** What a query resolves to, in the words of the specification: the
    plugin registered under the longest keyword that matches the trimmed
    query at a word boundary, and the default plugin, nil when there is
    none, when no registered keyword matches. *)
Inductive resolvesTo (pm : PluginManager) (query : string)
    : option Plugin -> Prop :=
  | resolvesToKeyword (k : string) (p : Plugin) :
      plugins pm !! k = Some p ->
      matches (TrimSpace query) k = true ->
      (forall k', is_Some (plugins pm !! k') ->
                  matches (TrimSpace query) k' = true ->
                  String.length k' <= String.length k) ->
      resolvesTo pm query (Some p)
  | resolvesToDefault :
      (forall k, is_Some (plugins pm !! k) ->
                 matches (TrimSpace query) k = false) ->
      resolvesTo pm query (defaultPlugin pm).

(** The calls a client makes on a manager. *)
Inductive call : Type :=
  | callRegisterPlugin (p : Plugin)
  | callRegisterMetadata (metadata : Meta.t)
  | callDetermineActivePlugin (query : string)
  | callGetResults (query : string)
  | callUpdatePluginInstance (updatedPlugin : option Plugin).

Definition perform `{SliceSorter} (c : call) (pm : PluginManager)
    : PluginManager :=
  match c with
  | callRegisterPlugin p => snd (RegisterPlugin p pm)
  | callRegisterMetadata metadata => snd (RegisterMetadata metadata pm)
  | callDetermineActivePlugin query => snd (DetermineActivePlugin query pm)
  | callGetResults query => snd (GetResults query pm)
  | callUpdatePluginInstance updatedPlugin =>
      UpdatePluginInstance updatedPlugin pm
  end.

(** The manager after a sequence of calls, first call first. *)
Definition performAll `{SliceSorter} (cs : list call) (pm : PluginManager)
    : PluginManager :=
  fold_left (fun pm c => perform c pm) cs pm.

(** Calls that register only plugins whose [Keyword()] is their
    [Metadata().Keyword]. *)
Definition consistentCall (c : call) : Prop :=
  match c with
  | callRegisterPlugin p => plugin.consistent p
  | _ => True
  end.

(** The invariant of the registry. *)
Record registryInvariant (pm : PluginManager) : Prop := mkRegistryInvariant {
  inv_keyed : forall k p,
    plugins pm !! k = Some p -> Keyword p = k /\ k <> "";
  inv_keywords : forall k,
    k ∈ sortedKeywords pm <-> is_Some (plugins pm !! k);
  inv_sorted :
    StronglySorted (fun a b => longerThan b a = false) (sortedKeywords pm);
  inv_active : forall a,
    activePlugin pm = Some a -> plugins pm !! Keyword a = Some a;
  inv_default : forall d,
    defaultPlugin pm = Some d -> plugins pm !! Keyword d = Some d;
  inv_fallback : is_Some (defaultPlugin pm) -> is_Some (activePlugin pm)
}.

(** The effective query in the words of the specification: the trimmed
    query without the keyword and one following separator. *)
Definition strippedQuery (keyword query : string) : string :=
  sliceFrom (String.length keyword + 1) (TrimSpace query).

(** Default and active reference are both set. *)
Definition bothSet (pm : PluginManager) : Prop :=
  is_Some (defaultPlugin pm) /\ is_Some (activePlugin pm).

(** A file of the plugin directory that fails at one of the steps of the
    loader without a panic: it cannot be read, its evaluation fails, it has
    no [main.New], [main.New] is not a constructor, or the constructor
    returns nil. *)
Inductive malformed (file : yaegi.DirEntry) : Prop :=
  | unreadable :
      yaegi.ReadFile file = None -> malformed file
  | evaluationFails src e :
      yaegi.ReadFile file = Some src -> yaegi.evalSource src = Some e ->
      malformed file
  | entryPointMissing src :
      yaegi.ReadFile file = Some src -> yaegi.evalMainNew src = None ->
      malformed file
  | entryPointWrongType src :
      yaegi.ReadFile file = Some src ->
      yaegi.evalMainNew src = Some yaegi.notAConstructor ->
      malformed file
  | constructorReturnsNil src :
      yaegi.ReadFile file = Some src ->
      yaegi.evalMainNew src = Some (yaegi.funcNew (yaegi.constructs None)) ->
      malformed file.

(** A candidate on which every step up to the call of the constructor
    succeeds. *)
Definition reachesConstructor (file : yaegi.DirEntry)
    (body : yaegi.construction) : Prop :=
  yaegi.IsDir file = false /\
  yaegi.HasSuffix (yaegi.Name file) ".go" = true /\
  yaegi.useStdlib file = None /\
  yaegi.useSymbols file = None /\
  exists src,
    yaegi.ReadFile file = Some src /\ yaegi.evalSource src = None /\
    yaegi.evalMainNew src = Some (yaegi.funcNew body).

(** The calls [Metadata()], [Name()] and [Keyword()] that [LoadPlugins]
    makes on a fresh instance all return. *)
Definition answersLoader (p : Instance) : Prop :=
  panicsAt p loadedMetadata = false /\ panicsAt p loadedName = false /\
  panicsAt p loadedKeyword = false.

(** A valid extension file and the instance it constructs: every step
    succeeds, and the instance answers the calls of the loader. *)
Definition yields (file : yaegi.DirEntry) (p : Instance) : Prop :=
  reachesConstructor file (yaegi.constructs (Some p)) /\ answersLoader p.

(** A file whose code panics while it is loaded: in its constructor, or in
    a call that the loader makes on the instance it constructed. *)
Definition panicsOnLoad (file : yaegi.DirEntry) : Prop :=
  reachesConstructor file yaegi.constructorPanics \/
  exists p, reachesConstructor file (yaegi.constructs (Some p)) /\
            ~ answersLoader p.

(** Files to run the loader on: a source with the given [main.New]. *)
Definition goFile (name : string) (new : yaegi.symbolValue) : yaegi.DirEntry :=
  yaegi.mkDirEntry false name None None
    (Some (yaegi.mkSource None (Some new))).

Definition helloFile : yaegi.DirEntry :=
  goFile "hello.go"
    (yaegi.funcNew (yaegi.constructs (Some (returning hello)))).
Definition panickingFile : yaegi.DirEntry :=
  goFile "broken.go" (yaegi.funcNew yaegi.constructorPanics).

(** An instance whose [Metadata()] panics when the loader calls it, and one
    whose [Metadata()] panics at start-up. *)
Definition sulking : Instance :=
  mkInstance wiki
    (fun c => match c with loadedMetadata => true | _ => false end).
Definition sulkingFile : yaegi.DirEntry :=
  goFile "sulking.go" (yaegi.funcNew (yaegi.constructs (Some sulking))).
Definition moody : Instance :=
  mkInstance wiki
    (fun c => match c with registeredMetadata => true | _ => false end).
Definition throwingFile : yaegi.DirEntry :=
  yaegi.mkDirEntry false "throws.go" None None
    (Some (yaegi.mkSource (Some (errPlugin "panic during evaluation")) None)).

Definition pluginDir (files : list yaegi.DirEntry) : yaegi.fileSystem :=
  yaegi.mkFileSystem false false (inr files) (Some "/").

(** A plugin whose keyword contains a space after ["!h"]. *)
Definition hx : Plugin :=
  echoPlugin (Meta.mk "HX" "" "!h x" "hx" false false).

(** The model after a list of messages, commands dropped. *)
Definition deliver `{MapRange} (msgs : list tea.Msg) (m : model) : model :=
  fold_left (fun m msg => fst (Update msg m)) msgs m.

(** The manager of a start-up that returned. *)
Definition startedManager (s : main.startup) : PluginManager :=
  match s with
  | main.started pm => pm
  | _ => NewPluginManager
  end.

(** A plugin that counts the window-size messages it is sent; it returns
    a command with the first. *)
Definition countingMethods : methods nat :=
  mkMethods
    (fun _ => Meta.mk "Counter" "" "!c" "" true false)
    (fun _ => "Counter")
    (fun _ => "!c")
    (fun _ => None)
    (fun n query => ([mkResult query "" query], None))
    (fun _ _ => None)
    (fun n msg =>
       match msg with
       | tea.WindowSizeMsg _ _ =>
           (Some (S n),
            match n with
            | O => Some (tea.pluginCmd 0 None)
            | S _ => None
            end)
       | _ => (Some n, None)
       end)
    (fun _ => "")
    (fun _ => None).

Definition counting (n : nat) : Plugin := mkPlugin nat countingMethods n.

(** A second plugin with [IsDefault]. *)
Definition secondDefault : Plugin :=
  echoPlugin (Meta.mk "Files" "" "!f" "" true true).

(** The branch of [Update] for the messages no case returns on. *)
Definition isFallThrough (msg : tea.Msg) : Prop :=
  match msg with
  | tea.WindowSizeMsg _ _ => False
  | tea.processQueryMsg | tea.resultsMsg _ _ _ _ => False
  | tea.KeyMsg tea.KeyCtrlC | tea.KeyMsg tea.KeyEsc
  | tea.KeyMsg tea.KeyEnter => False
  | _ => True
  end.

(** The plugins of a start-up list that register: mandatory, or named by
    the flag. *)
Definition registering (allPlugins : list Instance) (enabled : gset string)
    : list Plugin :=
  filter (fun p => main.shouldRegister (Metadata p) enabled = true)
         (asPlugin <$> allPlugins).

(** The pieces of a flag value put together again with commas. *)
Fixpoint joinComma (pieces : list string) : string :=
  match pieces with
  | [] => ""
  | [piece] => piece
  | piece :: rest => piece ++ "," ++ joinComma rest
  end.

(** The byte [c] occurs in [s]. *)
Fixpoint hasByte (c : ascii) (s : string) : bool :=
  match s with
  | EmptyString => false
  | String b r => Ascii.eqb b c || hasByte c r
  end.

(** A colour as the theme code accepts it: [#] and six more bytes. *)
Definition sharpAndSix (c : theme.Color) : Prop :=
  String.length c = 7 /\ HasPrefix c "#" = true.

(** [mergeSort] as an implementation of [Sorter]. *)
Definition notLessOf {A : Type} (less : A -> A -> bool) : relation A :=
  fun a b => less b a = false.

#[export] Instance notLessOf_dec {A : Type} (less : A -> A -> bool)
    : RelDecision (notLessOf less) :=
  fun a b => decide (less b a = false).

#[export] Program Instance mergeSortBy (A : Type) : Sorter A := {|
  sortBy less := merge_sort (notLessOf less)
|}.
Next Obligation. intros A less l. apply merge_sort_Permutation. Qed.
Next Obligation.
  intros A less l Hasym Htrans.
  apply (@StronglySorted_merge_sort _ (notLessOf less) _).
  - intros a b c Hab Hbc. exact (Htrans a b c Hab Hbc).
  - intros a b. unfold notLessOf.
    destruct (less b a) eqn:Hba; [right; auto | left; reflexivity].
Qed.

(** Ranging over a map in the order of its list of entries. *)
#[export] Program Instance listRange : MapRange := {|
  rangeOver V m := map_to_list m
|}.
Next Obligation. reflexivity. Qed.

(** Three desktop entries. *)
Definition firefox : launcher.DesktopEntry :=
  launcher.mkDesktopEntry "Firefox" "firefox %u" "firefox" "Browse the Web"
    "/usr/share/applications/firefox.desktop" "Web Browser" "internet;www".
Definition nautilus : launcher.DesktopEntry :=
  launcher.mkDesktopEntry "Files" "nautilus" "nautilus" "Access files"
    "/usr/share/applications/nautilus.desktop" "File Manager" "folder".
Definition terminal : launcher.DesktopEntry :=
  launcher.mkDesktopEntry "Terminal" "kitty" "kitty" "Fast terminal"
    "/usr/share/applications/kitty.desktop" "Terminal" "shell".

(** A sequence of calls that registers the launcher, Wikipedia and Wiki. *)
Definition sampleCalls : list call :=
  [callRegisterPlugin applauncher; callRegisterPlugin wikipedia;
   callRegisterPlugin wiki].

(** * Properties *)

(** ** Byte strings *)

Lemma prefix_length (a b : string) :
  String.prefix a b = true -> String.length a <= String.length b.
Proof.
  revert b. induction a as [|c a IH]; intros [|d b] Hp; simpl in *;
    try lia; try discriminate.
  destruct (ascii_dec c d); [|discriminate].
  apply IH in Hp. lia.
Qed.

Lemma prefix_same_length (a b : string) :
  String.prefix a b = true -> String.length a = String.length b -> a = b.
Proof.
  revert b. induction a as [|c a IH]; intros [|d b] Hp Hl; simpl in *;
    try reflexivity; try discriminate.
  destruct (ascii_dec c d) as [->|]; [|discriminate].
  f_equal. apply IH; [assumption | lia].
Qed.

Lemma strictPrefix_longer (a b : string) :
  strictPrefix a b -> String.length a < String.length b.
Proof.
  intros [Hp Hne]. unfold HasPrefix in Hp.
  pose proof (prefix_length _ _ Hp) as Hle.
  destruct (Nat.eq_dec (String.length a) (String.length b)) as [He|He];
    [|lia].
  exfalso. apply Hne. apply prefix_same_length; assumption.
Qed.

Lemma longerThan_false (a b : string) :
  longerThan a b = false <-> String.length a <= String.length b.
Proof. unfold longerThan. rewrite Nat.ltb_ge. reflexivity. Qed.

Lemma eqb_empty_false (k : string) : k <> "" -> String.eqb k "" = false.
Proof. intros Hk. apply String.eqb_neq. exact Hk. Qed.

(** ** The routing loop *)

Section Scan.
Variable m : gmap string Plugin.
Variable t : string.

Local Abbreviation hit := (hit m t).

Lemma scan_step_hit k rest p :
  k <> "" -> matches t k = true -> m !! k = Some p ->
  scanKeywords m t (k :: rest) = Some p.
Proof.
  intros Hk Hm Hp. unfold matches in Hm.
  apply andb_true_iff in Hm as [H1 H2].
  simpl. rewrite (eqb_empty_false _ Hk), H1, H2, Hp. reflexivity.
Qed.

Lemma scan_step_miss k rest :
  ~ hit k -> scanKeywords m t (k :: rest) = scanKeywords m t rest.
Proof.
  intros Hn. simpl.
  destruct (String.eqb_spec k "") as [->|Hk]; [reflexivity|].
  simpl. destruct (HasPrefix t k) eqn:H1; [|reflexivity].
  destruct (atBoundary t k) eqn:H2; [|reflexivity].
  destruct (m !! k) as [p|] eqn:Hp; [|reflexivity].
  exfalso. apply Hn. repeat split; [assumption| |eauto].
  unfold matches. rewrite H1, H2. reflexivity.
Qed.

Lemma scan_found kws p :
  scanKeywords m t kws = Some p ->
  exists l1 k l2,
    kws = (l1 ++ k :: l2)%list /\ Forall (fun k' => ~ hit k') l1 /\
    k <> "" /\ matches t k = true /\ m !! k = Some p.
Proof.
  induction kws as [|k kws IH]; [discriminate|].
  intros Hs.
  destruct (decide (hit k)) as [(Hk & Hm & [q Hq])|Hn].
  - rewrite (scan_step_hit k kws q Hk Hm Hq) in Hs.
    injection Hs as <-.
    exists [], k, kws. repeat split; auto.
  - rewrite (scan_step_miss k kws Hn) in Hs.
    destruct (IH Hs) as (l1 & k0 & l2 & -> & Hl1 & H0).
    exists (k :: l1), k0, l2. repeat split; try tauto.
    constructor; assumption.
Qed.

Lemma scan_none kws :
  scanKeywords m t kws = None -> Forall (fun k' => ~ hit k') kws.
Proof.
  induction kws as [|k kws IH]; [constructor|].
  intros Hs.
  destruct (decide (hit k)) as [(Hk & Hm & [q Hq])|Hn].
  - rewrite (scan_step_hit k kws q Hk Hm Hq) in Hs. discriminate.
  - rewrite (scan_step_miss k kws Hn) in Hs. constructor; auto.
Qed.
End Scan.

(** ** The registry invariant *)

Ltac unfold_setters :=
  unfold set_plugins, set_disabledPluginsMetadata, set_defaultPlugin,
    set_activePlugin, set_sortedKeywords in *; simpl in *.

Lemma longerThan_asym a b : longerThan a b = true -> longerThan b a = false.
Proof. unfold longerThan. rewrite Nat.ltb_lt, Nat.ltb_ge. lia. Qed.

Lemma longerThan_negtrans a b c :
  longerThan b a = false -> longerThan c b = false -> longerThan c a = false.
Proof. unfold longerThan. rewrite !Nat.ltb_ge. lia. Qed.

Lemma invariant_new : registryInvariant NewPluginManager.
Proof.
  split; simpl.
  - intros k p Hk. rewrite lookup_empty in Hk. discriminate.
  - intros k. rewrite lookup_empty. split.
    + intros Hin. inversion Hin.
    + intros [x Hx]. discriminate.
  - constructor.
  - discriminate.
  - discriminate.
  - intros [x Hx]. discriminate.
Qed.

Section Registry.
Context {sorter : SliceSorter}.

(** [RegisterPlugin] when it accepts the plugin. *)
Lemma RegisterPlugin_accepts p pm :
  Meta.Keyword (Metadata p) <> "" ->
  plugins pm !! Meta.Keyword (Metadata p) = None ->
  RegisterPlugin p pm =
    (None,
     mkPluginManager
       (<[Meta.Keyword (Metadata p) := p]> (plugins pm))
       (disabledPluginsMetadata pm)
       (if Meta.IsDefault (Metadata p) then Some p else defaultPlugin pm)
       (if Meta.IsDefault (Metadata p)
        then match activePlugin pm with
             | None => Some p
             | Some a => Some a
             end
        else activePlugin pm)
       (sortSlice longerThan
          (sortedKeywords pm ++ [Meta.Keyword (Metadata p)])%list)).
Proof.
  intros Hk Hfree. unfold RegisterPlugin.
  destruct (decide (Meta.Keyword (Metadata p) = "")) as [|_]; [contradiction|].
  rewrite Hfree. unfold_setters. f_equal.
  destruct (Meta.IsDefault (Metadata p)); simpl; [|reflexivity].
  destruct (activePlugin pm); reflexivity.
Qed.

(** [RegisterPlugin] when it refuses the plugin. *)
Lemma RegisterPlugin_refuses p pm :
  Meta.Keyword (Metadata p) = "" \/
  is_Some (plugins pm !! Meta.Keyword (Metadata p)) ->
  exists e, RegisterPlugin p pm = (Some e, pm).
Proof.
  intros Hbad. unfold RegisterPlugin.
  destruct (decide (Meta.Keyword (Metadata p) = "")); [eauto|].
  destruct Hbad as [|[q Hq]]; [contradiction|].
  rewrite Hq. eauto.
Qed.

Lemma RegisterPlugin_cases p pm :
  (exists e, RegisterPlugin p pm = (Some e, pm)) \/
  (Meta.Keyword (Metadata p) <> "" /\
   plugins pm !! Meta.Keyword (Metadata p) = None /\
   fst (RegisterPlugin p pm) = None).
Proof.
  destruct (decide (Meta.Keyword (Metadata p) = "")) as [He|Hne].
  - left. apply RegisterPlugin_refuses. auto.
  - destruct (plugins pm !! Meta.Keyword (Metadata p)) as [q|] eqn:Hq.
    + left. apply RegisterPlugin_refuses. right. rewrite Hq. eauto.
    + right. rewrite (RegisterPlugin_accepts p pm Hne Hq). auto.
Qed.

Lemma invariant_RegisterPlugin p pm :
  plugin.consistent p -> registryInvariant pm ->
  registryInvariant (snd (RegisterPlugin p pm)).
Proof.
  intros Hc Hinv.
  destruct (RegisterPlugin_cases p pm) as [[e He]|(Hne & Hfree & _)].
  { rewrite He. exact Hinv. }
  rewrite (RegisterPlugin_accepts p pm Hne Hfree). simpl.
  destruct Hinv as [Hkeyed Hkws Hsorted Hact Hdef Hfb].
  set (k := Meta.Keyword (Metadata p)) in *.
  assert (Hkp : Keyword p = k) by exact Hc.
  assert (Hother : forall a, plugins pm !! Keyword a = Some a ->
            <[k:=p]> (plugins pm) !! Keyword a = Some a).
  { intros a Ha. rewrite lookup_insert_ne; [exact Ha|].
    intros Heq. rewrite <- Heq, Hfree in Ha. discriminate. }
  split; simpl.
  - intros k' q Hq. destruct (decide (k = k')) as [Heq|Hkk].
    + rewrite <- Heq in *. rewrite lookup_insert_eq in Hq.
      injection Hq as <-. auto.
    + rewrite lookup_insert_ne in Hq by exact Hkk. eauto.
  - intros k'. rewrite (sortSlice_perm longerThan _).
    rewrite elem_of_app, list_elem_of_singleton, Hkws.
    destruct (decide (k = k')) as [Heq|Hkk].
    + rewrite <- Heq. rewrite lookup_insert_eq. split; eauto.
    + rewrite lookup_insert_ne by exact Hkk. split; [|tauto].
      intros [H1|H1]; [exact H1|congruence].
  - apply sortSlice_sorted.
    + apply longerThan_asym.
    + apply longerThan_negtrans.
  - intros a Ha. destruct (Meta.IsDefault (Metadata p)).
    + destruct (activePlugin pm) as [a0|] eqn:Ha0.
      * injection Ha as <-. apply Hother. apply Hact. reflexivity.
      * injection Ha as <-. rewrite Hkp. apply lookup_insert_eq.
    + apply Hother. apply Hact. exact Ha.
  - intros d Hd. destruct (Meta.IsDefault (Metadata p)).
    + injection Hd as <-. rewrite Hkp. apply lookup_insert_eq.
    + apply Hother. apply Hdef. exact Hd.
  - intros Hs. destruct (Meta.IsDefault (Metadata p)).
    + destruct (activePlugin pm); eauto.
    + auto.
Qed.
End Registry.

Lemma invariant_RegisterMetadata metadata pm :
  registryInvariant pm -> registryInvariant (snd (RegisterMetadata metadata pm)).
Proof.
  intros Hinv. unfold RegisterMetadata.
  destruct (decide _); [exact Hinv|].
  destruct (plugins pm !! _); [exact Hinv|].
  destruct Hinv. split; simpl; assumption.
Qed.

(** [determinedPlugin] is a registered instance, or nil with no default. *)
Lemma determined_registered query pm d :
  registryInvariant pm -> determinedPlugin query pm = Some d ->
  plugins pm !! Keyword d = Some d.
Proof.
  intros Hinv Hd. unfold determinedPlugin in Hd.
  destruct (scanKeywords _ _ _) as [p|] eqn:Hs.
  - injection Hd as <-.
    apply scan_found in Hs as (l1 & k & l2 & _ & _ & _ & _ & Hk).
    destruct (inv_keyed pm Hinv k p Hk) as [-> _]. exact Hk.
  - apply (inv_default pm Hinv). exact Hd.
Qed.

Lemma determined_none query pm :
  determinedPlugin query pm = None -> defaultPlugin pm = None.
Proof.
  unfold determinedPlugin. destruct (scanKeywords _ _ _); [discriminate|auto].
Qed.

Lemma registered_keyword_nonempty pm p :
  registryInvariant pm -> plugins pm !! Keyword p = Some p -> Keyword p <> "".
Proof. intros Hinv Hp. apply (inv_keyed pm Hinv _ _ Hp). Qed.

Lemma set_activePlugin_same pm : set_activePlugin (activePlugin pm) pm = pm.
Proof. destruct pm. reflexivity. Qed.

(** On a registry that satisfies the invariant, [DetermineActivePlugin]
    returns the determined plugin and leaves it as the active one. *)
Lemma DetermineActivePlugin_spec query pm :
  registryInvariant pm ->
  DetermineActivePlugin query pm =
    ((determinedPlugin query pm,
      negb (String.eqb (keywordOrEmpty (activePlugin pm))
                       (keywordOrEmpty (determinedPlugin query pm)))),
     set_activePlugin (determinedPlugin query pm) pm).
Proof.
  intros Hinv. unfold DetermineActivePlugin.
  pose proof (determined_registered query pm) as Hreg.
  pose proof (determined_none query pm) as Hnodef.
  pose proof (inv_active pm Hinv) as Hact.
  pose proof (registered_keyword_nonempty pm) as Hne.
  destruct (determinedPlugin query pm) as [d|];
    destruct pm as [pl dis def act kws]; simpl in *.
  - specialize (Hreg d Hinv eq_refl).
    destruct (String.eqb_spec (keywordOrEmpty act) (Keyword d)) as [He|Hd];
      simpl; [|reflexivity].
    destruct act as [a|]; simpl in *.
    + specialize (Hact a eq_refl). rewrite He, Hreg in Hact.
      injection Hact as ->. reflexivity.
    + exfalso. apply (Hne d Hinv Hreg). auto.
  - rewrite (Hnodef eq_refl).
    destruct (String.eqb_spec (keywordOrEmpty act) "") as [He|Hd]; simpl.
    + destruct act as [a|]; simpl in *; [|reflexivity].
      exfalso. apply (Hne a Hinv (Hact a eq_refl)). exact He.
    + reflexivity.
Qed.

Lemma invariant_DetermineActivePlugin query pm :
  registryInvariant pm ->
  registryInvariant (snd (DetermineActivePlugin query pm)).
Proof.
  intros Hinv. rewrite (DetermineActivePlugin_spec query pm Hinv). simpl.
  pose proof (determined_registered query pm) as Hreg.
  pose proof (determined_none query pm) as Hnone.
  destruct Hinv as [Hkeyed Hkws Hsorted Hact Hdef Hfb].
  split; simpl; try assumption.
  - intros a Ha. apply Hreg; [split; assumption | exact Ha].
  - intros [d Hd]. destruct (determinedPlugin query pm); [eauto|].
    rewrite Hnone in Hd by reflexivity. discriminate.
Qed.

(** [UpdatePluginInstance] when the keyword of the instance is registered. *)
Lemma UpdatePluginInstance_registered updated pm :
  Keyword updated <> "" -> is_Some (plugins pm !! Keyword updated) ->
  UpdatePluginInstance (Some updated) pm =
    mkPluginManager
      (<[Keyword updated := updated]> (plugins pm))
      (disabledPluginsMetadata pm)
      (if decide (keywordOrEmpty (defaultPlugin pm) = Keyword updated)
       then Some updated else defaultPlugin pm)
      (if decide (keywordOrEmpty (activePlugin pm) = Keyword updated)
       then Some updated else activePlugin pm)
      (sortedKeywords pm).
Proof.
  intros Hk [q Hq]. unfold UpdatePluginInstance.
  destruct (decide (Keyword updated = "")); [contradiction|].
  rewrite Hq. unfold_setters.
  destruct (activePlugin pm) as [a|] eqn:Ha; simpl.
  - destruct (decide (Keyword a = Keyword updated)); simpl;
      destruct (defaultPlugin pm) as [d|] eqn:Hd; simpl;
      try destruct (decide (Keyword d = Keyword updated)); simpl;
      try rewrite Hd; try reflexivity;
      destruct (decide ("" = Keyword updated)); congruence.
  - destruct (decide ("" = Keyword updated)); [congruence|].
    destruct (defaultPlugin pm) as [d|] eqn:Hd; simpl;
      try destruct (decide (Keyword d = Keyword updated)); simpl;
      try rewrite Hd; try reflexivity;
      destruct (decide ("" = Keyword updated)); congruence.
Qed.

(** [UpdatePluginInstance] in every other case. *)
Lemma UpdatePluginInstance_ignored updatedPlugin pm :
  (updatedPlugin = None \/
   keywordOrEmpty updatedPlugin = "" \/
   plugins pm !! keywordOrEmpty updatedPlugin = None) ->
  UpdatePluginInstance updatedPlugin pm = pm.
Proof.
  intros Hcase. unfold UpdatePluginInstance.
  destruct updatedPlugin as [u|]; [|reflexivity]. simpl in Hcase.
  destruct (decide (Keyword u = "")); [reflexivity|].
  destruct Hcase as [H1|[H1|H1]]; [discriminate|contradiction|].
  rewrite H1. reflexivity.
Qed.

Lemma UpdatePluginInstance_cases updatedPlugin pm :
  UpdatePluginInstance updatedPlugin pm = pm \/
  exists u, updatedPlugin = Some u /\ Keyword u <> "" /\
            is_Some (plugins pm !! Keyword u).
Proof.
  destruct updatedPlugin as [u|].
  - destruct (decide (Keyword u = "")) as [He|Hne].
    + left. apply UpdatePluginInstance_ignored. auto.
    + destruct (plugins pm !! Keyword u) as [q|] eqn:Hq.
      * right. exists u. rewrite Hq. eauto.
      * left. apply UpdatePluginInstance_ignored. auto.
  - left. reflexivity.
Qed.

Lemma invariant_UpdatePluginInstance updatedPlugin pm :
  registryInvariant pm ->
  registryInvariant (UpdatePluginInstance updatedPlugin pm).
Proof.
  intros Hinv.
  destruct (UpdatePluginInstance_cases updatedPlugin pm)
    as [->|(u & -> & Hne & Hreg)]; [exact Hinv|].
  rewrite (UpdatePluginInstance_registered u pm Hne Hreg).
  destruct Hinv as [Hkeyed Hkws Hsorted Hact Hdef Hfb].
  assert (Hkeep : forall o : option Plugin,
            (forall a, o = Some a -> plugins pm !! Keyword a = Some a) ->
            forall a,
            (if decide (keywordOrEmpty o = Keyword u) then Some u else o)
              = Some a ->
            <[Keyword u := u]> (plugins pm) !! Keyword a = Some a).
  { intros o Ho a Ha. destruct (decide (keywordOrEmpty o = Keyword u)) as [He|Hn].
    - injection Ha as <-. apply lookup_insert_eq.
    - subst o. simpl in Hn. rewrite lookup_insert_ne by congruence. auto. }
  split; simpl; try assumption.
  - intros k p Hp. destruct (decide (Keyword u = k)) as [<-|Hk].
    + rewrite lookup_insert_eq in Hp. injection Hp as <-. auto.
    + rewrite lookup_insert_ne in Hp by exact Hk. eauto.
  - intros k. rewrite Hkws. destruct (decide (Keyword u = k)) as [<-|Hk].
    + rewrite lookup_insert_eq. split; eauto.
    + rewrite lookup_insert_ne by exact Hk. reflexivity.
  - apply Hkeep. exact Hact.
  - apply Hkeep. exact Hdef.
  - intros Hs.
    destruct (decide (keywordOrEmpty (activePlugin pm) = Keyword u)); [eauto|].
    apply Hfb.
    destruct (decide (keywordOrEmpty (defaultPlugin pm) = Keyword u)) as [He|];
      [|exact Hs].
    destruct (defaultPlugin pm); [eauto|]. simpl in He. congruence.
Qed.

Lemma GetResults_state query pm : snd (GetResults query pm) = pm.
Proof. unfold GetResults. destruct (GetCurrentPlugin pm); reflexivity. Qed.

Section Calls.
Context {sorter : SliceSorter}.

Lemma invariant_perform c pm :
  consistentCall c -> registryInvariant pm -> registryInvariant (perform c pm).
Proof.
  intros Hc Hinv. destruct c; simpl.
  - apply invariant_RegisterPlugin; assumption.
  - apply invariant_RegisterMetadata; assumption.
  - apply invariant_DetermineActivePlugin; assumption.
  - rewrite GetResults_state. assumption.
  - apply invariant_UpdatePluginInstance; assumption.
Qed.

Lemma invariant_performAll cs pm :
  Forall consistentCall cs -> registryInvariant pm ->
  registryInvariant (performAll cs pm).
Proof.
  revert pm. induction cs as [|c cs IH]; intros pm Hcs Hinv; simpl.
  - exact Hinv.
  - inversion Hcs; subst. apply IH; [assumption|].
    apply invariant_perform; assumption.
Qed.

Lemma invariant_reachable cs :
  Forall consistentCall cs ->
  registryInvariant (performAll cs NewPluginManager).
Proof. intros Hcs. apply invariant_performAll; [exact Hcs|apply invariant_new]. Qed.
End Calls.

(** ** Routing: the longest keyword that matches at a word boundary *)

Lemma get_in_range (s : string) (n : nat) (c : ascii) :
  String.get n s = Some c -> n < String.length s.
Proof.
  revert n. induction s as [|d s IH]; intros [|n] Hg; simpl in *;
    try discriminate; try lia.
  apply IH in Hg. lia.
Qed.

(** [matches] says what the specification says of a match. *)
Lemma matches_iff (t k : string) :
  matches t k = true <->
  HasPrefix t k = true /\
  (t = k \/ String.get (String.length k) t = Some " "%char).
Proof.
  unfold matches, atBoundary, byteAt.
  rewrite andb_true_iff, orb_true_iff, andb_true_iff, Nat.eqb_eq, Nat.ltb_lt.
  split; intros [Hp Hb]; (split; [exact Hp|]).
  - destruct Hb as [Hl|[Hl Hg]].
    + left. symmetry. apply prefix_same_length; [exact Hp|lia].
    + right. destruct (String.get _ t) as [b|]; [|discriminate].
      apply Ascii.eqb_eq in Hg. congruence.
  - destruct Hb as [->|Hg]; [left; reflexivity|].
    right. split; [eapply get_in_range; exact Hg|].
    rewrite Hg. apply Ascii.eqb_refl.
Qed.

Lemma sorted_after (l1 l2 : list string) (k k' : string) :
  StronglySorted (fun a b => longerThan b a = false) (l1 ++ k :: l2) ->
  k' ∈ l2 -> String.length k' <= String.length k.
Proof.
  intros Hs Hin. induction l1 as [|x l1 IH]; simpl in Hs.
  - apply StronglySorted_inv in Hs as [_ Hall].
    rewrite Forall_forall in Hall. apply longerThan_false. apply Hall. exact Hin.
  - apply StronglySorted_inv in Hs as [Hs _]. auto.
Qed.

(** The routing property on any registry that satisfies the invariant. *)
Lemma routing_longest (pm : PluginManager) (query : string) :
  registryInvariant pm ->
  let t := TrimSpace query in
  (forall k, is_Some (plugins pm !! k) -> matches t k = true ->
     exists p, determinedPlugin query pm = Some p /\
               plugins pm !! Keyword p = Some p /\
               matches t (Keyword p) = true /\
               String.length k <= String.length (Keyword p)) /\
  (forall p, determinedPlugin query pm = Some p ->
     matches t (Keyword p) = true \/
     (defaultPlugin pm = Some p /\
      forall k, is_Some (plugins pm !! k) -> matches t k = false)).
Proof.
  intros Hinv t. unfold determinedPlugin. fold t.
  destruct (scanKeywords (plugins pm) t (sortedKeywords pm)) as [p|] eqn:Hs.
  - apply scan_found in Hs as (l1 & k0 & l2 & Hsplit & Hl1 & Hk0 & Hm0 & Hp0).
    destruct (inv_keyed pm Hinv k0 p Hp0) as [Hkp _].
    split.
    + intros k Hreg Hm. exists p. rewrite Hkp.
      split; [reflexivity|]. split; [exact Hp0|]. split; [exact Hm0|].
      assert (Hin : k ∈ sortedKeywords pm) by (apply (inv_keywords pm Hinv); exact Hreg).
      rewrite Hsplit in Hin.
      apply elem_of_app in Hin as [Hin|Hin].
      * exfalso. rewrite Forall_forall in Hl1. apply (Hl1 k Hin).
        destruct Hreg as [q Hq].
        destruct (inv_keyed pm Hinv k q Hq) as [_ Hne].
        repeat split; eauto.
      * apply elem_of_cons in Hin as [->|Hin]; [lia|].
        apply (sorted_after l1 l2); [|exact Hin].
        rewrite <- Hsplit. apply (inv_sorted pm Hinv).
    + intros q Hq. injection Hq as <-. left. rewrite Hkp. exact Hm0.
  - apply scan_none in Hs. rewrite Forall_forall in Hs.
    assert (Hnone : forall k, is_Some (plugins pm !! k) -> matches t k = false).
    { intros k Hreg. destruct (matches t k) eqn:Hm; [|reflexivity].
      exfalso. apply (Hs k).
      - apply (inv_keywords pm Hinv). exact Hreg.
      - destruct Hreg as [q Hq].
        destruct (inv_keyed pm Hinv k q Hq) as [_ Hne].
        repeat split; eauto. }
    split.
    + intros k Hreg Hm. rewrite (Hnone k Hreg) in Hm. discriminate.
    + intros p Hp. right. split; [exact Hp|exact Hnone].
Qed.

(** C1. After any sequence of calls that registers consistent plugins,
    [DetermineActivePlugin] never selects a plugin whose keyword is a strict
    prefix of another registered keyword that matches the trimmed query; a
    keyword matches when the trimmed query starts with it and either equals it
    or continues with a space; whenever some registered keyword matches, the
    selected plugin is registered under a matching keyword at least as long
    as every other matching one; and a plugin is selected by a keyword that
    matches it or as the default. *)
Theorem DetermineActivePlugin_longest_match `{SliceSorter}
    (cs : list call) (query : string) :
  Forall consistentCall cs ->
  let pm := performAll cs NewPluginManager in
  let t := TrimSpace query in
  let chosen := fst (fst (DetermineActivePlugin query pm)) in
  (forall k, matches t k = true <->
     HasPrefix t k = true /\
     (t = k \/ String.get (String.length k) t = Some " "%char)) /\
  (forall p k', chosen = Some p -> is_Some (plugins pm !! k') ->
     strictPrefix (Keyword p) k' -> matches t k' = false) /\
  (forall k, is_Some (plugins pm !! k) -> matches t k = true ->
     exists p, chosen = Some p /\ plugins pm !! Keyword p = Some p /\
               matches t (Keyword p) = true /\
               String.length k <= String.length (Keyword p)) /\
  (forall p, chosen = Some p ->
     matches t (Keyword p) = true \/ defaultPlugin pm = Some p).
Proof.
  intros Hcs pm t chosen.
  pose proof (invariant_reachable cs Hcs) as Hinv. fold pm in Hinv.
  assert (Hchosen : chosen = determinedPlugin query pm).
  { unfold chosen. rewrite (DetermineActivePlugin_spec query pm Hinv).
    reflexivity. }
  destruct (routing_longest pm query Hinv) as [Hlong Hsel]. fold t in Hlong, Hsel.
  split; [intros k; apply matches_iff|].
  split; [|split].
  - intros p k' Hp Hreg Hstrict.
    apply strictPrefix_longer in Hstrict.
    destruct (matches t k') eqn:Hm; [|reflexivity]. exfalso.
    destruct (Hlong k' Hreg Hm) as (p' & Hp' & _ & _ & Hlen).
    rewrite Hchosen in Hp. rewrite Hp in Hp'. injection Hp' as <-. lia.
  - intros k Hreg Hm. rewrite Hchosen. apply Hlong; assumption.
  - intros p Hp. rewrite Hchosen in Hp.
    destruct (Hsel p Hp) as [Hm|[Hd _]]; auto.
Qed.

(** The registry with the launcher as default and the keywords ["!w"] and
    ["!wiki"]. *)
Example sampleCalls_consistent : Forall consistentCall sampleCalls.
Proof. repeat constructor. Qed.

(** With ["!w"] and ["!wiki"] registered, ["!wiki foo"] goes to ["!wiki"],
    ["!w foo"] to ["!w"], and ["!wik foo"] to the default. *)
Example route_wiki :
  let pm := performAll sampleCalls NewPluginManager in
  fst (fst (DetermineActivePlugin "!wiki foo" pm)) = Some wiki /\
  fst (fst (DetermineActivePlugin "!w foo" pm)) = Some wikipedia /\
  fst (fst (DetermineActivePlugin "!wik foo" pm)) = Some applauncher.
Proof. vm_compute. repeat split. Qed.

Lemma DetermineActivePlugin_longest_match_witness :
  Forall consistentCall sampleCalls /\
  forall p k',
    fst (fst (DetermineActivePlugin "!wiki foo"
                (performAll sampleCalls NewPluginManager))) = Some p ->
    is_Some (plugins (performAll sampleCalls NewPluginManager) !! k') ->
    strictPrefix (Keyword p) k' ->
    matches (TrimSpace "!wiki foo") k' = false.
Proof.
  split.
  - repeat constructor.
  - apply (DetermineActivePlugin_longest_match sampleCalls "!wiki foo").
    repeat constructor.
Defined.

(** ** Switching *)

Lemma same_keyword_same_plugin (pm : PluginManager) (o1 o2 : option Plugin) :
  registryInvariant pm ->
  (forall a, o1 = Some a -> plugins pm !! Keyword a = Some a) ->
  (forall a, o2 = Some a -> plugins pm !! Keyword a = Some a) ->
  keywordOrEmpty o1 = keywordOrEmpty o2 -> o1 = o2.
Proof.
  intros Hinv H1 H2 He.
  destruct o1 as [a|], o2 as [b|]; simpl in He; try reflexivity.
  - specialize (H1 a eq_refl). specialize (H2 b eq_refl).
    rewrite He in H1. congruence.
  - exfalso. apply (registered_keyword_nonempty pm a Hinv); auto.
  - exfalso. apply (registered_keyword_nonempty pm b Hinv); auto.
Qed.

Lemma determinedPlugin_set_activePlugin query o pm :
  determinedPlugin query (set_activePlugin o pm) = determinedPlugin query pm.
Proof. reflexivity. Qed.

(** Two prefixes of one string that have the same length are equal. *)
Lemma prefixes_same_length (a b t : string) :
  String.prefix a t = true -> String.prefix b t = true ->
  String.length a = String.length b -> a = b.
Proof.
  revert b t. induction a as [|c a IH]; intros [|d b] [|e t] Ha Hb Hl;
    simpl in *; try reflexivity; try discriminate.
  destruct (ascii_dec c e) as [->|]; [|discriminate].
  destruct (ascii_dec d e) as [->|]; [|discriminate].
  f_equal. apply (IH b t); [assumption|assumption|lia].
Qed.

(** On a registry that satisfies the invariant, the plugin that the scan
    of the keyword list determines is what the query resolves to. *)
Lemma resolvesTo_determined (pm : PluginManager) (query : string) :
  registryInvariant pm -> resolvesTo pm query (determinedPlugin query pm).
Proof.
  intros Hinv.
  destruct (routing_longest pm query Hinv) as [Hlong Hsel].
  destruct (determinedPlugin query pm) as [p|] eqn:Hp.
  - destruct (Hsel p eq_refl) as [Hm|[Hd Hnone]].
    + apply (resolvesToKeyword pm query (Keyword p) p).
      * apply (determined_registered query pm p Hinv Hp).
      * exact Hm.
      * intros k' Hreg Hk'.
        destruct (Hlong k' Hreg Hk') as (p' & Hp' & _ & _ & Hlen).
        injection Hp' as <-. exact Hlen.
    + rewrite <- Hd. apply resolvesToDefault. exact Hnone.
  - rewrite <- (determined_none query pm Hp). apply resolvesToDefault.
    intros k Hreg. destruct (matches (TrimSpace query) k) eqn:Hm; [|reflexivity].
    destruct (Hlong k Hreg Hm) as (p' & Hp' & _). discriminate.
Qed.

(** A query resolves to one plugin only. *)
Lemma resolvesTo_unique (pm : PluginManager) (query : string)
    (o1 o2 : option Plugin) :
  resolvesTo pm query o1 -> resolvesTo pm query o2 -> o1 = o2.
Proof.
  intros [k1 p1 Hp1 Hm1 Hl1|Hn1] [k2 p2 Hp2 Hm2 Hl2|Hn2].
  - assert (Hk : k1 = k2).
    { apply (prefixes_same_length k1 k2 (TrimSpace query)).
      - apply matches_iff in Hm1. apply Hm1.
      - apply matches_iff in Hm2. apply Hm2.
      - apply Nat.le_antisymm; [apply Hl2|apply Hl1]; eauto. }
    subst k2. congruence.
  - rewrite Hn2 in Hm1 by eauto. discriminate.
  - rewrite Hn1 in Hm2 by eauto. discriminate.
  - reflexivity.
Qed.

(** C4. After any sequence of calls that registers consistent plugins,
    the plugin that [DetermineActivePlugin] returns is what the query
    resolves to, and nothing else is: the plugin registered under the
    longest keyword that matches the trimmed query at a word boundary, the
    default plugin when no registered keyword matches.  It returns
    [switched = true] exactly when the keyword of that plugin differs from
    the keyword of the plugin that was active before (a missing plugin
    counts as the empty keyword).  The plugin it returns becomes the active
    one and nothing else changes; when [switched] is false the manager is
    unchanged; a second call with the same query returns the same plugin
    with [switched = false] and changes nothing. *)
Theorem DetermineActivePlugin_switched `{SliceSorter}
    (cs : list call) (query : string) :
  Forall consistentCall cs ->
  let pm := performAll cs NewPluginManager in
  let chosen := fst (fst (DetermineActivePlugin query pm)) in
  let switched := snd (fst (DetermineActivePlugin query pm)) in
  let pm' := snd (DetermineActivePlugin query pm) in
  resolvesTo pm query chosen /\
  (forall o, resolvesTo pm query o -> o = chosen) /\
  (switched = true <->
     keywordOrEmpty chosen <> keywordOrEmpty (activePlugin pm)) /\
  (switched = false -> pm' = pm) /\
  pm' = set_activePlugin chosen pm /\
  DetermineActivePlugin query pm' = ((chosen, false), pm').
Proof.
  intros Hcs pm chosen switched pm'.
  pose proof (invariant_reachable cs Hcs) as Hinv. fold pm in Hinv.
  pose proof (DetermineActivePlugin_spec query pm Hinv) as Hspec.
  pose proof (invariant_DetermineActivePlugin query pm Hinv) as Hinv'.
  pose proof (resolvesTo_determined pm query Hinv) as Hres.
  unfold chosen, switched, pm'. rewrite Hspec in *. simpl in *.
  split; [exact Hres|].
  split; [intros o Ho; exact (resolvesTo_unique pm query _ _ Ho Hres)|].
  split; [|split; [|split]].
  - rewrite negb_true_iff. split.
    + intros Hne Heq. apply String.eqb_neq in Hne. congruence.
    + intros Hne. apply String.eqb_neq. congruence.
  - rewrite negb_false_iff. intros Heq. apply String.eqb_eq in Heq.
    assert (Hsame : activePlugin pm = determinedPlugin query pm).
    { apply (same_keyword_same_plugin pm); [exact Hinv| | |exact Heq].
      - apply (inv_active pm Hinv).
      - intros a. apply determined_registered. exact Hinv. }
    rewrite <- Hsame. apply set_activePlugin_same.
  - reflexivity.
  - rewrite (DetermineActivePlugin_spec query _ Hinv').
    rewrite determinedPlugin_set_activePlugin. simpl.
    rewrite String.eqb_refl. simpl.
    destruct pm; reflexivity.
Qed.

(** The end-to-end run of the specification, read off the theorem: with
    ["!a"] as default and ["!w"] registered and the empty query routed
    twice, ["!w term"] resolves to the plugin of ["!w"] and switches. *)
Lemma DetermineActivePlugin_switched_witness :
  let cs := [callRegisterPlugin applauncher; callRegisterPlugin wikipedia;
             callDetermineActivePlugin ""; callDetermineActivePlugin ""] in
  let pm := performAll cs NewPluginManager in
  Forall consistentCall cs /\
  resolvesTo pm "!w term" (Some wikipedia) /\
  snd (fst (DetermineActivePlugin "!w term" pm)) = true.
Proof.
  intros cs pm.
  assert (Hcs : Forall consistentCall cs) by repeat constructor.
  destruct (DetermineActivePlugin_switched cs "!w term" Hcs)
    as (Hres & _ & Hsw & _).
  split; [exact Hcs|]. split; [exact Hres|].
  apply Hsw. vm_compute. discriminate.
Defined.

(** The end-to-end run of the specification: ["!a"] default and ["!w"];
    the empty query selects ["!a"], a second identical call does not switch;
    ["!w term"] switches and the plugin receives ["term"]. *)
Example end_to_end :
  let pm0 := performAll [callRegisterPlugin applauncher;
                         callRegisterPlugin wikipedia] NewPluginManager in
  let r1 := DetermineActivePlugin "" pm0 in
  let r2 := DetermineActivePlugin "" (snd r1) in
  let r3 := DetermineActivePlugin "!w term" (snd r2) in
  fst r1 = (Some applauncher, false) /\
  fst r2 = (Some applauncher, false) /\
  fst r3 = (Some wikipedia, true) /\
  fst (GetResults "!w term" (snd r3)) = ([mkResult "term" "" "term"], None).
Proof. vm_compute. repeat split. Qed.

(** ** Registration *)

(** C5. [RegisterPlugin] returns an error when the keyword of the plugin is
    empty or already registered, and then leaves the manager as it was; so
    after a successful registration a second one with the same keyword fails,
    the registered instance stays in place and no part of the state
    changes. *)
Theorem RegisterPlugin_rejects `{SliceSorter} (p : Plugin) (pm : PluginManager) :
  (Meta.Keyword (Metadata p) = "" \/
   is_Some (plugins pm !! Meta.Keyword (Metadata p)) ->
   exists e, RegisterPlugin p pm = (Some e, pm)) /\
  (forall pm1 p2,
     RegisterPlugin p pm = (None, pm1) ->
     Meta.Keyword (Metadata p2) = Meta.Keyword (Metadata p) ->
     plugins pm1 !! Meta.Keyword (Metadata p) = Some p /\
     exists e, RegisterPlugin p2 pm1 = (Some e, pm1)).
Proof.
  split; [apply RegisterPlugin_refuses|].
  intros pm1 p2 Hok Hsame.
  destruct (RegisterPlugin_cases p pm) as [[e He]|(Hne & Hfree & _)];
    [congruence|].
  rewrite (RegisterPlugin_accepts p pm Hne Hfree) in Hok.
  injection Hok as <-. simpl.
  assert (Hreg : <[Meta.Keyword (Metadata p):=p]> (plugins pm)
                   !! Meta.Keyword (Metadata p) = Some p)
    by apply lookup_insert_eq.
  split; [exact Hreg|].
  apply RegisterPlugin_refuses. right. rewrite Hsame. simpl.
  rewrite Hreg. eauto.
Qed.

Lemma RegisterPlugin_rejects_witness :
  RegisterPlugin wikipedia NewPluginManager
    = (None, snd (RegisterPlugin wikipedia NewPluginManager)) /\
  exists e,
    RegisterPlugin wikipedia (snd (RegisterPlugin wikipedia NewPluginManager))
      = (Some e, snd (RegisterPlugin wikipedia NewPluginManager)).
Proof.
  split; [reflexivity|].
  apply (proj2 (RegisterPlugin_rejects wikipedia NewPluginManager)
               (snd (RegisterPlugin wikipedia NewPluginManager)) wikipedia);
    reflexivity.
Defined.

(** ** The active plugin is set once a default is registered *)

Section Fallback.
Context {sorter : SliceSorter}.

Lemma bothSet_perform c pm : bothSet pm -> bothSet (perform c pm).
Proof.
  intros [[d Hd] [a Ha]]. destruct c as [p|metadata|query|query|u]; simpl.
  - destruct (RegisterPlugin_cases p pm) as [[e He]|(Hne & Hfree & _)].
    + rewrite He. split; eauto.
    + rewrite (RegisterPlugin_accepts p pm Hne Hfree). split; simpl.
      * destruct (Meta.IsDefault _); eauto.
      * rewrite Ha. destruct (Meta.IsDefault _); eauto.
  - unfold RegisterMetadata. destruct (decide _); [split; eauto|].
    destruct (plugins pm !! _); split; simpl; eauto.
  - unfold DetermineActivePlugin.
    assert (Hdet : is_Some (determinedPlugin query pm)).
    { unfold determinedPlugin. destruct (scanKeywords _ _ _); eauto. }
    destruct Hdet as [x Hx]. rewrite Hx.
    destruct (negb _); unfold_setters; [|rewrite Ha; simpl; split; eauto].
    split; simpl; eauto.
  - rewrite GetResults_state. split; eauto.
  - destruct (UpdatePluginInstance_cases u pm) as [->|(v & -> & Hne & Hreg)];
      [split; eauto|].
    rewrite (UpdatePluginInstance_registered v pm Hne Hreg). split; simpl.
    + destruct (decide _); eauto.
    + destruct (decide _); eauto.
Qed.

Lemma bothSet_performAll cs pm : bothSet pm -> bothSet (performAll cs pm).
Proof.
  revert pm. induction cs as [|c cs IH]; intros pm Hb; simpl; [exact Hb|].
  apply IH. apply bothSet_perform. exact Hb.
Qed.
End Fallback.

(** C6, as the code has it.  Once a plugin with [IsDefault] is registered,
    after any further sequence of calls the default and the active reference
    are both set and [GetCurrentPlugin] returns a plugin; on any manager,
    [GetCurrentPlugin] returns the default plugin when no plugin is
    active. *)
Theorem GetCurrentPlugin_set_after_default `{SliceSorter}
    (cs1 cs2 : list call) (p : Plugin) :
  Meta.IsDefault (Metadata p) = true ->
  fst (RegisterPlugin p (performAll cs1 NewPluginManager)) = None ->
  let pm := performAll cs2
              (snd (RegisterPlugin p (performAll cs1 NewPluginManager))) in
  is_Some (defaultPlugin pm) /\ is_Some (activePlugin pm) /\
  is_Some (GetCurrentPlugin pm) /\
  (forall pm', activePlugin pm' = None ->
               GetCurrentPlugin pm' = defaultPlugin pm').
Proof.
  intros Hdef Hok pm.
  assert (Hb : bothSet pm).
  { apply bothSet_performAll.
    destruct (RegisterPlugin_cases p (performAll cs1 NewPluginManager))
      as [[e He]|(Hne & Hfree & _)].
    - rewrite He in Hok. discriminate.
    - rewrite (RegisterPlugin_accepts p _ Hne Hfree). rewrite Hdef.
      split; simpl; [eauto|]. destruct (activePlugin _); eauto. }
  destruct Hb as [Hd [a Ha]].
  split; [exact Hd|]. split; [eauto|]. split.
  - unfold GetCurrentPlugin. rewrite Ha. eauto.
  - intros pm' Hnone. unfold GetCurrentPlugin. rewrite Hnone. reflexivity.
Qed.

Lemma GetCurrentPlugin_set_after_default_witness :
  is_Some (GetCurrentPlugin
    (performAll [callDetermineActivePlugin "= 1"; callDetermineActivePlugin "x"]
       (snd (RegisterPlugin applauncher
               (performAll [callRegisterPlugin calculator] NewPluginManager))))).
Proof.
  apply (GetCurrentPlugin_set_after_default
           [callRegisterPlugin calculator]
           [callDetermineActivePlugin "= 1"; callDetermineActivePlugin "x"]
           applauncher); reflexivity.
Defined.

(** C6, as stated, fails: with only the calculator registered, which is not
    a default plugin, no plugin is current, before and after routing. *)
Lemma registered_without_default_unset :
  let r := RegisterPlugin calculator NewPluginManager in
  fst r = None /\
  plugins (snd r) !! "=" = Some calculator /\
  GetCurrentPlugin (snd r) = None /\
  GetCurrentPlugin
    (performAll [callDetermineActivePlugin "= 1";
                 callDetermineActivePlugin "firefox"] (snd r)) = None.
Proof. vm_compute. repeat split. Qed.

(** ** Handing an instance back *)

(** C8. For an instance whose keyword is registered, [UpdatePluginInstance]
    replaces the map entry of that keyword, replaces the active and the
    default reference exactly when their keyword is that keyword, and leaves
    every other map entry, the keyword list and the disabled metadata as they
    were; for a nil instance, an empty keyword or a keyword that is not
    registered it leaves the manager unchanged. *)
Theorem UpdatePluginInstance_frame (pm : PluginManager) :
  (forall updated,
     Keyword updated <> "" -> is_Some (plugins pm !! Keyword updated) ->
     let pm' := UpdatePluginInstance (Some updated) pm in
     plugins pm' = <[Keyword updated := updated]> (plugins pm) /\
     plugins pm' !! Keyword updated = Some updated /\
     (forall k, k <> Keyword updated -> plugins pm' !! k = plugins pm !! k) /\
     activePlugin pm' =
       (if decide (keywordOrEmpty (activePlugin pm) = Keyword updated)
        then Some updated else activePlugin pm) /\
     defaultPlugin pm' =
       (if decide (keywordOrEmpty (defaultPlugin pm) = Keyword updated)
        then Some updated else defaultPlugin pm) /\
     sortedKeywords pm' = sortedKeywords pm /\
     disabledPluginsMetadata pm' = disabledPluginsMetadata pm) /\
  (forall updatedPlugin,
     updatedPlugin = None \/
     keywordOrEmpty updatedPlugin = "" \/
     plugins pm !! keywordOrEmpty updatedPlugin = None ->
     UpdatePluginInstance updatedPlugin pm = pm).
Proof.
  split.
  - intros updated Hne Hreg pm'. unfold pm'.
    rewrite (UpdatePluginInstance_registered updated pm Hne Hreg). simpl.
    split; [reflexivity|]. split; [apply lookup_insert_eq|].
    split; [|auto].
    intros k Hk. apply lookup_insert_ne. congruence.
  - intros updatedPlugin. apply UpdatePluginInstance_ignored.
Qed.

Lemma UpdatePluginInstance_frame_witness :
  plugins (UpdatePluginInstance (Some wikipedia)
             (performAll sampleCalls NewPluginManager)) !! "!wiki"
    = plugins (performAll sampleCalls NewPluginManager) !! "!wiki" /\
  UpdatePluginInstance (Some hello) (performAll sampleCalls NewPluginManager)
    = performAll sampleCalls NewPluginManager.
Proof.
  split.
  - apply (proj1 (UpdatePluginInstance_frame
                    (performAll sampleCalls NewPluginManager)) wikipedia).
    + discriminate.
    + vm_compute. eauto.
    + discriminate.
  - apply (proj2 (UpdatePluginInstance_frame
                    (performAll sampleCalls NewPluginManager)) (Some hello)).
    right; right. vm_compute. reflexivity.
Defined.

(** ** Results *)

(** C10. With no active and no default plugin, [GetResults] returns no
    results and the error, and the manager is unchanged. *)
Theorem GetResults_no_plugin (query : string) (pm : PluginManager) :
  activePlugin pm = None -> defaultPlugin pm = None ->
  GetResults query pm = (([], Some errNoActivePlugin), pm).
Proof.
  intros Ha Hd. unfold GetResults, GetCurrentPlugin. rewrite Ha, Hd.
  reflexivity.
Qed.

Lemma GetResults_no_plugin_witness :
  GetResults "firefox" (snd (RegisterPlugin calculator NewPluginManager))
    = (([], Some errNoActivePlugin),
       snd (RegisterPlugin calculator NewPluginManager)).
Proof.
  apply (GetResults_no_plugin "firefox"
           (snd (RegisterPlugin calculator NewPluginManager)));
    reflexivity.
Defined.

(** The query handed to a plugin that is not the default one, on a query
    that matches its keyword. *)
Lemma pluginQuery_matching (active : Plugin) (query : string) :
  Meta.IsDefault (Metadata active) = false -> Keyword active <> "" ->
  matches (TrimSpace query) (Keyword active) = true ->
  pluginQuery active query =
    TrimSpace (sliceFrom (String.length (Keyword active) + 1) (TrimSpace query)).
Proof.
  intros Hnd Hne Hm. unfold pluginQuery.
  unfold matches in Hm. apply andb_true_iff in Hm as [Hp Hb].
  rewrite Hnd, (eqb_empty_false _ Hne), Hp. simpl.
  unfold atBoundary in Hb.
  destruct (Nat.ltb (String.length (Keyword active))
                    (String.length (TrimSpace query))
            && byteAt (TrimSpace query) (String.length (Keyword active)) " ")
    eqn:Hsp; [reflexivity|].
  rewrite orb_false_r in Hb. rewrite Hb.
  apply Nat.eqb_eq in Hb.
  assert (Hshort : forall n s, String.length s <= n -> sliceFrom n s = "").
  { induction n as [|n IH]; intros [|c s] Hl; simpl in *;
      try reflexivity; try lia. apply IH. lia. }
  rewrite Hshort by lia. reflexivity.
Qed.

Lemma pluginQuery_default (active : Plugin) (query : string) :
  Meta.IsDefault (Metadata active) = true -> pluginQuery active query = query.
Proof. intros Hd. unfold pluginQuery. rewrite Hd. reflexivity. Qed.

(** C2, as the code has it.  For a current plugin that is not the default,
    with a keyword that is not empty and matches the trimmed query,
    [GetResults] hands the plugin the rest of the trimmed query after the
    keyword and one space, trimmed again; for a current plugin that is the
    default, it hands over the query as received, not trimmed.  The manager
    is unchanged. *)
Theorem GetResults_effective_query (pm : PluginManager) (active : Plugin)
    (query : string) :
  GetCurrentPlugin pm = Some active ->
  (Meta.IsDefault (Metadata active) = false -> Keyword active <> "" ->
   matches (TrimSpace query) (Keyword active) = true ->
   GetResults query pm =
     (plugin.GetResults active
        (TrimSpace (sliceFrom (String.length (Keyword active) + 1)
                              (TrimSpace query))), pm)) /\
  (Meta.IsDefault (Metadata active) = true ->
   GetResults query pm = (plugin.GetResults active query, pm)).
Proof.
  intros Hcur. unfold GetResults. rewrite Hcur. split.
  - intros Hnd Hne Hm. rewrite pluginQuery_matching by assumption. reflexivity.
  - intros Hd. rewrite pluginQuery_default by assumption. reflexivity.
Qed.

(** The examples of the specification. *)
Example effective_query_examples :
  let pm := snd (DetermineActivePlugin "!w"
                   (performAll sampleCalls NewPluginManager)) in
  fst (GetResults "!w life on mars" pm)
    = ([mkResult "life on mars" "" "life on mars"], None) /\
  fst (GetResults "!w" pm) = ([mkResult "" "" ""], None).
Proof. vm_compute. repeat split. Qed.

Lemma GetResults_effective_query_witness :
  let pm := snd (DetermineActivePlugin "!w"
                   (performAll sampleCalls NewPluginManager)) in
  GetResults " !w  life on mars " pm
    = (plugin.GetResults wikipedia "life on mars", pm).
Proof.
  intros pm.
  apply (proj1 (GetResults_effective_query pm wikipedia " !w  life on mars "
                  eq_refl)); [reflexivity|discriminate|reflexivity].
Defined.

(** C2, as stated, fails twice: after the keyword and one space the code
    trims the rest, so a second space does not reach the plugin; and the
    default plugin receives the query as typed, with its outer spaces. *)
Lemma effective_query_not_as_stated :
  let pmW := snd (DetermineActivePlugin "!w"
                    (performAll sampleCalls NewPluginManager)) in
  let pmA := performAll sampleCalls NewPluginManager in
  GetCurrentPlugin pmW = Some wikipedia /\
  matches (TrimSpace "!w  mars") "!w" = true /\
  strippedQuery "!w" "!w  mars" = " mars" /\
  fst (GetResults "!w  mars" pmW) = plugin.GetResults wikipedia "mars" /\
  fst (GetResults "!w  mars" pmW)
    <> plugin.GetResults wikipedia (strippedQuery "!w" "!w  mars") /\
  GetCurrentPlugin pmA = Some applauncher /\
  fst (GetResults " firefox " pmA) = plugin.GetResults applauncher " firefox " /\
  fst (GetResults " firefox " pmA)
    <> plugin.GetResults applauncher (TrimSpace " firefox ").
Proof. vm_compute. repeat split; discriminate. Qed.

(** ** The loader *)

(** One turn of the loop on a malformed file is a [continue]. *)
Lemma loadFiles_malformed (bad : yaegi.DirEntry) (rest : list yaegi.DirEntry)
    (loaded : list Instance) :
  malformed bad ->
  yaegi.loadFiles (bad :: rest) loaded = yaegi.loadFiles rest loaded.
Proof.
  intros Hbad. simpl.
  destruct (yaegi.IsDir bad || negb (yaegi.HasSuffix (yaegi.Name bad) ".go"));
    [reflexivity|].
  destruct (yaegi.useStdlib bad); [reflexivity|].
  destruct (yaegi.useSymbols bad); [reflexivity|].
  destruct Hbad as [Hr|src e Hr He|src Hr Hn|src Hr Hn|src Hr Hn];
    rewrite Hr; try reflexivity;
    destruct (yaegi.evalSource src); try reflexivity; try discriminate;
    rewrite Hn; reflexivity.
Qed.

(** One turn of the loop on a file that reaches its constructor. *)
Lemma loadFiles_constructor (file : yaegi.DirEntry) (body : yaegi.construction)
    (rest : list yaegi.DirEntry) (loaded : list Instance) :
  reachesConstructor file body ->
  yaegi.loadFiles (file :: rest) loaded =
    match body with
    | yaegi.constructs (Some p) =>
        if panicsAt p loadedMetadata then yaegi.panicked
        else if panicsAt p loadedName then yaegi.panicked
        else if panicsAt p loadedKeyword then yaegi.panicked
        else yaegi.loadFiles rest (loaded ++ [p])
    | yaegi.constructs None => yaegi.loadFiles rest loaded
    | yaegi.constructorPanics => yaegi.panicked
    end.
Proof.
  intros (Hd & Hs & Hu1 & Hu2 & src & Hr & He & Hn). simpl.
  rewrite Hd, Hs, Hu1, Hu2, Hr, He, Hn. simpl.
  destruct body as [[p|]|]; reflexivity.
Qed.

(** The three calls of the loader on an instance return or one panics. *)
Lemma answersLoader_cases (p : Instance) :
  answersLoader p \/ ~ answersLoader p.
Proof.
  unfold answersLoader.
  destruct (panicsAt p loadedMetadata), (panicsAt p loadedName),
    (panicsAt p loadedKeyword); intuition discriminate.
Qed.

(** One turn of the loop on a valid file adds its instance. *)
Lemma loadFiles_yields (file : yaegi.DirEntry) (p : Instance)
    (rest : list yaegi.DirEntry) (loaded : list Instance) :
  yields file p ->
  yaegi.loadFiles (file :: rest) loaded = yaegi.loadFiles rest (loaded ++ [p]).
Proof.
  intros [Hreach (Hm & Hn & Hk)].
  rewrite (loadFiles_constructor file _ rest loaded Hreach), Hm, Hn, Hk.
  reflexivity.
Qed.

(** One turn of the loop on a file whose code panics is the end. *)
Lemma loadFiles_panics (file : yaegi.DirEntry)
    (rest : list yaegi.DirEntry) (loaded : list Instance) :
  panicsOnLoad file -> yaegi.loadFiles (file :: rest) loaded = yaegi.panicked.
Proof.
  intros [Hreach|(p & Hreach & Hno)];
    rewrite (loadFiles_constructor file _ rest loaded Hreach);
    [reflexivity|].
  unfold answersLoader in Hno.
  destruct (panicsAt p loadedMetadata); [reflexivity|].
  destruct (panicsAt p loadedName); [reflexivity|].
  destruct (panicsAt p loadedKeyword); [reflexivity|].
  exfalso. apply Hno. auto.
Qed.

(** A file yields at most one instance. *)
Lemma yields_unique (file : yaegi.DirEntry) (p q : Instance) :
  yields file p -> yields file q -> p = q.
Proof.
  intros [(_ & _ & _ & _ & s1 & R1 & _ & N1) _]
         [(_ & _ & _ & _ & s2 & R2 & _ & N2) _].
  rewrite R1 in R2. injection R2 as <-. rewrite N1 in N2.
  injection N2 as <-. reflexivity.
Qed.

(** Every file is skipped, adds an instance, or panics. *)
Lemma loadFiles_step (file : yaegi.DirEntry) (rest : list yaegi.DirEntry)
    (loaded : list Instance) :
  (yaegi.loadFiles (file :: rest) loaded = yaegi.loadFiles rest loaded /\
   forall p, ~ yields file p) \/
  (exists p, yields file p /\
     yaegi.loadFiles (file :: rest) loaded = yaegi.loadFiles rest (loaded ++ [p])) \/
  panicsOnLoad file.
Proof.
  assert (Hskip : forall body,
    (forall src, yaegi.ReadFile file = Some src ->
                 yaegi.evalSource src = None ->
                 yaegi.evalMainNew src <> Some (yaegi.funcNew body)) ->
    ~ reachesConstructor file body).
  { intros body Hno (_ & _ & _ & _ & src & Hr & He & Hn).
    exact (Hno src Hr He Hn). }
  destruct (yaegi.IsDir file) eqn:Hd.
  { left. split; [simpl; rewrite Hd; reflexivity|].
    intros p [(H1 & _) _]. congruence. }
  destruct (yaegi.HasSuffix (yaegi.Name file) ".go") eqn:Hs.
  2:{ left. split; [simpl; rewrite Hd, Hs; reflexivity|].
      intros p [(_ & H1 & _) _]. congruence. }
  destruct (yaegi.useStdlib file) eqn:Hu1.
  { left. split; [simpl; rewrite Hd, Hs, Hu1; reflexivity|].
    intros p [(_ & _ & H1 & _) _]. congruence. }
  destruct (yaegi.useSymbols file) eqn:Hu2.
  { left. split; [simpl; rewrite Hd, Hs, Hu1, Hu2; reflexivity|].
    intros p [(_ & _ & _ & H1 & _) _]. congruence. }
  destruct (yaegi.ReadFile file) as [src|] eqn:Hr.
  2:{ left. split; [simpl; rewrite Hd, Hs, Hu1, Hu2, Hr; reflexivity|].
      intros p [(_ & _ & _ & _ & s & H1 & _) _]. congruence. }
  destruct (yaegi.evalSource src) eqn:He.
  { left. split; [simpl; rewrite Hd, Hs, Hu1, Hu2, Hr, He; reflexivity|].
    intros p [(_ & _ & _ & _ & s & H1 & H2 & _) _]. congruence. }
  destruct (yaegi.evalMainNew src) as [[[[p|]|]|]|] eqn:Hn.
  - assert (Hreach : reachesConstructor file (yaegi.constructs (Some p))).
    { repeat split; try assumption. exists src. auto. }
    destruct (answersLoader_cases p) as [Hans|Hno].
    + right; left. exists p. split; [split; assumption|].
      apply loadFiles_yields. split; assumption.
    + right; right. right. exists p. split; assumption.
  - left. split; [simpl; rewrite Hd, Hs, Hu1, Hu2, Hr, He, Hn; reflexivity|].
    intros p [(_ & _ & _ & _ & s & H1 & _ & H3) _]. congruence.
  - right; right. left. repeat split; try assumption. exists src. auto.
  - left. split; [simpl; rewrite Hd, Hs, Hu1, Hu2, Hr, He, Hn; reflexivity|].
    intros p [(_ & _ & _ & _ & s & H1 & _ & H3) _]. congruence.
  - left. split; [simpl; rewrite Hd, Hs, Hu1, Hu2, Hr, He, Hn; reflexivity|].
    intros p [(_ & _ & _ & _ & s & H1 & _ & H3) _]. congruence.
Qed.

(** What one turn does depends on the file alone. *)
Lemma loadFiles_turn (file : yaegi.DirEntry) :
  (forall rest loaded,
     yaegi.loadFiles (file :: rest) loaded = yaegi.loadFiles rest loaded) \/
  (exists p, forall rest loaded,
     yaegi.loadFiles (file :: rest) loaded
       = yaegi.loadFiles rest (loaded ++ [p])) \/
  (forall rest loaded, yaegi.loadFiles (file :: rest) loaded = yaegi.panicked).
Proof.
  simpl.
  destruct (yaegi.IsDir file || negb (yaegi.HasSuffix (yaegi.Name file) ".go"));
    [left; reflexivity|].
  destruct (yaegi.useStdlib file); [left; reflexivity|].
  destruct (yaegi.useSymbols file); [left; reflexivity|].
  destruct (yaegi.ReadFile file) as [src|]; [|left; reflexivity].
  destruct (yaegi.evalSource src); [left; reflexivity|].
  destruct (yaegi.evalMainNew src) as [[[[p|]|]|]|];
    [ | left; reflexivity
    | right; right; reflexivity | left; reflexivity | left; reflexivity].
  destruct (panicsAt p loadedMetadata); [right; right; reflexivity|].
  destruct (panicsAt p loadedName); [right; right; reflexivity|].
  destruct (panicsAt p loadedKeyword); [right; right; reflexivity|].
  right; left. exists p. reflexivity.
Qed.

Lemma loadFiles_remove_malformed (before after : list yaegi.DirEntry)
    (bad : yaegi.DirEntry) (loaded : list Instance) :
  malformed bad ->
  yaegi.loadFiles (before ++ bad :: after) loaded =
  yaegi.loadFiles (before ++ after) loaded.
Proof.
  intros Hbad. revert loaded.
  induction before as [|f before IH]; intros loaded.
  - apply loadFiles_malformed. exact Hbad.
  - rewrite <- !app_comm_cons.
    destruct (loadFiles_turn f) as [E|[[p E]|E]]; rewrite !E;
      [apply IH | apply IH | reflexivity].
Qed.

Lemma loadFiles_no_panic (files : list yaegi.DirEntry)
    (loaded : list Instance) :
  (forall f, f ∈ files -> ~ panicsOnLoad f) ->
  exists ps,
    yaegi.loadFiles files loaded = yaegi.returned (loaded ++ ps) None /\
    (forall f p, f ∈ files -> yields f p -> p ∈ ps) /\
    (forall p, p ∈ ps -> exists f, f ∈ files /\ yields f p).
Proof.
  revert loaded. induction files as [|f files IH]; intros loaded Hnp.
  - exists []. rewrite app_nil_r. split; [reflexivity|]. split.
    + intros f p Hin. inversion Hin.
    + intros p Hin. inversion Hin.
  - assert (Hrest : forall g, g ∈ files -> ~ panicsOnLoad g).
    { intros g Hg. apply Hnp. right. exact Hg. }
    destruct (loadFiles_step f files loaded) as [[E Hn]|[(p & Hy & E)|Hp]].
    + destruct (IH loaded Hrest) as (ps & Hps & Hall & Hfrom).
      exists ps. rewrite E. split; [exact Hps|]. split.
      * intros g q Hin Hq. apply elem_of_cons in Hin as [->|Hin].
        -- exfalso. apply (Hn q Hq).
        -- eapply Hall; eassumption.
      * intros q Hq. destruct (Hfrom q Hq) as (g & Hg & Hyg).
        exists g. split; [right; exact Hg|exact Hyg].
    + destruct (IH (loaded ++ [p])%list Hrest) as (ps & Hps & Hall & Hfrom).
      exists (p :: ps). rewrite E, Hps.
      split; [rewrite <- app_assoc; reflexivity|]. split.
      * intros g q Hin Hq. apply elem_of_cons in Hin as [->|Hin].
        -- rewrite (yields_unique f q p Hq Hy). left.
        -- right. eapply Hall; eassumption.
      * intros q Hq. apply elem_of_cons in Hq as [->|Hq].
        -- exists f. split; [left|exact Hy].
        -- destruct (Hfrom q Hq) as (g & Hg & Hyg).
           exists g. split; [right; exact Hg|exact Hyg].
    + exfalso. apply (Hnp f); [left|exact Hp].
Qed.

(** C7, as the code has it.  When the configuration home or the plugin
    directory does not exist, [LoadPlugins] returns no plugin and no error;
    when the directory cannot be listed or the working directory cannot be
    determined, it returns no plugin and the error.  A file that cannot be
    read, fails to evaluate, lacks [main.New], has a [main.New] of another
    type or a constructor returning nil is skipped: the load ends as it
    would without the file, and a valid file after it still yields its
    plugin.  When the directory can be listed, the working directory is
    known and no code of a file panics, neither a constructor nor a call of
    [Metadata()], [Name()] or [Keyword()] on a fresh instance,
    [LoadPlugins] returns without error, with the plugin of every valid
    file and no other.  Such a panic is not caught: it ends the load at
    that file, whatever comes after it. *)
Theorem LoadPlugins_skips_malformed :
  (forall fs,
     yaegi.configHomeNotExist fs = true \/ yaegi.pluginDirNotExist fs = true ->
     yaegi.LoadPlugins fs = yaegi.returned [] None) /\
  (forall fs,
     yaegi.configHomeNotExist fs = false ->
     yaegi.pluginDirNotExist fs = false ->
     (forall e, yaegi.ReadDir fs = inl e ->
        yaegi.LoadPlugins fs
          = yaegi.returned [] (Some (errReadDir yaegi.PluginDirName))) /\
     (forall files, yaegi.ReadDir fs = inr files -> yaegi.Getwd fs = None ->
        yaegi.LoadPlugins fs = yaegi.returned [] (Some errGetwd))) /\
  (forall before bad after loaded,
     malformed bad ->
     yaegi.loadFiles (before ++ bad :: after) loaded =
     yaegi.loadFiles (before ++ after) loaded) /\
  (forall bad good p after loaded,
     malformed bad -> yields good p ->
     yaegi.loadFiles (bad :: good :: after) loaded =
     yaegi.loadFiles after (loaded ++ [p])) /\
  (forall fs files wd,
     yaegi.configHomeNotExist fs = false ->
     yaegi.pluginDirNotExist fs = false ->
     yaegi.ReadDir fs = inr files -> yaegi.Getwd fs = Some wd ->
     (forall f, f ∈ files -> ~ panicsOnLoad f) ->
     exists ps,
       yaegi.LoadPlugins fs = yaegi.returned ps None /\
       (forall f p, f ∈ files -> yields f p -> p ∈ ps) /\
       (forall p, p ∈ ps -> exists f, f ∈ files /\ yields f p)) /\
  (forall file rest loaded,
     panicsOnLoad file ->
     yaegi.loadFiles (file :: rest) loaded = yaegi.panicked).
Proof.
  split; [|split; [|split; [|split; [|split]]]];
    [| | | | |exact loadFiles_panics].
  - intros fs [Hc|Hp]; unfold yaegi.LoadPlugins.
    + rewrite Hc. reflexivity.
    + rewrite Hp. destruct (yaegi.configHomeNotExist fs); reflexivity.
  - intros fs Hc Hp. unfold yaegi.LoadPlugins. rewrite Hc, Hp. split.
    + intros e He. rewrite He. reflexivity.
    + intros files Hr Hw. rewrite Hr, Hw. reflexivity.
  - intros. apply loadFiles_remove_malformed. assumption.
  - intros bad good p after loaded Hbad Hgood.
    rewrite (loadFiles_malformed bad _ _ Hbad).
    apply (loadFiles_yields good p after loaded Hgood).
  - intros fs files wd Hc Hp Hr Hw Hnp. unfold yaegi.LoadPlugins.
    rewrite Hc, Hp, Hr, Hw.
    destruct (loadFiles_no_panic files [] Hnp) as (ps & Hps & Hall & Hfrom).
    exists ps. split; [exact Hps|]. split; [exact Hall|exact Hfrom].
Qed.

Lemma LoadPlugins_skips_malformed_witness :
  yaegi.loadFiles [throwingFile; helloFile] []
    = yaegi.loadFiles [] [returning hello] /\
  yaegi.LoadPlugins (yaegi.mkFileSystem false true (inl errGetwd) None)
    = yaegi.returned [] None.
Proof.
  split.
  - apply (proj1 (proj2 (proj2 (proj2 LoadPlugins_skips_malformed)))
             throwingFile helloFile (returning hello) [] []).
    + apply (evaluationFails throwingFile
               (yaegi.mkSource (Some (errPlugin "panic during evaluation")) None)
               (errPlugin "panic during evaluation")); reflexivity.
    + split; [|repeat split]. repeat split. eexists. repeat split.
  - apply (proj1 LoadPlugins_skips_malformed). right. reflexivity.
Defined.

(** Loader isolation on an example: a file that throws during its
    evaluation, then a valid one. *)
Example loader_isolation :
  yaegi.LoadPlugins (pluginDir [throwingFile; helloFile])
    = yaegi.returned [returning hello] None.
Proof. reflexivity. Qed.

(** C7, as stated, fails for a panicking constructor, and as well for an
    instance that panics in the [Metadata()] the loader calls on it: the
    panic leaves [LoadPlugins], and the valid file after it is never
    loaded. *)
Lemma LoadPlugins_constructor_panic :
  panicsOnLoad panickingFile /\
  panicsOnLoad sulkingFile /\
  yields helloFile (returning hello) /\
  yaegi.LoadPlugins (pluginDir [helloFile])
    = yaegi.returned [returning hello] None /\
  yaegi.LoadPlugins (pluginDir [panickingFile; helloFile]) = yaegi.panicked /\
  yaegi.LoadPlugins (pluginDir [sulkingFile; helloFile]) = yaegi.panicked.
Proof.
  split; [|split; [|split; [|split; [|split]]]]; try reflexivity.
  - left. repeat split. eexists. repeat split.
  - right. exists sulking. split.
    + repeat split. eexists. repeat split.
    + intros (Hm & _). discriminate.
  - split; [|repeat split]. repeat split. eexists. repeat split.
Qed.

(** ** Start-up: plugins that are not enabled *)

Lemma RegisterMetadata_plugins metadata pm :
  plugins (snd (RegisterMetadata metadata pm)) = plugins pm.
Proof.
  unfold RegisterMetadata. destruct (decide _); [reflexivity|].
  destruct (plugins pm !! _); reflexivity.
Qed.

Lemma RegisterMetadata_disabled metadata pm :
  disabledPluginsMetadata (snd (RegisterMetadata metadata pm)) =
    if decide (Meta.Keyword metadata = "") then disabledPluginsMetadata pm
    else match plugins pm !! Meta.Keyword metadata with
         | Some _ => disabledPluginsMetadata pm
         | None => <[Meta.Keyword metadata := metadata]>
                     (disabledPluginsMetadata pm)
         end.
Proof.
  unfold RegisterMetadata. destruct (decide _); [reflexivity|].
  destruct (plugins pm !! _); reflexivity.
Qed.

Section Startup.
Context {sorter : SliceSorter}.

Lemma registerEach_cons p rest enabled pm :
  main.registerEach (p :: rest) enabled pm =
    if panicsAt p registeredMetadata then main.crashed
    else if main.shouldRegister (Metadata (asPlugin p)) enabled then
      match RegisterPlugin (asPlugin p) pm with
      | (Some e, _) =>
          if panicsAt p registeredName then main.crashed
          else main.fatal (plugin.Name (asPlugin p)) e
      | (None, pm1) => main.registerEach rest enabled pm1
      end
    else if negb (Meta.IsMandatory (Metadata (asPlugin p))) then
      main.registerEach rest enabled
        (snd (RegisterMetadata (Metadata (asPlugin p)) pm))
    else main.registerEach rest enabled pm.
Proof. reflexivity. Qed.

(** One turn of a start-up that returns: [Metadata()] returned, and a
    plugin that registers was accepted. *)
Lemma registerEach_started p rest enabled pm pm' :
  main.registerEach (p :: rest) enabled pm = main.started pm' ->
  panicsAt p registeredMetadata = false /\
  if main.shouldRegister (Metadata (asPlugin p)) enabled then
    exists pm1, RegisterPlugin (asPlugin p) pm = (None, pm1) /\
                main.registerEach rest enabled pm1 = main.started pm'
  else
    main.registerEach rest enabled
      (if negb (Meta.IsMandatory (Metadata (asPlugin p)))
       then snd (RegisterMetadata (Metadata (asPlugin p)) pm) else pm)
      = main.started pm'.
Proof.
  rewrite registerEach_cons.
  destruct (panicsAt p registeredMetadata); [discriminate|].
  intros Hrun. split; [reflexivity|].
  destruct (main.shouldRegister (Metadata (asPlugin p)) enabled).
  - destruct (RegisterPlugin (asPlugin p) pm) as [[e|] pm1].
    + destruct (panicsAt p registeredName); discriminate.
    + exists pm1. auto.
  - destruct (negb (Meta.IsMandatory (Metadata (asPlugin p)))); exact Hrun.
Qed.

(** A start-up that returns is a sequence of calls on the manager. *)
Lemma registerEach_calls allPlugins enabled pm pm' :
  main.registerEach allPlugins enabled pm = main.started pm' ->
  Forall plugin.consistent (asPlugin <$> allPlugins) ->
  exists cs, pm' = performAll cs pm /\ Forall consistentCall cs.
Proof.
  revert pm. induction allPlugins as [|p rest IH]; intros pm Hrun Hcons.
  - injection Hrun as <-. exists []. split; [reflexivity|constructor].
  - rewrite fmap_cons in Hcons.
    inversion Hcons as [|? ? Hp Hrest]; subst.
    apply registerEach_started in Hrun as [_ Hrun].
    destruct (main.shouldRegister (Metadata (asPlugin p)) enabled).
    + destruct Hrun as (pm1 & Hreg & Hrun).
      destruct (IH pm1 Hrun Hrest) as (cs & -> & Hcs).
      exists (callRegisterPlugin (asPlugin p) :: cs). simpl. rewrite Hreg.
      split; [reflexivity|]. constructor; assumption.
    + destruct (negb (Meta.IsMandatory (Metadata (asPlugin p)))).
      * destruct (IH _ Hrun Hrest) as (cs & -> & Hcs).
        exists (callRegisterMetadata (Metadata (asPlugin p)) :: cs).
        split; [reflexivity|]. constructor; [exact I|assumption].
      * destruct (IH _ Hrun Hrest) as (cs & -> & Hcs).
        exists cs. split; [reflexivity|assumption].
Qed.

(** The keywords registered at start-up are those of the plugins that
    should register. *)
Lemma registerEach_registered allPlugins enabled pm pm' k :
  main.registerEach allPlugins enabled pm = main.started pm' ->
  is_Some (plugins pm' !! k) ->
  is_Some (plugins pm !! k) \/
  exists p, p ∈ asPlugin <$> allPlugins /\
            main.shouldRegister (Metadata p) enabled = true /\
            Meta.Keyword (Metadata p) = k.
Proof.
  revert pm. induction allPlugins as [|i rest IH]; intros pm Hrun Hk.
  - injection Hrun as <-. left. exact Hk.
  - apply registerEach_started in Hrun as [_ Hrun].
    rewrite fmap_cons. set (p := asPlugin i) in *.
    destruct (main.shouldRegister (Metadata p) enabled) eqn:Hshould.
    + destruct Hrun as (pm1 & Hreg & Hrun).
      destruct (IH pm1 Hrun Hk) as [Hin|(q & Hq & Hs & Hkq)].
      * destruct (RegisterPlugin_cases p pm) as [[e He]|(Hne & Hfree & _)];
          [congruence|].
        rewrite (RegisterPlugin_accepts p pm Hne Hfree) in Hreg.
        injection Hreg as <-. simpl in Hin.
        destruct (decide (Meta.Keyword (Metadata p) = k)) as [He|Hd].
        -- right. exists p. split; [left|auto].
        -- rewrite lookup_insert_ne in Hin by exact Hd. left. exact Hin.
      * right. exists q. split; [right; exact Hq|auto].
    + assert (Hpl : plugins
                (if negb (Meta.IsMandatory (Metadata p))
                 then snd (RegisterMetadata (Metadata p) pm) else pm)
                = plugins pm).
      { destruct (negb _); [apply RegisterMetadata_plugins|reflexivity]. }
      destruct (IH _ Hrun Hk) as [Hin|(q & Hq & Hs & Hkq)].
      * left. rewrite <- Hpl. exact Hin.
      * right. exists q. split; [right; exact Hq|auto].
Qed.

(** Metadata recorded for a keyword that no registering plugin has stays
    recorded, and a plugin that does not register records its own. *)
Lemma registerEach_disabled allPlugins enabled pm pm' k :
  main.registerEach allPlugins enabled pm = main.started pm' ->
  k <> "" ->
  (forall p, p ∈ asPlugin <$> allPlugins ->
             main.shouldRegister (Metadata p) enabled = true ->
             Meta.Keyword (Metadata p) <> k) ->
  plugins pm !! k = None ->
  (exists md, disabledPluginsMetadata pm !! k = Some md /\ Meta.Keyword md = k)
  \/ (exists p, p ∈ asPlugin <$> allPlugins /\
                main.shouldRegister (Metadata p) enabled = false /\
                Meta.Keyword (Metadata p) = k) ->
  exists md, disabledPluginsMetadata pm' !! k = Some md /\ Meta.Keyword md = k.
Proof.
  revert pm. induction allPlugins as [|i rest IH];
    intros pm Hrun Hk Hnoreg Hfree Hsrc.
  - injection Hrun as <-. destruct Hsrc as [Hmd|(p & Hp & _)]; [exact Hmd|].
    inversion Hp.
  - rewrite fmap_cons in Hnoreg, Hsrc. set (p := asPlugin i) in *.
    assert (Hnoreg' : forall q, q ∈ asPlugin <$> rest ->
              main.shouldRegister (Metadata q) enabled = true ->
              Meta.Keyword (Metadata q) <> k).
    { intros q Hq. apply Hnoreg. right. exact Hq. }
    apply registerEach_started in Hrun as [_ Hrun]. fold p in Hrun.
    destruct (main.shouldRegister (Metadata p) enabled) eqn:Hshould.
    + destruct Hrun as (pm1 & Hreg & Hrun).
      destruct (RegisterPlugin_cases p pm) as [[e He]|(Hne & Hfreep & _)];
        [congruence|].
      rewrite (RegisterPlugin_accepts p pm Hne Hfreep) in Hreg.
      injection Hreg as <-.
      apply (IH _ Hrun Hk Hnoreg'); simpl.
      * rewrite lookup_insert_ne; [exact Hfree|].
        apply Hnoreg; [left|exact Hshould].
      * destruct Hsrc as [Hmd|(q & Hq & Hs & Hkq)]; [left; exact Hmd|].
        apply elem_of_cons in Hq as [->|Hq]; [congruence|].
        right. exists q. auto.
    + assert (Hmand : Meta.IsMandatory (Metadata p) = false).
      { unfold main.shouldRegister in Hshould.
        apply orb_false_iff in Hshould. tauto. }
      rewrite Hmand in Hrun. simpl in Hrun.
      apply (IH _ Hrun Hk Hnoreg').
      * rewrite RegisterMetadata_plugins. exact Hfree.
      * rewrite RegisterMetadata_disabled.
        destruct (decide (Meta.Keyword (Metadata p) = k)) as [Hpk|Hpk].
        { left. rewrite Hpk, Hfree.
          destruct (decide (k = "")); [contradiction|].
          rewrite lookup_insert_eq. eauto. }
        destruct Hsrc as [(md & Hmd & Hkmd)|(q & Hq & Hs & Hkq)].
        { left. exists md. split; [|exact Hkmd].
          destruct (decide _); [exact Hmd|].
          destruct (plugins pm !! Meta.Keyword (Metadata p)); [exact Hmd|].
          rewrite lookup_insert_ne by exact Hpk. exact Hmd. }
        apply elem_of_cons in Hq as [->|Hq]; [congruence|].
        right. exists q. auto.
Qed.
End Startup.

Lemma asPlugin_returning (l : list Plugin) :
  asPlugin <$> (returning <$> l) = l.
Proof.
  induction l as [|p l IH]; [reflexivity|].
  rewrite !fmap_cons, IH. reflexivity.
Qed.

(** C9, as the code has it.  Take a start-up that returns, and in it a
    plugin that is neither mandatory nor named by the flag, whose keyword no
    registering plugin has.  Its keyword is not in the map of enabled
    plugins; when the keyword is not empty, metadata is recorded under it as
    disabled; no query makes [DetermineActivePlugin] return a plugin with
    that keyword, so never the disabled plugin; and a query whose trimmed
    form matches no enabled keyword selects the default plugin. *)
Theorem disabled_plugin_not_routable `{SliceSorter}
    (builtInPlugins : list Plugin) (loaded : list Instance)
    (fs : yaegi.fileSystem)
    (enabledPluginsFlag : string) (e : option error)
    (pm : PluginManager) (p : Plugin) :
  yaegi.LoadPlugins fs = yaegi.returned loaded e ->
  main.registerPlugins builtInPlugins fs enabledPluginsFlag NewPluginManager
    = main.started pm ->
  Forall plugin.consistent (builtInPlugins ++ (asPlugin <$> loaded)) ->
  p ∈ (builtInPlugins ++ (asPlugin <$> loaded))%list ->
  Meta.IsMandatory (Metadata p) = false ->
  Meta.Flag (Metadata p) ∉ main.parseEnabledPlugins enabledPluginsFlag ->
  (forall q, q ∈ (builtInPlugins ++ (asPlugin <$> loaded))%list ->
     main.shouldRegister (Metadata q)
       (main.parseEnabledPlugins enabledPluginsFlag) = true ->
     Meta.Keyword (Metadata q) <> Meta.Keyword (Metadata p)) ->
  let k := Meta.Keyword (Metadata p) in
  plugins pm !! k = None /\
  (k <> "" ->
   exists md, disabledPluginsMetadata pm !! k = Some md /\ Meta.Keyword md = k) /\
  forall query,
    let chosen := fst (fst (DetermineActivePlugin query pm)) in
    (forall r, chosen = Some r -> Keyword r <> k) /\
    chosen <> Some p /\
    ((forall k', is_Some (plugins pm !! k') ->
                 matches (TrimSpace query) k' = false) ->
     chosen = defaultPlugin pm).
Proof.
  intros Hload Hstart Hcons Hin Hmand Hflag Hothers k.
  unfold main.registerPlugins in Hstart. rewrite Hload in Hstart.
  set (enabled := main.parseEnabledPlugins enabledPluginsFlag) in *.
  assert (Hall : asPlugin <$> ((returning <$> builtInPlugins) ++ loaded)%list
                 = (builtInPlugins ++ (asPlugin <$> loaded))%list).
  { rewrite fmap_app, asPlugin_returning. reflexivity. }
  rewrite <- Hall in Hcons, Hin, Hothers.
  destruct (registerEach_calls _ _ _ _ Hstart Hcons) as (cs & Hpm & Hcs).
  assert (Hinv : registryInvariant pm).
  { rewrite Hpm. apply invariant_reachable. exact Hcs. }
  assert (Hshould : main.shouldRegister (Metadata p) enabled = false).
  { unfold main.shouldRegister. rewrite Hmand. simpl.
    apply bool_decide_eq_false. exact Hflag. }
  assert (Hfree : plugins pm !! k = None).
  { destruct (plugins pm !! k) as [r|] eqn:Hr; [|reflexivity]. exfalso.
    destruct (registerEach_registered _ _ _ _ k Hstart) as [[x Hx]|(q & Hq & Hs & Hk)].
    - rewrite Hr. eauto.
    - simpl in Hx. rewrite lookup_empty in Hx. discriminate.
    - apply (Hothers q Hq Hs). exact Hk. }
  split; [exact Hfree|]. split.
  - intros Hne.
    apply (registerEach_disabled _ _ _ _ k Hstart Hne Hothers).
    + apply lookup_empty.
    + right. exists p. auto.
  - intros query chosen.
    assert (Hchosen : chosen = determinedPlugin query pm).
    { unfold chosen. rewrite (DetermineActivePlugin_spec query pm Hinv).
      reflexivity. }
    assert (Hnot : forall r, chosen = Some r -> Keyword r <> k).
    { intros r Hr Hk. rewrite Hchosen in Hr.
      pose proof (determined_registered query pm r Hinv Hr) as Hreg.
      rewrite Hk, Hfree in Hreg. discriminate. }
    split; [exact Hnot|]. split.
    + intros Hp. apply (Hnot p Hp).
      rewrite Forall_forall in Hcons. apply (Hcons p Hin).
    + intros Hnone. rewrite Hchosen.
      destruct (routing_longest pm query Hinv) as [_ Hsel].
      destruct (determinedPlugin query pm) as [r|] eqn:Hr.
      * destruct (Hsel r eq_refl) as [Hm|[Hd _]]; [|congruence].
        rewrite Hnone in Hm; [discriminate|].
        rewrite (determined_registered query pm r Hinv Hr). eauto.
      * symmetry. apply (determined_none query pm Hr).
Qed.

Lemma disabled_plugin_not_routable_witness :
  plugins (startedManager
             (main.registerPlugins [applauncher; calculator]
                (pluginDir [helloFile]) "wikipedia" NewPluginManager))
    !! "!hello" = None.
Proof.
  apply (disabled_plugin_not_routable [applauncher; calculator]
           [returning hello]
           (pluginDir [helloFile]) "wikipedia" None _ hello).
  - reflexivity.
  - reflexivity.
  - repeat constructor.
  - set_solver.
  - reflexivity.
  - apply (bool_decide_unpack
             ("hello" ∉ main.parseEnabledPlugins "wikipedia")).
    vm_compute. exact I.
  - intros q Hq. simpl in Hq. rewrite !elem_of_cons in Hq.
    destruct Hq as [->|[->|[->|Hq]]]; [discriminate|discriminate| |inversion Hq].
    intros Hs. vm_compute in Hs. discriminate.
Defined.

(** C9, as stated, fails: a query can begin with the keyword of a disabled
    plugin and still match an enabled keyword, which then wins.  With ["!h"]
    disabled and ["!hello"] and ["!h x"] enabled, ["!hello world"] begins
    with ["!h"] and goes to ["!hello"], and ["!h x"] continues ["!h"] with a
    space and goes to ["!h x"]; neither goes to the default plugin. *)
Lemma disabled_prefix_routes_elsewhere :
  let pm := startedManager
              (main.registerPlugins [applauncher; calculator]
                 (pluginDir
                    [helloFile;
                     goFile "h.go"
                       (yaegi.funcNew
                          (yaegi.constructs (Some (returning h))));
                     goFile "hx.go"
                       (yaegi.funcNew
                          (yaegi.constructs (Some (returning hx))))])
                 "hello,hx" NewPluginManager) in
  plugins pm !! "!h" = None /\
  disabledPluginsMetadata pm !! "!h" = Some (Metadata h) /\
  defaultPlugin pm = Some applauncher /\
  HasPrefix (TrimSpace "!hello world") "!h" = true /\
  fst (fst (DetermineActivePlugin "!hello world" pm)) = Some hello /\
  matches (TrimSpace "!h x") "!h" = true /\
  fst (fst (DetermineActivePlugin "!h x" pm)) = Some hx.
Proof. vm_compute. repeat split. Qed.

(** ** The interaction loop: stale results *)

(** The guard of [Update]: a results message for a query other than
    [lastQuery] changes nothing. *)
Lemma Update_results_stale `{MapRange} (m : model) results e pluginSwitched forQuery :
  forQuery <> lastQuery m ->
  Update (tea.resultsMsg results e pluginSwitched forQuery) m = (m, []).
Proof.
  intros Hne. unfold Update.
  rewrite (proj2 (String.eqb_neq forQuery (lastQuery m)) Hne). reflexivity.
Qed.

(** A results message for [lastQuery] that carries no error replaces the
    items. *)
Lemma Update_results_current `{MapRange} (m : model) results pluginSwitched :
  items (list_ (fst (Update (tea.resultsMsg results None pluginSwitched
                                            (lastQuery m)) m)))
    = map toListItem results.
Proof.
  unfold Update. rewrite String.eqb_refl. simpl.
  destruct pluginSwitched; simpl; [reflexivity|].
  destruct (Nat.ltb 0 _); reflexivity.
Qed.

Lemma append_byte_length (s : string) (c : ascii) :
  String.length (s ++ String c EmptyString) = S (String.length s).
Proof. induction s as [|d s IH]; simpl; [reflexivity|]. rewrite IH. reflexivity. Qed.

Lemma append_byte_differs (s : string) (c : ascii) :
  s ++ String c EmptyString <> s.
Proof.
  intros He. apply (f_equal String.length) in He.
  rewrite append_byte_length in He. lia.
Qed.

Lemma forwardToActive_fields msg cmds m :
  let m' := snd (forwardToActive msg cmds m) in
  textInput m' = textInput m /\ lastQuery m' = lastQuery m /\
  list_ m' = list_ m.
Proof.
  unfold forwardToActive. destruct (GetCurrentPlugin _) as [a|]; [|auto].
  destruct (plugin.Update a msg) as [u c]. simpl.
  unfold updatePluginState. destruct u; simpl; auto.
Qed.

(** Typing a byte makes the new text the [lastQuery], so that the results
    of the query typed before are dropped when they arrive. *)
Lemma typing_drops_earlier_results `{MapRange} (m : model) (c : ascii) results e
    pluginSwitched :
  String.length (textInput m) < CharLimit ->
  let m' := fst (Update (tea.KeyMsg (tea.KeyRune c)) m) in
  textInput m' = textInput m ++ String c EmptyString /\
  lastQuery m' = textInput m' /\
  Update (tea.resultsMsg results e pluginSwitched (textInput m)) m' = (m', []).
Proof.
  intros Hlen m'.
  assert (Hfields : textInput m' = textInput m ++ String c EmptyString /\
                    lastQuery m' = textInput m').
  { unfold m', Update.
    pose proof (forwardToActive_fields (tea.KeyMsg (tea.KeyRune c)) [] m) as Hf.
    destruct (forwardToActive _ _ m) as [cmds1 m1]. simpl in Hf.
    destruct Hf as (Ht & _ & _). unfold textInputUpdate. rewrite Ht.
    rewrite (proj2 (Nat.ltb_lt _ _) Hlen). simpl.
    rewrite (proj2 (String.eqb_neq _ _) (append_byte_differs (textInput m) c)).
    simpl. destruct c as [[] [] [] [] [] [] [] []]; simpl; auto. }
  destruct Hfields as [Ht Hl]. split; [exact Ht|]. split; [exact Hl|].
  apply Update_results_stale. rewrite Hl, Ht.
  intros He. symmetry in He. apply (append_byte_differs _ _ He).
Qed.

(** C3 at its failing input.  The user types ["ab"], the debounce fires
    and the fetch for ["ab"] is in flight; the user presses Escape.  The
    text is then empty, [lastQuery] is still ["ab"]: the results for ["ab"]
    replace the list, and the results for the empty query, which is
    current, are dropped. *)
Theorem stale_results_after_escape `{MapRange} :
  let pm := snd (RegisterPlugin applauncher NewPluginManager) in
  let typed :=
    deliver [tea.KeyMsg (tea.KeyRune "a"); tea.KeyMsg (tea.KeyRune "b")]
            (InitialModel pm) in
  let m1 := fst (Update tea.processQueryMsg typed) in
  let m2 := fst (Update (tea.KeyMsg tea.KeyEsc) m1) in
  let inFlight := runFetch "ab" false (pluginManager m2) in
  let fresh := runFetch "" false (pluginManager m2) in
  snd (Update tea.processQueryMsg typed) = [tea.fetchResults "ab" false] /\
  snd (Update (tea.KeyMsg tea.KeyEsc) m1) = [tea.fetchResults "" false] /\
  textInput m2 = "" /\ lastQuery m2 = "ab" /\
  inFlight = tea.resultsMsg [mkResult "ab" "" "ab"] None false "ab" /\
  items (list_ m2) = [mkListItem "" "" ""] /\
  items (list_ (fst (Update inFlight m2))) = [mkListItem "ab" "" "ab"] /\
  textInput (fst (Update inFlight m2)) = "" /\
  Update fresh m2 = (m2, []).
Proof. vm_compute. repeat split. Qed.

(** * Further properties of the code *)

(** ** The registry *)

Lemma sorted_lookup {A} (R : A -> A -> Prop) (l : list A) (i j : nat) (a b : A) :
  StronglySorted R l -> l !! i = Some a -> l !! j = Some b -> i < j -> R a b.
Proof.
  intros Hs. revert i j. induction Hs as [|x l Hs IH Hall]; intros i j Hi Hj Hij.
  - discriminate.
  - destruct j as [|j]; [lia|]. simpl in Hj. destruct i as [|i]; simpl in Hi.
    + injection Hi as <-. rewrite Forall_forall in Hall. apply Hall.
      apply list_elem_of_lookup. eauto.
    + apply (IH i j); [assumption|assumption|lia].
Qed.

Section KeywordList.
Context {sorter : SliceSorter}.

Lemma nodup_perform c pm :
  registryInvariant pm -> NoDup (sortedKeywords pm) ->
  NoDup (sortedKeywords (perform c pm)).
Proof.
  intros Hinv Hnd. destruct c as [p|metadata|query|query|u]; simpl.
  - destruct (RegisterPlugin_cases p pm) as [[e He]|(Hne & Hfree & _)].
    + rewrite He. exact Hnd.
    + rewrite (RegisterPlugin_accepts p pm Hne Hfree). simpl.
      rewrite (sortSlice_perm longerThan _).
      apply NoDup_app. split; [exact Hnd|]. split.
      * intros k Hk Hin. apply list_elem_of_singleton in Hin. subst k.
        apply (inv_keywords pm Hinv) in Hk as [q Hq]. congruence.
      * apply NoDup_singleton.
  - unfold RegisterMetadata. destruct (decide _); [exact Hnd|].
    destruct (plugins pm !! _); exact Hnd.
  - unfold DetermineActivePlugin.
    destruct (negb _); unfold_setters;
      destruct (activePlugin pm), (determinedPlugin query pm);
      simpl; exact Hnd.
  - rewrite GetResults_state. exact Hnd.
  - destruct (UpdatePluginInstance_cases u pm) as [->|(v & -> & Hne & Hreg)];
      [exact Hnd|].
    rewrite (UpdatePluginInstance_registered v pm Hne Hreg). exact Hnd.
Qed.

Lemma nodup_performAll cs pm :
  Forall consistentCall cs -> registryInvariant pm ->
  NoDup (sortedKeywords pm) -> NoDup (sortedKeywords (performAll cs pm)).
Proof.
  revert pm. induction cs as [|c cs IH]; intros pm Hcs Hinv Hnd; simpl.
  - exact Hnd.
  - inversion Hcs; subst. apply IH; [assumption| |].
    + apply invariant_perform; assumption.
    + apply nodup_perform; assumption.
Qed.

(** X1.  After any sequence of calls that registers consistent plugins,
    the keyword list holds every registered keyword exactly once, longest
    first, no keyword is empty, every instance is stored under its own
    keyword, and the active and the default plugin are registered
    instances. *)
Theorem keyword_list_mirrors_registry (cs : list call) :
  Forall consistentCall cs ->
  let pm := performAll cs NewPluginManager in
  NoDup (sortedKeywords pm) /\
  (forall k, k ∈ sortedKeywords pm <-> is_Some (plugins pm !! k)) /\
  List.length (sortedKeywords pm) = size (plugins pm) /\
  (forall i j a b, sortedKeywords pm !! i = Some a ->
     sortedKeywords pm !! j = Some b -> i <= j ->
     String.length b <= String.length a) /\
  (forall k p, plugins pm !! k = Some p -> Keyword p = k /\ k <> "") /\
  (forall a, activePlugin pm = Some a -> plugins pm !! Keyword a = Some a) /\
  (forall d, defaultPlugin pm = Some d -> plugins pm !! Keyword d = Some d).
Proof.
  intros Hcs pm.
  pose proof (invariant_reachable cs Hcs) as Hinv. fold pm in Hinv.
  assert (Hnd : NoDup (sortedKeywords pm)).
  { apply nodup_performAll; [exact Hcs|apply invariant_new|constructor]. }
  split; [exact Hnd|]. split; [apply (inv_keywords pm Hinv)|].
  split.
  { assert (Hperm : sortedKeywords pm ≡ₚ (map_to_list (plugins pm)).*1).
    { apply NoDup_Permutation; [exact Hnd|apply NoDup_fst_map_to_list|].
      intros k. rewrite (inv_keywords pm Hinv k), list_elem_of_fmap. split.
      - intros [q Hq]. exists (k, q). split; [reflexivity|].
        apply elem_of_map_to_list. exact Hq.
      - intros ([k' q] & -> & Hin). apply elem_of_map_to_list in Hin. eauto. }
    rewrite Hperm, length_fmap. apply length_map_to_list. }
  split.
  { intros i j a b Hi Hj Hij. apply longerThan_false.
    destruct (decide (i = j)) as [->|Hne].
    - assert (a = b) by congruence. subst b.
      unfold longerThan. apply Nat.ltb_irrefl.
    - pose proof (inv_sorted pm Hinv) as Hs.
      apply (sorted_lookup _ _ i j a b Hs Hi Hj). lia. }
  split; [apply (inv_keyed pm Hinv)|].
  split; [apply (inv_active pm Hinv)|apply (inv_default pm Hinv)].
Qed.
End KeywordList.

Lemma keyword_list_mirrors_registry_witness :
  Forall consistentCall sampleCalls /\
  NoDup (sortedKeywords (performAll sampleCalls NewPluginManager)).
Proof.
  split.
  - repeat constructor.
  - apply (keyword_list_mirrors_registry sampleCalls). repeat constructor.
Defined.

(** The loop finds nothing for a trimmed query that is empty: no keyword
    that is not empty is a prefix of it. *)
Lemma scanKeywords_empty_query (m : gmap string Plugin) (kws : list string) :
  scanKeywords m "" kws = None.
Proof.
  induction kws as [|k kws IH]; [reflexivity|]. simpl.
  destruct k as [|c k]; simpl; exact IH.
Qed.

(** X2.  After any sequence of calls that registers consistent plugins, a
    query whose trimmed form no registered keyword matches is routed to the
    default plugin, which becomes the active one (no plugin when there is no
    default); a query that is empty after trimming is always such a
    query. *)
Theorem unmatched_query_routes_to_default `{SliceSorter}
    (cs : list call) (query : string) :
  Forall consistentCall cs ->
  let pm := performAll cs NewPluginManager in
  ((forall k, is_Some (plugins pm !! k) -> matches (TrimSpace query) k = false) ->
   fst (fst (DetermineActivePlugin query pm)) = defaultPlugin pm /\
   activePlugin (snd (DetermineActivePlugin query pm)) = defaultPlugin pm) /\
  (TrimSpace query = "" ->
   fst (fst (DetermineActivePlugin query pm)) = defaultPlugin pm).
Proof.
  intros Hcs pm.
  pose proof (invariant_reachable cs Hcs) as Hinv. fold pm in Hinv.
  rewrite (DetermineActivePlugin_spec query pm Hinv). simpl. split.
  - intros Hnone.
    assert (Hd : determinedPlugin query pm = defaultPlugin pm).
    { unfold determinedPlugin.
      destruct (scanKeywords _ _ _) as [p|] eqn:Hs; [|reflexivity].
      apply scan_found in Hs as (l1 & k & l2 & _ & _ & _ & Hm & Hp).
      rewrite Hnone in Hm; [discriminate|]. rewrite Hp. eauto. }
    rewrite Hd. split; reflexivity.
  - intros Ht. unfold determinedPlugin. rewrite Ht.
    rewrite scanKeywords_empty_query. reflexivity.
Qed.

Lemma unmatched_query_routes_to_default_witness :
  Forall consistentCall sampleCalls /\
  fst (fst (DetermineActivePlugin "  "
              (performAll sampleCalls NewPluginManager)))
    = defaultPlugin (performAll sampleCalls NewPluginManager).
Proof.
  split.
  - repeat constructor.
  - apply (unmatched_query_routes_to_default sampleCalls "  ");
      [repeat constructor|reflexivity].
Defined.

Lemma DetermineActivePlugin_ignores_disabled query d pm :
  fst (DetermineActivePlugin query (set_disabledPluginsMetadata d pm))
    = fst (DetermineActivePlugin query pm).
Proof.
  destruct pm as [pl dis def act kws].
  unfold DetermineActivePlugin, determinedPlugin, set_disabledPluginsMetadata.
  simpl. destruct (negb _); simpl.
  - destruct (match scanKeywords _ _ _ with Some p => Some p | None => _ end);
      reflexivity.
  - destruct act; reflexivity.
Qed.

Lemma RegisterMetadata_only_disabled metadata pm :
  snd (RegisterMetadata metadata pm) =
    set_disabledPluginsMetadata
      (disabledPluginsMetadata (snd (RegisterMetadata metadata pm))) pm.
Proof.
  unfold RegisterMetadata. destruct pm as [pl dis def act kws].
  destruct (decide _); [reflexivity|]. simpl.
  destruct (pl !! _); reflexivity.
Qed.

(** What [RegisterMetadata] does to each field of the manager. *)
Lemma RegisterMetadata_fields (metadata : Meta.t) (pm : PluginManager) :
  let pm' := snd (RegisterMetadata metadata pm) in
  (is_Some (fst (RegisterMetadata metadata pm)) <-> Meta.Keyword metadata = "") /\
  plugins pm' = plugins pm /\ sortedKeywords pm' = sortedKeywords pm /\
  defaultPlugin pm' = defaultPlugin pm /\ activePlugin pm' = activePlugin pm /\
  (forall query,
     fst (DetermineActivePlugin query pm') = fst (DetermineActivePlugin query pm)) /\
  (Meta.Keyword metadata = "" \/
   is_Some (plugins pm !! Meta.Keyword metadata) -> pm' = pm) /\
  (Meta.Keyword metadata <> "" ->
   plugins pm !! Meta.Keyword metadata = None ->
   disabledPluginsMetadata pm' !! Meta.Keyword metadata = Some metadata /\
   forall k, k <> Meta.Keyword metadata ->
     disabledPluginsMetadata pm' !! k = disabledPluginsMetadata pm !! k).
Proof.
  intros pm'.
  assert (Hfields : plugins pm' = plugins pm /\
                    sortedKeywords pm' = sortedKeywords pm /\
                    defaultPlugin pm' = defaultPlugin pm /\
                    activePlugin pm' = activePlugin pm).
  { unfold pm', RegisterMetadata. destruct (decide _); [auto|].
    destruct (plugins pm !! _); auto. }
  destruct Hfields as (Hp & Hs & Hd & Ha).
  split.
  { unfold RegisterMetadata. destruct (decide _) as [He|Hne].
    - split; [auto|]. simpl. eauto.
    - destruct (plugins pm !! _); simpl; split;
        try contradiction; intros [x Hx]; discriminate. }
  split; [exact Hp|]. split; [exact Hs|]. split; [exact Hd|].
  split; [exact Ha|]. split.
  { intros query. unfold pm'. rewrite RegisterMetadata_only_disabled.
    apply DetermineActivePlugin_ignores_disabled. }
  split.
  { unfold pm', RegisterMetadata. intros [He|[q Hq]].
    - destruct (decide _); [reflexivity|contradiction].
    - destruct (decide _); [reflexivity|]. rewrite Hq. reflexivity. }
  intros Hne Hfree. unfold pm'. rewrite RegisterMetadata_disabled.
  destruct (decide _); [contradiction|]. rewrite Hfree. split.
  - apply lookup_insert_eq.
  - intros k Hk. apply lookup_insert_ne. congruence.
Qed.

(** X3.  [RegisterMetadata] fails exactly on an empty keyword; it never
    changes the enabled plugins, the keyword list, the default or the active
    plugin, so routing is the same before and after; for a keyword that is
    enabled it changes nothing, otherwise the metadata is stored under its
    keyword, replacing what was there. *)
Theorem RegisterMetadata_effect (metadata : Meta.t) (pm : PluginManager) :
  let pm' := snd (RegisterMetadata metadata pm) in
  (is_Some (fst (RegisterMetadata metadata pm)) <-> Meta.Keyword metadata = "") /\
  plugins pm' = plugins pm /\ sortedKeywords pm' = sortedKeywords pm /\
  defaultPlugin pm' = defaultPlugin pm /\ activePlugin pm' = activePlugin pm /\
  (forall query,
     fst (DetermineActivePlugin query pm') = fst (DetermineActivePlugin query pm)) /\
  (Meta.Keyword metadata = "" \/
   is_Some (plugins pm !! Meta.Keyword metadata) -> pm' = pm) /\
  (Meta.Keyword metadata <> "" ->
   plugins pm !! Meta.Keyword metadata = None ->
   disabledPluginsMetadata pm' !! Meta.Keyword metadata = Some metadata /\
   forall k, k <> Meta.Keyword metadata ->
     disabledPluginsMetadata pm' !! k = disabledPluginsMetadata pm !! k).
Proof. exact (RegisterMetadata_fields metadata pm). Qed.

Lemma RegisterMetadata_effect_witness :
  disabledPluginsMetadata
    (snd (RegisterMetadata (Metadata hello)
            (performAll sampleCalls NewPluginManager))) !! "!hello"
    = Some (Metadata hello).
Proof.
  apply (RegisterMetadata_effect (Metadata hello)
           (performAll sampleCalls NewPluginManager)).
  - discriminate.
  - vm_compute. reflexivity.
Defined.

(** X4.  A plugin that [Update] returns unchanged costs nothing: on a
    registry satisfying the invariant, handing back an instance that is the
    registered one leaves the manager exactly as it was. *)
Theorem UpdatePluginInstance_same_instance `{SliceSorter}
    (cs : list call) (p : Plugin) :
  Forall consistentCall cs ->
  let pm := performAll cs NewPluginManager in
  plugins pm !! Keyword p = Some p ->
  UpdatePluginInstance (Some p) pm = pm.
Proof.
  intros Hcs pm Hp.
  pose proof (invariant_reachable cs Hcs) as Hinv. fold pm in Hinv.
  pose proof (registered_keyword_nonempty pm p Hinv Hp) as Hne.
  rewrite (UpdatePluginInstance_registered p pm Hne) by (rewrite Hp; eauto).
  rewrite (insert_id _ _ _ Hp).
  assert (Hsame : forall o : option Plugin,
            (forall a, o = Some a -> plugins pm !! Keyword a = Some a) ->
            (if decide (keywordOrEmpty o = Keyword p) then Some p else o) = o).
  { intros o Ho. destruct (decide _) as [He|]; [|reflexivity].
    destruct o as [a|]; simpl in He; [|congruence].
    specialize (Ho a eq_refl). rewrite He, Hp in Ho. exact Ho. }
  rewrite (Hsame _ (inv_active pm Hinv)), (Hsame _ (inv_default pm Hinv)).
  destruct pm; reflexivity.
Qed.

Lemma UpdatePluginInstance_same_instance_witness :
  Forall consistentCall sampleCalls /\
  UpdatePluginInstance (Some wiki) (performAll sampleCalls NewPluginManager)
    = performAll sampleCalls NewPluginManager.
Proof.
  split.
  - repeat constructor.
  - apply (UpdatePluginInstance_same_instance sampleCalls wiki);
      [repeat constructor|reflexivity].
Defined.
(** What an accepted [RegisterPlugin] does to each field of the manager. *)
Lemma RegisterPlugin_accepted_fields `{SliceSorter}
    (p : Plugin) (pm pm' : PluginManager) :
  RegisterPlugin p pm = (None, pm') ->
  let k := Meta.Keyword (Metadata p) in
  k <> "" /\ plugins pm !! k = None /\
  plugins pm' !! k = Some p /\
  (forall k', k' <> k -> plugins pm' !! k' = plugins pm !! k') /\
  disabledPluginsMetadata pm' = disabledPluginsMetadata pm /\
  sortedKeywords pm' ≡ₚ (sortedKeywords pm ++ [k])%list /\
  defaultPlugin pm' =
    (if Meta.IsDefault (Metadata p) then Some p else defaultPlugin pm) /\
  activePlugin pm' =
    (if Meta.IsDefault (Metadata p)
     then match activePlugin pm with Some a => Some a | None => Some p end
     else activePlugin pm).
Proof.
  intros Hok k.
  destruct (RegisterPlugin_cases p pm) as [[e He]|(Hne & Hfree & _)];
    [congruence|].
  rewrite (RegisterPlugin_accepts p pm Hne Hfree) in Hok.
  injection Hok as <-. simpl. fold k.
  split; [exact Hne|]. split; [exact Hfree|].
  split; [apply lookup_insert_eq|].
  split; [intros k' Hk'; apply lookup_insert_ne; congruence|].
  split; [reflexivity|].
  split; [apply sortSlice_perm|]. split; reflexivity.
Qed.

(** X5.  What an accepted registration does: the instance is found under
    its keyword, every other entry and the disabled metadata stay, the
    keyword list is a permutation of the old one with the new keyword.  A
    plugin with [IsDefault] becomes the default even when there was one, but
    becomes active only when no plugin was active; a plugin without
    [IsDefault] changes neither reference. *)
Theorem RegisterPlugin_accepted_effect `{SliceSorter}
    (p : Plugin) (pm pm' : PluginManager) :
  RegisterPlugin p pm = (None, pm') ->
  let k := Meta.Keyword (Metadata p) in
  k <> "" /\ plugins pm !! k = None /\
  plugins pm' !! k = Some p /\
  (forall k', k' <> k -> plugins pm' !! k' = plugins pm !! k') /\
  disabledPluginsMetadata pm' = disabledPluginsMetadata pm /\
  sortedKeywords pm' ≡ₚ (sortedKeywords pm ++ [k])%list /\
  defaultPlugin pm' =
    (if Meta.IsDefault (Metadata p) then Some p else defaultPlugin pm) /\
  activePlugin pm' =
    (if Meta.IsDefault (Metadata p)
     then match activePlugin pm with Some a => Some a | None => Some p end
     else activePlugin pm).
Proof. exact (RegisterPlugin_accepted_fields p pm pm'). Qed.

Lemma RegisterPlugin_accepted_effect_witness :
  defaultPlugin
    (snd (RegisterPlugin wikipedia (snd (RegisterPlugin applauncher NewPluginManager))))
    = Some applauncher.
Proof.
  apply (RegisterPlugin_accepted_effect wikipedia
           (snd (RegisterPlugin applauncher NewPluginManager)) _ eq_refl).
Defined.

Lemma GetCurrentPlugin_after_routing query pm :
  GetCurrentPlugin (snd (DetermineActivePlugin query pm))
    = fst (fst (DetermineActivePlugin query pm)).
Proof.
  unfold DetermineActivePlugin, GetCurrentPlugin.
  destruct pm as [pl dis def act kws]. simpl.
  destruct (negb _); unfold_setters.
  - destruct (determinedPlugin query _) as [d|]; simpl; [reflexivity|].
    destruct def; reflexivity.
  - destruct act; simpl; [reflexivity|]. destruct def; reflexivity.
Qed.

(** X6.  On every manager, the plugin that [DetermineActivePlugin]
    returns is the one the manager then addresses: [GetCurrentPlugin]
    returns it, [GetResults], [Execute] and [GetError] call it, with the
    identifier passed to [Execute] unchanged; when it returned no plugin,
    [Execute] and [GetError] return nil and [GetResults] the error. *)
Theorem routed_plugin_is_addressed (query : string) (pm : PluginManager) :
  let chosen := fst (fst (DetermineActivePlugin query pm)) in
  let pm' := snd (DetermineActivePlugin query pm) in
  GetCurrentPlugin pm' = chosen /\
  (forall q, fst (GetResults q pm') =
     match chosen with
     | Some p => plugin.GetResults p (pluginQuery p q)
     | None => ([], Some errNoActivePlugin)
     end) /\
  (forall identifier, Execute identifier pm' =
     match chosen with
     | Some p => plugin.Execute p identifier
     | None => None
     end) /\
  GetError pm' =
    match chosen with
    | Some p => plugin.GetError p
    | None => None
    end.
Proof.
  intros chosen pm'.
  pose proof (GetCurrentPlugin_after_routing query pm) as Hcur.
  fold chosen pm' in Hcur.
  split; [exact Hcur|].
  unfold GetResults, Execute, GetError. rewrite Hcur.
  destruct chosen; repeat split; reflexivity.
Qed.

(** ** [InitPlugins] *)

Lemma omap_keep_all (l : list (string * Plugin)) (ks : list string) :
  Forall (fun entry => fst entry ∉ ks) l ->
  omap (fun entry : string * Plugin =>
          if decide (fst entry ∈ ks) then None else Some (snd entry)) l
    = l.*2.
Proof.
  induction 1 as [|[k p] l Hk Hall IH]; [reflexivity|]. simpl.
  destruct (decide (k ∈ ks)); [contradiction|]. simpl. f_equal. exact IH.
Qed.

(** X7.  After any sequence of calls that registers consistent plugins,
    [InitPlugins] calls [Init] on every registered instance exactly once,
    the default plugin first, and returns the commands that are not nil. *)
Theorem InitPlugins_each_once `{SliceSorter} (cs : list call) :
  Forall consistentCall cs ->
  let pm := performAll cs NewPluginManager in
  initReceivers pm ≡ₚ (map_to_list (plugins pm)).*2 /\
  List.length (initReceivers pm) = size (plugins pm) /\
  (forall d, defaultPlugin pm = Some d -> head (initReceivers pm) = Some d) /\
  (forall c, c ∈ InitPlugins pm <->
             exists k p, plugins pm !! k = Some p /\ plugin.Init p = Some c).
Proof.
  intros Hcs pm.
  pose proof (invariant_reachable cs Hcs) as Hinv. fold pm in Hinv.
  assert (Hperm : initReceivers pm ≡ₚ (map_to_list (plugins pm)).*2).
  { unfold initReceivers, initializedKeywords.
    destruct (defaultPlugin pm) as [d|] eqn:Hd.
    - pose proof (inv_default pm Hinv d Hd) as Hreg.
      pose proof (registered_keyword_nonempty pm d Hinv Hreg) as Hne.
      destruct (decide (Keyword d = "")); [contradiction|].
      pose proof (map_to_list_delete _ _ _ Hreg) as Hdel.
      rewrite <- Hdel at 2.
      rewrite (omap_Permutation _ _ _ (symmetry Hdel)). simpl.
      destruct (decide (Keyword d ∈ [Keyword d])) as [_|Hn];
        [|exfalso; apply Hn; left].
      constructor.
      match goal with
      | |- ?X ≡ₚ ?Y => replace X with Y; [reflexivity|symmetry]
      end.
      apply omap_keep_all.
      apply Forall_forall. intros [k p] Hin Hk. simpl in Hk.
      apply list_elem_of_singleton in Hk. subst k.
      apply elem_of_map_to_list in Hin. rewrite lookup_delete_eq in Hin.
      discriminate.
    - simpl.
      match goal with
      | |- ?X ≡ₚ ?Y => replace X with Y; [reflexivity|symmetry]
      end.
      apply (omap_keep_all _ []).
      apply Forall_forall. intros entry _ Hin. inversion Hin. }
  split; [exact Hperm|]. split.
  { rewrite Hperm, length_fmap. apply length_map_to_list. }
  split.
  { intros d Hd. unfold initReceivers. rewrite Hd. reflexivity. }
  intros c. unfold InitPlugins. rewrite list_elem_of_omap. split.
  - intros (p & Hin & Hc). rewrite Hperm in Hin.
    apply list_elem_of_fmap in Hin as ([k q] & -> & Hin).
    apply elem_of_map_to_list in Hin. eauto.
  - intros (k & p & Hp & Hc). exists p. split; [|exact Hc].
    rewrite Hperm. apply list_elem_of_fmap. exists (k, p).
    split; [reflexivity|]. apply elem_of_map_to_list. exact Hp.
Qed.

Lemma InitPlugins_each_once_witness :
  Forall consistentCall sampleCalls /\
  List.length (initReceivers (performAll sampleCalls NewPluginManager))
    = size (plugins (performAll sampleCalls NewPluginManager)).
Proof.
  split.
  - repeat constructor.
  - apply (InitPlugins_each_once sampleCalls). repeat constructor.
Defined.

(** X8.  A second default plugin takes over at the next routing, not at
    registration: when a plugin is active and a consistent plugin with
    [IsDefault] is registered, the active plugin stays current, and the next
    query that is empty after trimming switches to the new default. *)
Theorem second_default_takes_over `{SliceSorter}
    (cs : list call) (p a : Plugin) (pm' : PluginManager) :
  Forall consistentCall cs -> plugin.consistent p ->
  Meta.IsDefault (Metadata p) = true ->
  let pm := performAll cs NewPluginManager in
  activePlugin pm = Some a ->
  RegisterPlugin p pm = (None, pm') ->
  defaultPlugin pm' = Some p /\
  GetCurrentPlugin pm' = Some a /\
  fst (DetermineActivePlugin "" pm') = (Some p, true).
Proof.
  intros Hcs Hp Hdef pm Ha Hok.
  pose proof (invariant_reachable cs Hcs) as Hinv. fold pm in Hinv.
  assert (Hinv' : registryInvariant pm').
  { replace pm' with (snd (RegisterPlugin p pm)) by (rewrite Hok; reflexivity).
    apply invariant_RegisterPlugin; assumption. }
  destruct (RegisterPlugin_accepted_fields p pm pm' Hok)
    as (Hne & Hfree & Hreg & _ & _ & _ & Hd & Hact).
  rewrite Hdef in Hd, Hact. rewrite Ha in Hact.
  split; [exact Hd|]. split.
  { unfold GetCurrentPlugin. rewrite Hact. reflexivity. }
  rewrite (DetermineActivePlugin_spec "" pm' Hinv'). simpl.
  assert (Hdet : determinedPlugin "" pm' = Some p).
  { unfold determinedPlugin. change (TrimSpace "") with "".
    rewrite scanKeywords_empty_query. exact Hd. }
  rewrite Hdet, Hact. simpl. f_equal.
  apply negb_true_iff, String.eqb_neq. intros He.
  pose proof (inv_active pm Hinv a Ha) as Hra.
  rewrite He, Hp, Hfree in Hra. discriminate.
Qed.

Lemma second_default_takes_over_witness :
  fst (DetermineActivePlugin ""
         (snd (RegisterPlugin secondDefault
                 (performAll sampleCalls NewPluginManager))))
    = (Some secondDefault, true).
Proof.
  apply (second_default_takes_over sampleCalls secondDefault applauncher
           (snd (RegisterPlugin secondDefault
                   (performAll sampleCalls NewPluginManager))));
    try reflexivity.
  repeat constructor.
Defined.

(** ** The interaction loop *)

(** What [handleQueryChange] does to the model, field by field. *)
Lemma handleQueryChange_effect (newQuery : string) (m : model) :
  let r := DetermineActivePlugin newQuery (pluginManager m) in
  let chosen := fst (fst r) in
  let switched := snd (fst r) in
  let m' := snd (handleQueryChange newQuery m) in
  fst (handleQueryChange newQuery m) =
    match chosen with
    | Some _ => Some (tea.fetchResults newQuery switched)
    | None => None
    end /\
  pluginManager m' = snd r /\
  textInput m' = textInput m /\ lastQuery m' = lastQuery m /\
  debounceTimer m' = debounceTimer m /\ quitting m' = quitting m /\
  err m' = None /\ cursor (list_ m') = cursor (list_ m) /\
  items (list_ m') =
    (if switched then []
     else match chosen with Some _ => items (list_ m) | None => [] end).
Proof.
  intros r chosen switched m'. unfold m', chosen, switched, handleQueryChange.
  change (pluginManager (set_err None m)) with (pluginManager m).
  fold r. destruct r as [[c sw] pm'].
  destruct sw, c; simpl; repeat split; reflexivity.
Qed.

(** What forwarding a message to the active plugin does to the model. *)
Lemma forwardToActive_effect (msg : tea.Msg) (cmds : list tea.Cmd) (m : model) :
  let m' := snd (forwardToActive msg cmds m) in
  (exists u, pluginManager m' = UpdatePluginInstance u (pluginManager m)) /\
  textInput m' = textInput m /\ lastQuery m' = lastQuery m /\
  debounceTimer m' = debounceTimer m /\ quitting m' = quitting m /\
  err m' = err m /\ list_ m' = list_ m.
Proof.
  unfold forwardToActive.
  destruct (GetCurrentPlugin (pluginManager m)) as [a|].
  - destruct (plugin.Update a msg) as [[u|] c]; simpl.
    + split; [exists (Some u); reflexivity|]. repeat split.
    + split; [exists None; reflexivity|]. repeat split.
  - simpl. split; [exists None; reflexivity|]. repeat split.
Qed.

Lemma listUpdate_items (msg : tea.Msg) (l : listModel) :
  items (listUpdate msg l) = items l.
Proof.
  unfold listUpdate.
  destruct msg as [[| | | | | |c]|w h| | | | |]; try reflexivity;
    try (destruct (Nat.ltb _ _); reflexivity).
  destruct c as [[] [] [] [] [] [] [] []]; try reflexivity;
    destruct (Nat.ltb _ _); reflexivity.
Qed.

Lemma Update_fallThrough_effect `{MapRange} (msg : tea.Msg) (m : model) :
  isFallThrough msg ->
  let m' := fst (Update msg m) in
  (exists u, pluginManager m' = UpdatePluginInstance u (pluginManager m)) /\
  textInput m' = textInputUpdate msg (textInput m) /\
  lastQuery m' =
    (if String.eqb (textInput m') (textInput m) then lastQuery m
     else textInput m') /\
  debounceTimer m' =
    (if String.eqb (textInput m') (textInput m) then debounceTimer m
     else true) /\
  quitting m' = quitting m /\ err m' = err m /\
  items (list_ m') = items (list_ m).
Proof.
  intros Hft.
  assert (Hbody :
    Update msg m =
      (let '(cmds1, m1) := forwardToActive msg [] m in
       let m2 := set_textInput (textInputUpdate msg (textInput m1)) m1 in
       let cmds2 := (cmds1 ++ [tea.widgetCmd])%list in
       let newQuery := textInput m2 in
       let '(cmds3, m3) :=
         if negb (String.eqb newQuery (textInput m)) then
           ((cmds2 ++ [tea.awaitDebounce])%list,
            set_debounceTimer true (set_lastQuery newQuery m2))
         else (cmds2, m2) in
       let m4 := set_list (listUpdate msg (list_ m3)) m3 in
       (m4, (cmds3 ++ [tea.widgetCmd])%list))).
  { destruct msg as [[]|w h| | | | |]; try contradiction; reflexivity. }
  rewrite Hbody. clear Hbody.
  pose proof (forwardToActive_effect msg [] m) as Hf.
  destruct (forwardToActive msg [] m) as [cmds1 m1]. simpl in Hf.
  destruct Hf as (Hpm & Ht & Hl & Hd & Hq & He & Hli).
  unfold set_list, set_textInput, set_debounceTimer, set_lastQuery.
  cbn [pluginManager list_ textInput err quitting debounceTimer lastQuery].
  rewrite Ht.
  destruct (String.eqb (textInputUpdate msg (textInput m)) (textInput m))
    eqn:E;
    cbn [negb fst pluginManager list_ textInput err quitting debounceTimer
         lastQuery];
    rewrite ?E; (split; [exact Hpm|]); repeat split; try assumption;
    rewrite listUpdate_items, Hli; reflexivity.
Qed.

(** What the loop of the window-size case does to the model, for any
    order of the keys: only the manager changes, by hand-backs of updated
    instances. *)
Lemma updateEach_effect (keywords : list string) (msg : tea.Msg)
    (cmds : list tea.Cmd) (m : model) :
  let m' := snd (updateEach keywords msg cmds m) in
  (registryInvariant (pluginManager m) ->
   registryInvariant (pluginManager m')) /\
  textInput m' = textInput m /\ lastQuery m' = lastQuery m /\
  debounceTimer m' = debounceTimer m /\ quitting m' = quitting m /\
  err m' = err m /\ list_ m' = list_ m /\
  width m' = width m /\ height m' = height m.
Proof.
  revert cmds m. induction keywords as [|kw rest IH]; intros cmds m.
  - simpl. split; [auto|repeat split].
  - simpl. destruct (plugins (pluginManager m) !! kw) as [pluginInstance|];
      [|apply IH].
    destruct (plugin.Update pluginInstance msg) as [u c].
    specialize (IH (appendCmd cmds c) (updatePluginState u m)).
    cbv zeta in IH.
    destruct IH as (Hinv & Ht & Hl & Hd & Hq & He & Hli & Hw & Hh).
    assert (Hpm : pluginManager (updatePluginState u m)
                  = UpdatePluginInstance u (pluginManager m)).
    { unfold updatePluginState. destruct u; reflexivity. }
    assert (Hrest : textInput (updatePluginState u m) = textInput m /\
                    lastQuery (updatePluginState u m) = lastQuery m /\
                    debounceTimer (updatePluginState u m) = debounceTimer m /\
                    quitting (updatePluginState u m) = quitting m /\
                    err (updatePluginState u m) = err m /\
                    list_ (updatePluginState u m) = list_ m /\
                    width (updatePluginState u m) = width m /\
                    height (updatePluginState u m) = height m).
    { unfold updatePluginState. destruct u; repeat split. }
    destruct Hrest as (Ht0 & Hl0 & Hd0 & Hq0 & He0 & Hli0 & Hw0 & Hh0).
    split.
    { intros H0. apply Hinv. rewrite Hpm.
      apply invariant_UpdatePluginInstance. exact H0. }
    repeat split; congruence.
Qed.

Lemma classic_fallThrough (msg : tea.Msg) :
  isFallThrough msg \/ ~ isFallThrough msg.
Proof. destruct msg as [[]|w h| | | | |]; simpl; tauto. Qed.

Lemma invariant_Update `{MapRange} (msg : tea.Msg) (m : model) :
  registryInvariant (pluginManager m) ->
  registryInvariant (pluginManager (fst (Update msg m))).
Proof.
  intros Hinv.
  assert (Hq : forall q m0, registryInvariant (pluginManager m0) ->
            registryInvariant (pluginManager (snd (handleQueryChange q m0)))).
  { intros q m0 H0.
    destruct (handleQueryChange_effect q m0) as (_ & -> & _).
    apply invariant_DetermineActivePlugin. exact H0. }
  assert (Hf : forall msg0 cmds m0, registryInvariant (pluginManager m0) ->
            registryInvariant (pluginManager (snd (forwardToActive msg0 cmds m0)))).
  { intros msg0 cmds m0 H0.
    destruct (forwardToActive_effect msg0 cmds m0) as ([u ->] & _).
    apply invariant_UpdatePluginInstance. exact H0. }
  destruct (classic_fallThrough msg) as [Hft|Hnf].
  { destruct (Update_fallThrough_effect msg m Hft) as ([u ->] & _).
    apply invariant_UpdatePluginInstance. exact Hinv. }
  destruct msg as [[| | | | | |c]|w h| |results e sw fq| | |]; try (exfalso; apply Hnf; exact I).
  - exact Hinv.
  - unfold Update.
    destruct (negb (String.eqb (textInput (set_debounceTimer false m)) "")).
    + specialize (Hq "" (set_err None (set_textInput "" (set_debounceTimer false m))) Hinv).
      destruct (handleQueryChange _ _) as [queryCmd m3].
      specialize (Hf tea.clearSummaryMsg (appendCmd [] queryCmd) m3 Hq).
      destruct (forwardToActive _ _ m3) as [cmds' m4]. exact Hf.
    + exact Hinv.
  - unfold Update. destruct (debounceTimer m).
    + specialize (Hq (textInput m) (set_debounceTimer false m) Hinv).
      destruct (handleQueryChange _ _) as [queryCmd m1].
      destruct (SelectedItem (list_ m1)); [|exact Hq].
      destruct (Execute _ _) as [c|]; [destruct (tea.returnsQuitMsg c)|];
        exact Hq.
    + destruct (SelectedItem (list_ m)); [|exact Hinv].
      destruct (Execute _ _) as [c|]; [destruct (tea.returnsQuitMsg c)|];
        exact Hinv.
  - unfold Update.
    pose proof (updateEach_effect
                  (rangeOver (plugins (pluginManager (set_size w h m)))).*1
                  (tea.WindowSizeMsg w h) [] (set_size w h m)) as He.
    destruct (updateEach _ _ _ _) as [cmds m2].
    apply (proj1 He). exact Hinv.
  - unfold Update. destruct (debounceTimer m).
    + specialize (Hq (lastQuery m) m Hinv).
      destruct (handleQueryChange _ _) as [queryCmd m1]. exact Hq.
    + exact Hinv.
  - unfold Update. destruct (negb _); [exact Hinv|].
    destruct e, sw; simpl; try exact Hinv;
      destruct (Nat.ltb _ _); exact Hinv.
Qed.

Lemma InitialModel_fields (pm : PluginManager) :
  pluginManager (InitialModel pm) = pm /\
  textInput (InitialModel pm) = "" /\ lastQuery (InitialModel pm) = "" /\
  debounceTimer (InitialModel pm) = false /\ quitting (InitialModel pm) = false.
Proof.
  unfold InitialModel. destruct (GetCurrentPlugin pm) as [d|]; [|auto].
  destruct (plugin.GetResults d "") as [results [e|]]; auto.
Qed.

(** X9.  The interaction loop keeps the registry invariant: starting from
    [InitialModel] on a manager built by calls that register consistent
    plugins, after any sequence of messages, window-size messages with
    their [Update] of every plugin included, and in whatever order the map
    of plugins is ranged over, the manager of the model still has every
    instance under its own non-empty keyword, a keyword list that mirrors
    the map longest first, and active and default plugins that are
    registered instances. *)
Theorem loop_keeps_registry `{MapRange} `{SliceSorter}
    (cs : list call) (msgs : list tea.Msg) :
  Forall consistentCall cs ->
  registryInvariant
    (pluginManager
       (deliver msgs (InitialModel (performAll cs NewPluginManager)))).
Proof.
  intros Hcs.
  assert (Hgen : forall m, registryInvariant (pluginManager m) ->
            registryInvariant (pluginManager (deliver msgs m))).
  { induction msgs as [|msg msgs IH]; intros m Hm; simpl; [exact Hm|].
    apply IH. apply invariant_Update. exact Hm. }
  apply Hgen. destruct (InitialModel_fields (performAll cs NewPluginManager))
    as (-> & _).
  apply invariant_reachable. exact Hcs.
Qed.

Lemma loop_keeps_registry_witness :
  registryInvariant
    (pluginManager
       (deliver [tea.WindowSizeMsg 80 24;
                 tea.KeyMsg (tea.KeyRune "!"); tea.KeyMsg (tea.KeyRune "w");
                 tea.processQueryMsg; tea.KeyMsg tea.KeyEsc]
                (InitialModel (performAll sampleCalls NewPluginManager)))).
Proof.
  apply (loop_keeps_registry sampleCalls). repeat constructor.
Defined.

(** A window-size message on a registry with the launcher and the counting
    plugin: the size is stored, the instance that the counting plugin hands
    back replaces it in the map, and its command is returned. *)
Example Update_windowSize_run :
  let pm := performAll [callRegisterPlugin applauncher;
                        callRegisterPlugin (counting 0)] NewPluginManager in
  let r1 := Update (tea.WindowSizeMsg 80 24) (InitialModel pm) in
  let r2 := Update (tea.WindowSizeMsg 100 30) (fst r1) in
  width (fst r1) = 80%Z /\ height (fst r1) = 24%Z /\
  plugins (pluginManager (fst r1)) !! "!c" = Some (counting 1) /\
  snd r1 = [tea.pluginCmd 0 None] /\
  plugins (pluginManager (fst r2)) !! "!c" = Some (counting 2) /\
  snd r2 = [] /\
  activePlugin (pluginManager (fst r2)) = Some applauncher.
Proof. vm_compute. repeat split. Qed.

Lemma Update_keeps_lastQuery_in_step `{MapRange}
    (msg : tea.Msg) (m : model) :
  msg <> tea.KeyMsg tea.KeyEsc ->
  lastQuery m = textInput m ->
  lastQuery (fst (Update msg m)) = textInput (fst (Update msg m)).
Proof.
  intros Hesc Hsync.
  destruct (classic_fallThrough msg) as [Hft|Hnf].
  { destruct (Update_fallThrough_effect msg m Hft) as (_ & Ht & Hl & _).
    rewrite Hl. destruct (String.eqb_spec (textInput (fst (Update msg m)))
                                          (textInput m)) as [He|Hne].
    - rewrite He. exact Hsync.
    - reflexivity. }
  destruct msg as [[| | | | | |c]|w h| |results e sw fq| | |];
    try (exfalso; apply Hnf; exact I); try congruence.
  - exact Hsync.
  - unfold Update. destruct (debounceTimer m).
    + destruct (handleQueryChange_effect (textInput m) (set_debounceTimer false m))
        as (_ & _ & Ht & Hl & _).
      destruct (handleQueryChange _ _) as [queryCmd m1]. simpl in Ht, Hl.
      destruct (SelectedItem (list_ m1)); [|simpl; congruence].
      destruct (Execute _ _) as [c|]; [destruct (tea.returnsQuitMsg c)|];
        simpl; congruence.
    + destruct (SelectedItem (list_ m)); [|exact Hsync].
      destruct (Execute _ _) as [c|]; [destruct (tea.returnsQuitMsg c)|];
        exact Hsync.
  - unfold Update.
    pose proof (updateEach_effect
                  (rangeOver (plugins (pluginManager (set_size w h m)))).*1
                  (tea.WindowSizeMsg w h) [] (set_size w h m)) as He.
    destruct (updateEach _ _ _ _) as [cmds m2].
    destruct He as (_ & Ht & Hl & _). simpl in Ht, Hl. simpl. congruence.
  - unfold Update. destruct (debounceTimer m).
    + destruct (handleQueryChange_effect (lastQuery m) m) as (_ & _ & Ht & Hl & _).
      destruct (handleQueryChange _ _) as [queryCmd m1]. simpl in *. congruence.
    + exact Hsync.
  - unfold Update. destruct (negb _); [exact Hsync|].
    destruct e, sw; simpl; try exact Hsync;
      destruct (Nat.ltb _ _); exact Hsync.
Qed.

(** X10.  As long as Escape is not pressed, [lastQuery] is the text of the
    input after every message, so the staleness guard compares with the
    current text: results computed for any other query are dropped and
    leave the model as it is. *)
Theorem lastQuery_follows_text `{MapRange}
    (pm : PluginManager) (msgs : list tea.Msg) :
  tea.KeyMsg tea.KeyEsc ∉ msgs ->
  let m := deliver msgs (InitialModel pm) in
  lastQuery m = textInput m /\
  forall results e pluginSwitched forQuery,
    forQuery <> textInput m ->
    Update (tea.resultsMsg results e pluginSwitched forQuery) m = (m, []).
Proof.
  intros Hesc m.
  assert (Hsync : lastQuery m = textInput m).
  { unfold m.
    assert (Hgen : forall m0, lastQuery m0 = textInput m0 ->
              lastQuery (deliver msgs m0) = textInput (deliver msgs m0)).
    { clear m. induction msgs as [|msg msgs IH]; intros m0 H0; simpl; [exact H0|].
      apply IH.
      - intros Hin. apply Hesc. right. exact Hin.
      - apply Update_keeps_lastQuery_in_step; [|exact H0].
        intros ->. apply Hesc. left. }
    apply Hgen. destruct (InitialModel_fields pm) as (_ & -> & -> & _).
    reflexivity. }
  split; [exact Hsync|].
  intros results e sw fq Hne. apply Update_results_stale. congruence.
Qed.

Lemma lastQuery_follows_text_witness :
  lastQuery
    (deliver [tea.KeyMsg (tea.KeyRune "a"); tea.KeyMsg tea.KeyBackspace;
              tea.KeyMsg (tea.KeyRune "b"); tea.processQueryMsg]
             (InitialModel (performAll sampleCalls NewPluginManager)))
  = textInput
      (deliver [tea.KeyMsg (tea.KeyRune "a"); tea.KeyMsg tea.KeyBackspace;
                tea.KeyMsg (tea.KeyRune "b"); tea.processQueryMsg]
               (InitialModel (performAll sampleCalls NewPluginManager))).
Proof.
  apply (lastQuery_follows_text (performAll sampleCalls NewPluginManager)
           [tea.KeyMsg (tea.KeyRune "a"); tea.KeyMsg tea.KeyBackspace;
            tea.KeyMsg (tea.KeyRune "b"); tea.processQueryMsg]).
  intros Hin. repeat (apply elem_of_cons in Hin as [Hin|Hin]; [discriminate|]).
  inversion Hin.
Defined.

(** X11.  A results message for [lastQuery] is taken: with an error the
    list is emptied and the error kept; without, the list shows exactly the
    results, in order, and the error is cleared; the cursor goes to the
    first item when the plugin switched or the list is not empty.  The
    manager, the text, [lastQuery], the timer and [quitting] are untouched
    and no command is returned. *)
Theorem Update_results_taken `{MapRange} (m : model) (results : list Result)
    (e : option error) (pluginSwitched : bool) :
  let m' := fst (Update (tea.resultsMsg results e pluginSwitched (lastQuery m)) m) in
  snd (Update (tea.resultsMsg results e pluginSwitched (lastQuery m)) m) = [] /\
  err m' = e /\
  items (list_ m') =
    match e with Some _ => [] | None => map toListItem results end /\
  cursor (list_ m') =
    (if pluginSwitched || Nat.ltb 0 (List.length (items (list_ m'))) then 0
     else cursor (list_ m)) /\
  pluginManager m' = pluginManager m /\ textInput m' = textInput m /\
  lastQuery m' = lastQuery m /\ debounceTimer m' = debounceTimer m /\
  quitting m' = quitting m.
Proof.
  unfold Update. rewrite String.eqb_refl. simpl.
  destruct e as [x|], pluginSwitched; simpl; try (repeat split; reflexivity).
  destruct (map toListItem results) as [|i l] eqn:Hl; simpl; rewrite ?Hl;
    repeat split; reflexivity.
Qed.

(** X12.  The debounce message: without a pending timer it changes nothing
    and asks for nothing; with one it routes [lastQuery], clears the timer
    and returns one fetch for [lastQuery] carrying the switched flag, or no
    command when routing found no plugin; the shown items are dropped when
    the plugin switched or none was found. *)
Theorem Update_processQuery `{MapRange} (m : model) :
  (debounceTimer m = false -> Update tea.processQueryMsg m = (m, [])) /\
  (debounceTimer m = true ->
   let r := DetermineActivePlugin (lastQuery m) (pluginManager m) in
   let m' := fst (Update tea.processQueryMsg m) in
   snd (Update tea.processQueryMsg m) =
     match fst (fst r) with
     | Some _ => [tea.fetchResults (lastQuery m) (snd (fst r))]
     | None => []
     end /\
   pluginManager m' = snd r /\ debounceTimer m' = false /\
   textInput m' = textInput m /\ lastQuery m' = lastQuery m /\
   items (list_ m') =
     (if snd (fst r) then []
      else match fst (fst r) with Some _ => items (list_ m) | None => [] end)).
Proof.
  split.
  - intros Ht. unfold Update. rewrite Ht.
    destruct m; simpl in *; subst; reflexivity.
  - intros Ht r m'. unfold m', Update. rewrite Ht.
    destruct (handleQueryChange_effect (lastQuery m) m)
      as (Hc & Hpm & Htx & Hl & _ & _ & _ & _ & Hi).
    fold r in Hc, Hpm, Hi.
    destruct (handleQueryChange (lastQuery m) m) as [queryCmd m1].
    cbn [fst snd] in Hc, Hpm, Htx, Hl, Hi. unfold set_debounceTimer.
    cbn [fst snd pluginManager debounceTimer textInput lastQuery list_].
    subst queryCmd.
    split; [destruct (fst (fst r)); reflexivity|]. auto.
Qed.

Lemma Update_processQuery_witness :
  Update tea.processQueryMsg
         (InitialModel (performAll sampleCalls NewPluginManager))
    = (InitialModel (performAll sampleCalls NewPluginManager), []).
Proof.
  apply (proj1 (Update_processQuery
                  (InitialModel (performAll sampleCalls NewPluginManager)))).
  reflexivity.
Defined.




(** X14.  Enter with a pending debounce first routes the text.  When that
    routing switches the plugin (or finds none), the list has been emptied
    and nothing is executed: the only command is the fetch for the text.
    When it does not switch and an item is selected, the identifier of that
    item goes unchanged to [Execute] of the plugin routing returned, the
    command of [Execute] is the only command returned (the fetch is
    dropped), and the model is quitting afterwards exactly when it was
    before or the command, run by [Update], returns [tea.QuitMsg{}]: so for
    [tea.Quit], and so for any command of the plugin that returns that
    message. *)
Theorem Update_enter_flush `{MapRange} (m : model) :
  debounceTimer m = true ->
  let r := DetermineActivePlugin (textInput m) (pluginManager m) in
  let m' := fst (Update (tea.KeyMsg tea.KeyEnter) m) in
  let cmds := snd (Update (tea.KeyMsg tea.KeyEnter) m) in
  pluginManager m' = snd r /\ debounceTimer m' = false /\
  (snd (fst r) = true \/ fst (fst r) = None ->
   items (list_ m') = [] /\ quitting m' = quitting m /\
   cmds = match fst (fst r) with
          | Some _ => [tea.fetchResults (textInput m) (snd (fst r))]
          | None => []
          end) /\
  (forall p item,
     snd (fst r) = false -> fst (fst r) = Some p ->
     SelectedItem (list_ m) = Some item ->
     cmds = appendCmd [] (plugin.Execute p (identifier item)) /\
     quitting m' =
       (match plugin.Execute p (identifier item) with
        | Some cmd => tea.returnsQuitMsg cmd || quitting m
        | None => quitting m
        end) /\
     (plugin.Execute p (identifier item) = Some tea.Quit ->
      quitting m' = true) /\
     (forall tag,
        plugin.Execute p (identifier item)
          = Some (tea.pluginCmd tag (Some tea.QuitMsg)) ->
        quitting m' = true)).
Proof.
  intros Ht r m' cmds. unfold m', cmds, Update. rewrite Ht.
  destruct (handleQueryChange_effect (textInput m) (set_debounceTimer false m))
    as (Hc & Hpm & _ & _ & Hd & Hq & _ & Hcur & Hi).
  change (pluginManager (set_debounceTimer false m)) with (pluginManager m)
    in Hc, Hpm, Hi.
  change (list_ (set_debounceTimer false m)) with (list_ m) in Hcur, Hi.
  change (debounceTimer (set_debounceTimer false m)) with false in Hd.
  change (quitting (set_debounceTimer false m)) with (quitting m) in Hq.
  fold r in Hc, Hpm, Hi.
  pose proof (GetCurrentPlugin_after_routing (textInput m) (pluginManager m))
    as Hgc. fold r in Hgc.
  destruct (handleQueryChange (textInput m) (set_debounceTimer false m))
    as [queryCmd m1].
  cbn [fst snd] in Hc, Hpm, Hd, Hq, Hcur, Hi. subst queryCmd.
  assert (Hsel : SelectedItem (list_ m1) =
            if snd (fst r) then None
            else match fst (fst r) with
                 | Some _ => SelectedItem (list_ m)
                 | None => None
                 end).
  { unfold SelectedItem. rewrite Hi, Hcur.
    destruct (snd (fst r)); [reflexivity|].
    destruct (fst (fst r)); reflexivity. }
  split.
  { destruct (SelectedItem (list_ m1)); [|exact Hpm].
    destruct (Execute _ _) as [c|]; [destruct (tea.returnsQuitMsg c)|];
      exact Hpm. }
  split.
  { destruct (SelectedItem (list_ m1)); [|exact Hd].
    destruct (Execute _ _) as [c|]; [destruct (tea.returnsQuitMsg c)|];
      exact Hd. }
  split.
  - intros Hsw. rewrite Hsel.
    assert (Hnone : (if snd (fst r) then None
                     else match fst (fst r) with
                          | Some _ => SelectedItem (list_ m)
                          | None => None
                          end) = None).
    { destruct Hsw as [->| ->]; [reflexivity|].
      destruct (snd (fst r)); reflexivity. }
    rewrite Hnone. cbn [fst snd].
    split; [|split; [exact Hq|]].
    + rewrite Hi. destruct Hsw as [->| ->]; [reflexivity|].
      destruct (snd (fst r)); reflexivity.
    + destruct (fst (fst r)); reflexivity.
  - intros p item Hsw Hp Hit. rewrite Hsel, Hsw, Hp, Hit.
    unfold Execute. rewrite Hpm, Hgc, Hp. cbn [fst snd].
    split; [reflexivity|].
    assert (Hquit :
      quitting
        (match plugin.Execute p (identifier item) with
         | Some cmd =>
             if tea.returnsQuitMsg cmd then set_quitting true m1 else m1
         | None => m1
         end) =
      match plugin.Execute p (identifier item) with
      | Some cmd => tea.returnsQuitMsg cmd || quitting m
      | None => quitting m
      end).
    { destruct (plugin.Execute p (identifier item)) as [c|]; [|exact Hq].
      destruct (tea.returnsQuitMsg c); [reflexivity|exact Hq]. }
    split; [exact Hquit|].
    split; [intros He|intros tag He]; rewrite Hquit, He; reflexivity.
Qed.

Lemma Update_enter_flush_witness :
  debounceTimer
    (fst (Update (tea.KeyMsg tea.KeyEnter)
            (deliver [tea.KeyMsg (tea.KeyRune "=")]
                     (InitialModel (performAll sampleCalls NewPluginManager)))))
    = false.
Proof.
  apply (Update_enter_flush
           (deliver [tea.KeyMsg (tea.KeyRune "=")]
              (InitialModel (performAll sampleCalls NewPluginManager)))).
  reflexivity.
Defined.

(** ** The loader, file by file *)

(** The loop only appends to what is loaded. *)
Lemma loadFiles_from (files : list yaegi.DirEntry)
    (loaded : list Instance) :
  yaegi.loadFiles files loaded =
    match yaegi.loadFiles files [] with
    | yaegi.returned ps e => yaegi.returned (loaded ++ ps) e
    | yaegi.panicked => yaegi.panicked
    end.
Proof.
  revert loaded. induction files as [|f files IH]; intros loaded.
  - simpl. rewrite app_nil_r. reflexivity.
  - destruct (loadFiles_turn f) as [E|[[p E]|E]]; rewrite !E.
    + apply IH.
    + rewrite (IH (loaded ++ [p])%list), (IH ([] ++ [p])%list).
      destruct (yaegi.loadFiles files []); [|reflexivity].
      rewrite <- app_assoc. reflexivity.
    + reflexivity.
Qed.

(** [loadFiles] on a listing in two parts. *)
Lemma loadFiles_app (files1 files2 : list yaegi.DirEntry) :
  yaegi.loadFiles (files1 ++ files2) [] =
    match yaegi.loadFiles files1 [], yaegi.loadFiles files2 [] with
    | yaegi.returned ps1 _, yaegi.returned ps2 e =>
        yaegi.returned (ps1 ++ ps2) e
    | _, _ => yaegi.panicked
    end.
Proof.
  assert (Hgen : forall loaded,
    yaegi.loadFiles (files1 ++ files2) loaded =
      match yaegi.loadFiles files1 loaded with
      | yaegi.returned ps1 _ => yaegi.loadFiles files2 ps1
      | yaegi.panicked => yaegi.panicked
      end).
  { induction files1 as [|f files1 IH]; intros loaded; [reflexivity|].
    rewrite <- app_comm_cons.
    destruct (loadFiles_turn f) as [E|[[p E]|E]]; rewrite !E;
      [apply IH|apply IH|reflexivity]. }
  rewrite Hgen.
  destruct (yaegi.loadFiles files1 []) as [ps1 e1|]; [|reflexivity].
  rewrite loadFiles_from.
  destruct (yaegi.loadFiles files2 []); reflexivity.
Qed.

(** X15.  Loading is file by file and keeps the order of the listing: the
    outcome on a listing in two parts is the outcome on the first part
    followed by the outcome on the second, with the error of the second,
    and a panic in either part is a panic of the whole. *)
Theorem loadFiles_concatenates (files1 files2 : list yaegi.DirEntry) :
  yaegi.loadFiles (files1 ++ files2) [] =
    match yaegi.loadFiles files1 [], yaegi.loadFiles files2 [] with
    | yaegi.returned ps1 _, yaegi.returned ps2 e =>
        yaegi.returned (ps1 ++ ps2) e
    | _, _ => yaegi.panicked
    end.
Proof. exact (loadFiles_app files1 files2). Qed.

Lemma decide_panic (files : list yaegi.DirEntry) :
  (exists f, f ∈ files /\ panicsOnLoad f) \/
  (forall f, f ∈ files -> ~ panicsOnLoad f).
Proof.
  induction files as [|f files IH].
  - right. intros f Hin. inversion Hin.
  - destruct IH as [(g & Hg & Hp)|Hno].
    { left. exists g. split; [right; exact Hg|exact Hp]. }
    assert (Hf : panicsOnLoad f \/ ~ panicsOnLoad f).
    { destruct (loadFiles_step f [] []) as [[E _]|[(p & _ & E)|Hp]].
      - right. intros Hp.
        rewrite (loadFiles_panics f [] [] Hp) in E. discriminate.
      - right. intros Hp.
        rewrite (loadFiles_panics f [] [] Hp) in E. discriminate.
      - left. exact Hp. }
    destruct Hf as [Hp|Hn].
    + left. exists f. split; [left|exact Hp].
    + right. intros g Hg. apply elem_of_cons in Hg as [->|Hg];
        [exact Hn|exact (Hno g Hg)].
Qed.

(** X16.  The loader panics exactly when the listing has a candidate whose
    code panics while it is loaded: its constructor is reached and panics,
    or the instance it constructs panics in one of the calls [Metadata()],
    [Name()], [Keyword()] that the loader makes on it.  Then start-up
    panics as well, whatever the other files and the built-in plugins
    are. *)
Theorem loader_panics_iff `{SliceSorter} (files : list yaegi.DirEntry) :
  (yaegi.loadFiles files [] = yaegi.panicked <->
   exists f, f ∈ files /\ panicsOnLoad f) /\
  (forall builtInPlugins flag pm,
     (exists f, f ∈ files /\ panicsOnLoad f) ->
     main.registerPlugins builtInPlugins (pluginDir files) flag pm
       = main.crashed).
Proof.
  assert (Hiff : yaegi.loadFiles files [] = yaegi.panicked <->
                 exists f, f ∈ files /\ panicsOnLoad f).
  { split.
    - intros Hp.
      destruct (decide_panic files) as [Hex|Hno]; [exact Hex|].
      destruct (loadFiles_no_panic files [] Hno) as (ps & Hps & _).
      rewrite Hps in Hp. discriminate.
    - intros (f & Hin & Hf).
      apply list_elem_of_split in Hin as (l1 & l2 & ->).
      rewrite loadFiles_app.
      destruct (yaegi.loadFiles l1 []); [|reflexivity].
      rewrite (loadFiles_panics f l2 [] Hf). reflexivity. }
  split; [exact Hiff|].
  intros builtInPlugins flag pm Hex.
  unfold main.registerPlugins, yaegi.LoadPlugins. simpl.
  rewrite (proj2 Hiff Hex). reflexivity.
Qed.

Lemma string_app_cons (c : ascii) (a b : string) :
  String c a ++ b = String c (a ++ b).
Proof. reflexivity. Qed.

Lemma string_prefix_iff (p s : string) :
  String.prefix p s = true <-> exists r, s = p ++ r.
Proof.
  revert s. induction p as [|c p IH]; intros s.
  - split; [intros _; exists s; reflexivity|].
    intros _. destruct s; reflexivity.
  - destruct s as [|d s].
    + split; [discriminate|intros [r Hr]; discriminate].
    + change (String.prefix (String c p) (String d s))
        with (if ascii_dec c d then String.prefix p s else false).
      destruct (ascii_dec c d) as [->|Hne].
      * rewrite IH. split; intros [r Hr]; exists r;
          rewrite string_app_cons in *; congruence.
      * split; [discriminate|].
        intros [r Hr]. rewrite string_app_cons in Hr. congruence.
Qed.

Lemma string_app_assoc (a b c : string) : (a ++ b) ++ c = a ++ (b ++ c).
Proof.
  induction a as [|x a IH]; [reflexivity|].
  rewrite !string_app_cons, IH. reflexivity.
Qed.

Lemma string_app_empty_r (a : string) : a ++ "" = a.
Proof.
  induction a as [|x a IH]; [reflexivity|]. rewrite string_app_cons, IH. reflexivity.
Qed.

Lemma string_rev_app (a b : string) : String.rev_app a b = String.rev a ++ b.
Proof.
  unfold String.rev. revert b. induction a as [|x a IH]; intros b.
  - reflexivity.
  - change (String.rev_app (String x a) b) with (String.rev_app a (String x b)).
    change (String.rev_app (String x a) "") with (String.rev_app a (String x "")).
    rewrite (IH (String x b)), (IH (String x "")), string_app_assoc. reflexivity.
Qed.

Lemma string_rev_cons (x : ascii) (a : string) :
  String.rev (String x a) = String.rev a ++ String x "".
Proof.
  unfold String.rev at 1.
  change (String.rev_app (String x a) "") with (String.rev_app a (String x "")).
  apply string_rev_app.
Qed.

Lemma string_rev_append (a b : string) : String.rev (a ++ b) = String.rev b ++ String.rev a.
Proof.
  induction a as [|x a IH].
  - change (String.rev "") with "". rewrite string_app_empty_r. reflexivity.
  - rewrite string_app_cons, !string_rev_cons, IH, string_app_assoc. reflexivity.
Qed.

Lemma string_rev_involutive (a : string) : String.rev (String.rev a) = a.
Proof.
  induction a as [|x a IH]; [reflexivity|].
  rewrite string_rev_cons, string_rev_append, IH. reflexivity.
Qed.

(** [HasSuffix] is the test for an ending. *)
Lemma HasSuffix_iff (s suffix : string) :
  yaegi.HasSuffix s suffix = true <-> exists pre, s = pre ++ suffix.
Proof.
  unfold yaegi.HasSuffix. rewrite string_prefix_iff. split.
  - intros [r Hr]. exists (String.rev r).
    rewrite <- (string_rev_involutive s), Hr, string_rev_append, string_rev_involutive. reflexivity.
  - intros [pre ->]. exists (String.rev pre). apply string_rev_append.
Qed.

(** X17.  A directory, a file whose name does not end in [.go], and a file
    for which the interpreter cannot load the symbols are passed over
    without being read or evaluated: the load ends as it would without the
    entry, even when its source would panic.  The name test is the test for
    the ending [.go]. *)
Theorem loader_passes_over (before after : list yaegi.DirEntry)
    (entry : yaegi.DirEntry) (loaded : list Instance) :
  yaegi.IsDir entry = true \/
  (forall stem, yaegi.Name entry <> stem ++ ".go") \/
  is_Some (yaegi.useStdlib entry) \/ is_Some (yaegi.useSymbols entry) ->
  yaegi.loadFiles (before ++ entry :: after) loaded
    = yaegi.loadFiles (before ++ after) loaded.
Proof.
  intros Hskip.
  assert (Hone : forall rest l,
            yaegi.loadFiles (entry :: rest) l = yaegi.loadFiles rest l).
  { intros rest l. simpl.
    destruct Hskip as [Hd|[Hn|[[e He]|[e He]]]].
    - rewrite Hd. reflexivity.
    - destruct (yaegi.HasSuffix (yaegi.Name entry) ".go") eqn:Hs.
      + apply HasSuffix_iff in Hs as [stem Hs]. exfalso. exact (Hn stem Hs).
      + rewrite orb_true_r. reflexivity.
    - destruct (_ || _); [reflexivity|]. rewrite He. reflexivity.
    - destruct (_ || _); [reflexivity|].
      destruct (yaegi.useStdlib entry); [reflexivity|]. rewrite He. reflexivity. }
  revert loaded. induction before as [|f before IH]; intros loaded.
  - apply Hone.
  - rewrite <- !app_comm_cons.
    destruct (loadFiles_turn f) as [E|[[p E]|E]]; rewrite !E;
      [apply IH|apply IH|reflexivity].
Qed.

Lemma loader_passes_over_witness :
  yaegi.loadFiles
    [yaegi.mkDirEntry true "dir.go" None None
       (Some (yaegi.mkSource None (Some (yaegi.funcNew yaegi.constructorPanics))));
     helloFile] []
  = yaegi.loadFiles [helloFile] [].
Proof.
  apply (loader_passes_over [] [helloFile]
           (yaegi.mkDirEntry true "dir.go" None None
              (Some (yaegi.mkSource None
                       (Some (yaegi.funcNew yaegi.constructorPanics))))) []).
  left. reflexivity.
Defined.

(** ** The flag and the start-up list *)

Lemma splitComma_nonempty (s : string) : main.splitComma s <> [].
Proof.
  induction s as [|c s IH]; simpl; [discriminate|].
  destruct (Ascii.eqb c ","); [discriminate|].
  destruct (main.splitComma s); [contradiction|discriminate].
Qed.

Lemma splitComma_join (s : string) : joinComma (main.splitComma s) = s.
Proof.
  induction s as [|c s IH]; [reflexivity|]. simpl.
  destruct (Ascii.eqb_spec c ",") as [->|Hne].
  - pose proof (splitComma_nonempty s) as Hn.
    destruct (main.splitComma s) as [|h t]; [contradiction|].
    change (joinComma ("" :: h :: t)) with ("" ++ "," ++ joinComma (h :: t)).
    rewrite IH. reflexivity.
  - pose proof (splitComma_nonempty s) as Hn.
    destruct (main.splitComma s) as [|h t]; [contradiction|].
    destruct t as [|h2 t].
    + simpl in *. congruence.
    + change (joinComma (String c h :: h2 :: t))
        with (String c h ++ "," ++ joinComma (h2 :: t)).
      change (joinComma (h :: h2 :: t)) with (h ++ "," ++ joinComma (h2 :: t)) in IH.
      rewrite string_app_cons, IH. reflexivity.
Qed.

Lemma splitComma_no_comma (s piece : string) :
  piece ∈ main.splitComma s -> hasByte "," piece = false.
Proof.
  revert piece. induction s as [|c s IH]; intros piece Hin; simpl in Hin.
  - apply list_elem_of_singleton in Hin. subst. reflexivity.
  - destruct (Ascii.eqb c ",") eqn:Hc.
    + apply elem_of_cons in Hin as [->|Hin]; [reflexivity|auto].
    + pose proof (splitComma_nonempty s) as Hn.
      destruct (main.splitComma s) as [|h t]; [contradiction|].
      apply elem_of_cons in Hin as [->|Hin].
      * simpl. rewrite Hc. apply IH. left.
      * apply IH. right. exact Hin.
Qed.

Lemma foldl_enabled (pieces : list string) (acc : gset string) (f : string) :
  f ∈ foldl (fun enabledPlugins piece =>
               let trimmedFlag := TrimSpace piece in
               if String.eqb trimmedFlag "" then enabledPlugins
               else {[trimmedFlag]} ∪ enabledPlugins) acc pieces
  <-> f ∈ acc \/ (f <> "" /\ exists piece, piece ∈ pieces /\ TrimSpace piece = f).
Proof.
  revert acc. induction pieces as [|piece pieces IH]; intros acc; simpl.
  - split; [auto|]. intros [Hin|(_ & p & Hp & _)]; [exact Hin|inversion Hp].
  - rewrite IH. destruct (String.eqb_spec (TrimSpace piece) "") as [He|Hne].
    + split.
      * intros [Hin|(Hf & p & Hp & Ht)]; [auto|].
        right. split; [exact Hf|]. exists p. split; [right; exact Hp|exact Ht].
      * intros [Hin|(Hf & p & Hp & Ht)]; [auto|].
        apply elem_of_cons in Hp as [->|Hp]; [congruence|].
        right. split; [exact Hf|]. eauto.
    + rewrite elem_of_union, elem_of_singleton. split.
      * intros [[->|Hin]|(Hf & p & Hp & Ht)].
        -- right. split; [exact Hne|]. exists piece. split; [left|reflexivity].
        -- auto.
        -- right. split; [exact Hf|]. exists p. split; [right; exact Hp|exact Ht].
      * intros [Hin|(Hf & p & Hp & Ht)]; [auto|].
        apply elem_of_cons in Hp as [->|Hp]; [auto|].
        right. split; [exact Hf|]. eauto.
Qed.

(** A name is enabled exactly when it is a non-empty trimmed piece of the
    flag value. *)
Lemma parseEnabledPlugins_mem (flagValue f : string) :
  f ∈ main.parseEnabledPlugins flagValue <->
  f <> "" /\
  exists piece, piece ∈ main.splitComma flagValue /\ TrimSpace piece = f.
Proof.
  unfold main.parseEnabledPlugins.
  destruct (String.eqb_spec flagValue "") as [->|Hne].
  - split; [intros Hin; inversion Hin|].
    intros (Hf & piece & Hp & Ht). simpl in Hp.
    apply list_elem_of_singleton in Hp. subst piece.
    exfalso. apply Hf. symmetry. exact Ht.
  - rewrite foldl_enabled. split; [|auto].
    intros [Hin|Hr]; [inversion Hin|exact Hr].
Qed.

Lemma parseEnabledPlugins_no_empty (flagValue : string) :
  "" ∉ main.parseEnabledPlugins flagValue.
Proof.
  intros Hin. apply parseEnabledPlugins_mem in Hin as [Hne _]. congruence.
Qed.

(** X18.  The flag value is read as a comma-separated list: its pieces
    contain no comma and give the value back when joined with commas; a name
    is enabled exactly when it is not empty and is some piece with the
    white space around it removed.  The empty name is never enabled, so
    empty pieces (a trailing comma, an empty flag) enable nothing. *)
Theorem parseEnabledPlugins_spec (flagValue : string) :
  joinComma (main.splitComma flagValue) = flagValue /\
  (forall piece, piece ∈ main.splitComma flagValue ->
                 hasByte "," piece = false) /\
  (forall f, f ∈ main.parseEnabledPlugins flagValue <->
     f <> "" /\
     exists piece, piece ∈ main.splitComma flagValue /\ TrimSpace piece = f) /\
  "" ∉ main.parseEnabledPlugins flagValue.
Proof.
  split; [apply splitComma_join|].
  split; [apply splitComma_no_comma|].
  split; [intros f; apply parseEnabledPlugins_mem|].
  apply parseEnabledPlugins_no_empty.
Qed.

(** X19.  Who registers at start-up: a mandatory plugin always, whatever
    the flag; a plugin with an empty flag name only when it is mandatory;
    any other plugin exactly when its flag name is a trimmed piece of the
    flag value. *)
Theorem shouldRegister_spec (metadata : Meta.t) (flagValue : string) :
  let enabled := main.parseEnabledPlugins flagValue in
  (Meta.IsMandatory metadata = true ->
   main.shouldRegister metadata enabled = true) /\
  (Meta.Flag metadata = "" ->
   main.shouldRegister metadata enabled = Meta.IsMandatory metadata) /\
  (Meta.IsMandatory metadata = false -> Meta.Flag metadata <> "" ->
   (main.shouldRegister metadata enabled = true <->
    exists piece, piece ∈ main.splitComma flagValue /\
                  TrimSpace piece = Meta.Flag metadata)).
Proof.
  intros enabled. unfold main.shouldRegister.
  pose proof (parseEnabledPlugins_mem flagValue) as Hmem.
  pose proof (parseEnabledPlugins_no_empty flagValue) as Hempty.
  fold enabled in Hmem, Hempty.
  split; [intros ->; reflexivity|]. split.
  - intros ->. rewrite (bool_decide_eq_false_2 _ Hempty).
    apply orb_false_r.
  - intros -> Hne. simpl. rewrite bool_decide_eq_true, Hmem. tauto.
Qed.

Lemma shouldRegister_spec_witness :
  main.shouldRegister (Metadata wikipedia)
    (main.parseEnabledPlugins "hello, wikipedia") = true.
Proof.
  apply (proj2 (proj2 (shouldRegister_spec (Metadata wikipedia)
                         "hello, wikipedia"))).
  - reflexivity.
  - discriminate.
  - exists " wikipedia". split; [|reflexivity].
    right. left.
Defined.

Section StartupList.
Context {sorter : SliceSorter}.

Lemma registering_cons (p : Instance) rest enabled :
  registering (p :: rest) enabled =
    if main.shouldRegister (Metadata (asPlugin p)) enabled
    then asPlugin p :: registering rest enabled
    else registering rest enabled.
Proof.
  unfold registering. rewrite fmap_cons, filter_cons.
  destruct (main.shouldRegister (Metadata (asPlugin p)) enabled);
    destruct (decide _); congruence.
Qed.

Lemma registerEach_skip p rest enabled pm :
  panicsAt p registeredMetadata = false ->
  main.shouldRegister (Metadata (asPlugin p)) enabled = false ->
  main.registerEach (p :: rest) enabled pm =
    main.registerEach rest enabled
      (snd (RegisterMetadata (Metadata (asPlugin p)) pm)).
Proof.
  intros Hm Hs. rewrite registerEach_cons, Hm, Hs.
  unfold main.shouldRegister in Hs. apply orb_false_iff in Hs as [-> _].
  reflexivity.
Qed.

(** The enabled map after a start-up that returns. *)
Lemma registerEach_plugins allPlugins enabled pm pm' :
  main.registerEach allPlugins enabled pm = main.started pm' ->
  (forall k q, plugins pm' !! k = Some q <->
     plugins pm !! k = Some q \/
     (q ∈ registering allPlugins enabled /\ Meta.Keyword (Metadata q) = k)) /\
  NoDup ((fun p => Meta.Keyword (Metadata p)) <$>
           registering allPlugins enabled) /\
  (forall p, p ∈ registering allPlugins enabled ->
     Meta.Keyword (Metadata p) <> "" /\
     plugins pm !! Meta.Keyword (Metadata p) = None) /\
  (forall p, p ∈ allPlugins -> panicsAt p registeredMetadata = false).
Proof.
  revert pm. induction allPlugins as [|i rest IH]; intros pm Hrun.
  - injection Hrun as <-. split; [|split; [|split]].
    + intros k q. split; [auto|]. intros [Hq|[Hin _]]; [exact Hq|inversion Hin].
    + constructor.
    + intros p Hin. inversion Hin.
    + intros p Hin. inversion Hin.
  - rewrite registering_cons.
    apply registerEach_started in Hrun as [Hmeta Hrun].
    assert (Hret : forall rest', (forall p, p ∈ rest' ->
                     panicsAt p registeredMetadata = false) ->
                   forall p, p ∈ i :: rest' ->
                     panicsAt p registeredMetadata = false).
    { intros rest' Hr p Hp. apply elem_of_cons in Hp as [->|Hp]; auto. }
    set (p := asPlugin i) in *.
    destruct (main.shouldRegister (Metadata p) enabled) eqn:Hs.
    + destruct Hrun as (pm1 & Hreg & Hrun).
      destruct (RegisterPlugin_accepted_fields p pm pm1 Hreg)
        as (Hne & Hfree & Hat & Hother & _).
      destruct (IH pm1 Hrun) as (Hmap & Hnd & Hfresh & Hall).
      assert (Hnotin : forall q, q ∈ registering rest enabled ->
                Meta.Keyword (Metadata q) <> Meta.Keyword (Metadata p)).
      { intros q Hq He. destruct (Hfresh q Hq) as [_ Hnone].
        rewrite He, Hat in Hnone. discriminate. }
      split; [|split; [|split]].
      * intros k q. rewrite Hmap. split.
        -- intros [Hq|[Hin Hk]].
           ++ destruct (decide (k = Meta.Keyword (Metadata p))) as [->|Hk].
              ** rewrite Hat in Hq. injection Hq as <-. right. split; [left|reflexivity].
              ** rewrite (Hother k Hk) in Hq. left. exact Hq.
           ++ right. split; [right; exact Hin|exact Hk].
        -- intros [Hq|[Hin Hk]].
           ++ left. rewrite Hother; [exact Hq|]. intros ->. congruence.
           ++ apply elem_of_cons in Hin as [->|Hin].
              ** left. rewrite <- Hk. exact Hat.
              ** right. auto.
      * rewrite fmap_cons. apply NoDup_cons. split; [|exact Hnd].
        intros Hin. apply list_elem_of_fmap in Hin as (q & He & Hq).
        apply (Hnotin q Hq). symmetry. exact He.
      * intros q Hq. apply elem_of_cons in Hq as [->|Hq]; [auto|].
        destruct (Hfresh q Hq) as [Hqne Hnone]. split; [exact Hqne|].
        rewrite <- (Hother _ (Hnotin q Hq)). exact Hnone.
      * apply Hret. exact Hall.
    + assert (Hmand : Meta.IsMandatory (Metadata p) = false).
      { unfold main.shouldRegister in Hs. apply orb_false_iff in Hs. tauto. }
      rewrite Hmand in Hrun. simpl in Hrun.
      destruct (IH _ Hrun) as (Hmap & Hnd & Hfresh & Hall).
      rewrite RegisterMetadata_plugins in Hmap, Hfresh.
      split; [exact Hmap|]. split; [exact Hnd|].
      split; [exact Hfresh|]. apply Hret. exact Hall.
Qed.

(** X20.  After a start-up that returns, the enabled map holds exactly the
    plugins that register, each under the keyword of its metadata; their
    keywords are not empty and pairwise different. *)
Theorem startup_registers_exactly (allPlugins : list Instance)
    (enabled : gset string) (pm : PluginManager) :
  main.registerEach allPlugins enabled NewPluginManager = main.started pm ->
  (forall p, p ∈ registering allPlugins enabled ->
     plugins pm !! Meta.Keyword (Metadata p) = Some p /\
     Meta.Keyword (Metadata p) <> "") /\
  (forall k q, plugins pm !! k = Some q ->
     q ∈ registering allPlugins enabled /\ Meta.Keyword (Metadata q) = k) /\
  NoDup ((fun p => Meta.Keyword (Metadata p)) <$>
           registering allPlugins enabled) /\
  size (plugins pm) = List.length (registering allPlugins enabled).
Proof.
  intros Hrun.
  destruct (registerEach_plugins _ _ _ _ Hrun) as (Hmap & Hnd & Hfresh & _).
  assert (Hfrom : forall k q, plugins pm !! k = Some q ->
     q ∈ registering allPlugins enabled /\ Meta.Keyword (Metadata q) = k).
  { intros k q Hq. apply Hmap in Hq as [Hq|Hq]; [|exact Hq].
    simpl in Hq. rewrite lookup_empty in Hq. discriminate. }
  split; [|split; [exact Hfrom|split; [exact Hnd|]]].
  - intros p Hp. split; [|apply (Hfresh p Hp)].
    apply Hmap. right. split; [exact Hp|reflexivity].
  - rewrite <- length_map_to_list.
    rewrite <- (length_fmap fst (map_to_list (plugins pm))).
    rewrite <- (length_fmap (fun p => Meta.Keyword (Metadata p))
                  (registering allPlugins enabled)).
    apply Permutation_length. apply NoDup_Permutation.
    + apply NoDup_fst_map_to_list.
    + exact Hnd.
    + intros k. rewrite !list_elem_of_fmap. split.
      * intros ([k' q] & -> & Hin). apply elem_of_map_to_list in Hin.
        destruct (Hfrom _ _ Hin) as [Hq Hk]. simpl.
        exists q. split; [symmetry; exact Hk|exact Hq].
      * intros (q & Hk & Hq). exists (k, q). split; [reflexivity|].
        apply elem_of_map_to_list. apply Hmap. right. auto.
Qed.

(** A start-up that ends in the fatal error had a registering plugin with
    an empty keyword or with a keyword that was taken. *)
Lemma registerEach_fatal allPlugins enabled pm pluginName e :
  main.registerEach allPlugins enabled pm = main.fatal pluginName e ->
  ~ (NoDup ((fun p => Meta.Keyword (Metadata p)) <$>
              registering allPlugins enabled) /\
     forall p, p ∈ registering allPlugins enabled ->
       Meta.Keyword (Metadata p) <> "" /\
       plugins pm !! Meta.Keyword (Metadata p) = None).
Proof.
  revert pm. induction allPlugins as [|i rest IH]; intros pm Hrun [Hnd Hfresh].
  - discriminate.
  - rewrite registering_cons in Hnd, Hfresh.
    rewrite registerEach_cons in Hrun.
    destruct (panicsAt i registeredMetadata); [discriminate|].
    set (p := asPlugin i) in *.
    destruct (main.shouldRegister (Metadata p) enabled) eqn:Hs.
    + destruct (Hfresh p) as [Hne Hfree]; [left|].
      rewrite (RegisterPlugin_accepts p pm Hne Hfree) in Hrun.
      rewrite fmap_cons in Hnd. apply NoDup_cons in Hnd as [Hnotin Hnd].
      apply (IH _ Hrun). split; [exact Hnd|].
      intros q Hq. destruct (Hfresh q) as [Hqne Hqfree]; [right; exact Hq|].
      split; [exact Hqne|]. simpl.
      rewrite lookup_insert_ne; [exact Hqfree|].
      intros He. apply Hnotin. apply list_elem_of_fmap. exists q.
      split; [exact He|exact Hq].
    + assert (Hmand : Meta.IsMandatory (Metadata p) = false).
      { unfold main.shouldRegister in Hs. apply orb_false_iff in Hs. tauto. }
      rewrite Hmand in Hrun. simpl in Hrun.
      apply (IH _ Hrun). split; [exact Hnd|].
      intros q Hq. rewrite RegisterMetadata_plugins. apply Hfresh. exact Hq.
Qed.

(** The loop on a list in two parts, when the first part returns. *)
Lemma registerEach_app before after enabled pm pm1 :
  main.registerEach before enabled pm = main.started pm1 ->
  main.registerEach (before ++ after) enabled pm
    = main.registerEach after enabled pm1.
Proof.
  revert pm. induction before as [|i rest IH]; intros pm Hrun.
  - injection Hrun as <-. reflexivity.
  - rewrite <- app_comm_cons, registerEach_cons.
    apply registerEach_started in Hrun as [-> Hrun].
    destruct (main.shouldRegister (Metadata (asPlugin i)) enabled).
    + destruct Hrun as (pm2 & -> & Hrun). apply IH. exact Hrun.
    + destruct (negb (Meta.IsMandatory (Metadata (asPlugin i))));
        apply IH; exact Hrun.
Qed.

(** X21.  How start-up ends.  A loop that returns has had every
    [p.Metadata()] return and has registering plugins with non-empty,
    pairwise different keywords; a loop that ends in the fatal error has a
    registering plugin with an empty keyword or two that share one.  So a
    loop that does not panic returns exactly when the keywords of the
    registering plugins are non-empty and pairwise different, and ends in
    the fatal error exactly when they are not; the metadata errors of
    disabled plugins never end it.  A [p.Metadata()] that panics, after a
    part of the list on which the loop returns, leaves the loop in the
    panic, and so does the [p.Name()] of the fatal error. *)
Theorem startup_fatal_iff (allPlugins : list Instance)
    (enabled : gset string) :
  let outcome := main.registerEach allPlugins enabled NewPluginManager in
  let wellKeyed :=
    NoDup ((fun p => Meta.Keyword (Metadata p)) <$>
             registering allPlugins enabled) /\
    forall p, p ∈ registering allPlugins enabled ->
              Meta.Keyword (Metadata p) <> "" in
  (forall pm, outcome = main.started pm ->
     wellKeyed /\
     forall p, p ∈ allPlugins -> panicsAt p registeredMetadata = false) /\
  (forall pluginName e, outcome = main.fatal pluginName e -> ~ wellKeyed) /\
  (outcome <> main.crashed ->
   ((exists pm, outcome = main.started pm) <-> wellKeyed) /\
   ((exists pluginName e, outcome = main.fatal pluginName e) <->
    ~ wellKeyed)) /\
  (forall before p after pm1,
     allPlugins = (before ++ p :: after)%list ->
     main.registerEach before enabled NewPluginManager = main.started pm1 ->
     (panicsAt p registeredMetadata = true -> outcome = main.crashed) /\
     (panicsAt p registeredMetadata = false ->
      main.shouldRegister (Metadata (asPlugin p)) enabled = true ->
      is_Some (fst (RegisterPlugin (asPlugin p) pm1)) ->
      panicsAt p registeredName = true -> outcome = main.crashed)).
Proof.
  intros outcome wellKeyed.
  assert (Hstarted : forall pm, outcome = main.started pm ->
     wellKeyed /\
     forall p, p ∈ allPlugins -> panicsAt p registeredMetadata = false).
  { intros pm Hrun.
    destruct (registerEach_plugins _ _ _ _ Hrun) as (_ & Hnd & Hfresh & Hret).
    split; [|exact Hret]. split; [exact Hnd|].
    intros p Hp. apply (Hfresh p Hp). }
  assert (Hfatal : forall pluginName e,
            outcome = main.fatal pluginName e -> ~ wellKeyed).
  { intros pluginName e Hrun [Hnd Hne].
    apply (registerEach_fatal _ _ _ _ _ Hrun). split; [exact Hnd|].
    intros p Hp. split; [exact (Hne p Hp)|apply lookup_empty]. }
  split; [exact Hstarted|]. split; [exact Hfatal|]. split.
  - intros Hnc. split; split.
    + intros [pm Hrun]. apply (Hstarted pm Hrun).
    + intros Hok. destruct outcome as [pm|pluginName e|] eqn:Hrun.
      * eauto.
      * exfalso. exact (Hfatal pluginName e eq_refl Hok).
      * contradiction.
    + intros (pluginName & e & Hrun). exact (Hfatal pluginName e Hrun).
    + intros Hbad. destruct outcome as [pm|pluginName e|] eqn:Hrun.
      * exfalso. apply Hbad. apply (Hstarted pm eq_refl).
      * eauto.
      * contradiction.
  - intros before p after pm1 -> Hbefore. unfold outcome.
    rewrite (registerEach_app before (p :: after) enabled _ pm1 Hbefore).
    rewrite registerEach_cons. split.
    + intros ->. reflexivity.
    + intros -> -> [e He] ->.
      destruct (RegisterPlugin (asPlugin p) pm1) as [[e'|] pm2];
        [reflexivity|discriminate].
Qed.
End StartupList.

Lemma startup_registers_exactly_witness :
  size (plugins (startedManager
                   (main.registerEach
                      [returning applauncher; returning calculator;
                       returning hello]
                      (main.parseEnabledPlugins "wikipedia") NewPluginManager)))
    = List.length (registering
                     [returning applauncher; returning calculator;
                      returning hello]
                     (main.parseEnabledPlugins "wikipedia")).
Proof.
  apply (startup_registers_exactly
           [returning applauncher; returning calculator; returning hello]
           (main.parseEnabledPlugins "wikipedia") _ eq_refl).
Defined.

(** Start-up on a list with an instance whose [Metadata()] panics there:
    the plugins before it are registered, then the panic leaves the loop;
    and on two plugins with one keyword, the second of which panics in the
    [Name()] of the fatal error. *)
Example registerEach_panics :
  main.registerEach [returning applauncher; moody; returning calculator] ∅
    NewPluginManager = main.crashed /\
  main.registerEach
    [returning applauncher;
     mkInstance applauncher
       (fun c => match c with registeredName => true | _ => false end)] ∅
    NewPluginManager = main.crashed.
Proof. split; reflexivity. Qed.

Section StartupDefault.
Context {sorter : SliceSorter}.

Lemma registerEach_defaults allPlugins enabled pm pm' :
  main.registerEach allPlugins enabled pm = main.started pm' ->
  let ds := filter (fun p => Meta.IsDefault (Metadata p) = true)
                   (registering allPlugins enabled) in
  defaultPlugin pm' =
    match last ds with Some d => Some d | None => defaultPlugin pm end /\
  activePlugin pm' =
    match activePlugin pm with Some a => Some a | None => head ds end.
Proof.
  revert pm. induction allPlugins as [|i rest IH]; intros pm Hrun.
  - injection Hrun as <-. simpl. split; [reflexivity|].
    destruct (activePlugin pm); reflexivity.
  - rewrite registering_cons.
    apply registerEach_started in Hrun as [_ Hrun].
    set (p := asPlugin i) in *.
    destruct (main.shouldRegister (Metadata p) enabled) eqn:Hs.
    + destruct Hrun as (pm1 & Hreg & Hrun).
      destruct (RegisterPlugin_accepted_fields p pm pm1 Hreg)
        as (_ & _ & _ & _ & _ & _ & Hd & Ha).
      destruct (IH pm1 Hrun) as [IHd IHa]. rewrite IHd, IHa, Hd, Ha.
      rewrite filter_cons.
      destruct (Meta.IsDefault (Metadata p)); destruct (decide _);
        try congruence; simpl.
      * split.
        -- rewrite last_cons. destruct (last _); reflexivity.
        -- destruct (activePlugin pm); reflexivity.
      * split; reflexivity.
    + assert (Hmand : Meta.IsMandatory (Metadata p) = false).
      { unfold main.shouldRegister in Hs. apply orb_false_iff in Hs. tauto. }
      rewrite Hmand in Hrun. simpl in Hrun.
      destruct (IH _ Hrun) as [IHd IHa].
      destruct (RegisterMetadata_fields (Metadata p) pm)
        as (_ & _ & _ & Hd & Ha & _).
      rewrite Hd in IHd. rewrite Ha in IHa. split; assumption.
Qed.

(** X22.  After a start-up that returns, the default plugin is the last
    registering plugin with [IsDefault] and the active plugin is the first
    one; with none there is neither, and with several the manager starts
    with an active plugin that is not its default. *)
Theorem startup_default_and_active (allPlugins : list Instance)
    (enabled : gset string) (pm : PluginManager) :
  main.registerEach allPlugins enabled NewPluginManager = main.started pm ->
  let ds := filter (fun p => Meta.IsDefault (Metadata p) = true)
                   (registering allPlugins enabled) in
  defaultPlugin pm = last ds /\ activePlugin pm = head ds /\
  GetCurrentPlugin pm = head ds.
Proof.
  intros Hrun ds.
  destruct (registerEach_defaults _ _ _ _ Hrun) as [Hd Ha].
  fold ds in Hd, Ha. simpl in Hd, Ha.
  assert (Hd' : defaultPlugin pm = last ds).
  { rewrite Hd. destruct (last ds); reflexivity. }
  split; [exact Hd'|]. split; [exact Ha|].
  unfold GetCurrentPlugin. rewrite Ha, Hd'.
  destruct ds as [|d ds']; reflexivity.
Qed.
End StartupDefault.

Lemma startup_default_and_active_witness :
  let pm := startedManager
              (main.registerEach
                 [returning applauncher; returning calculator;
                  returning secondDefault]
                 ∅ NewPluginManager) in
  defaultPlugin pm = Some secondDefault /\ activePlugin pm = Some applauncher.
Proof.
  intros pm.
  destruct (startup_default_and_active
              [returning applauncher; returning calculator;
               returning secondDefault]
              ∅ pm eq_refl) as (Hd & Ha & _).
  split; [exact Hd|exact Ha].
Defined.

(** ** The launcher's relevance score *)

Lemma Contains_unfold (s q : string) :
  launcher.Contains s q =
    String.prefix q s ||
    match s with
    | EmptyString => false
    | String _ r => launcher.Contains r q
    end.
Proof. destruct s; reflexivity. Qed.

Lemma Contains_prefix (s q : string) :
  HasPrefix s q = true -> launcher.Contains s q = true.
Proof.
  unfold HasPrefix. intros Hp. rewrite Contains_unfold, Hp. reflexivity.
Qed.

(** X23.  The relevance score of the launcher, for any lower-casing: it is
    one of 0, 5, 10, 20, 30, 50, 100; it is 0 exactly when no field contains
    the query, so the test that closes the function never changes the
    score; it is 100 exactly when the name starts with the query, and at
    least 50 exactly when the name contains it. *)
Theorem calculateRelevanceScore_spec (ToLower : string -> string)
    (app : launcher.DesktopEntry) (lowerQuery : string) :
  let score := launcher.calculateRelevanceScore ToLower app lowerQuery in
  score = launcher.scoreBeforeGuard ToLower app lowerQuery /\
  (score = 0 <-> launcher.someFieldContains ToLower app lowerQuery = false) /\
  score ∈ [0; 5; 10; 20; 30; 50; 100] /\
  (score = 100 <->
   HasPrefix (ToLower (launcher.Name app)) lowerQuery = true) /\
  (50 <= score <->
   launcher.Contains (ToLower (launcher.Name app)) lowerQuery = true).
Proof.
  unfold launcher.calculateRelevanceScore, launcher.scoreBeforeGuard,
    launcher.someFieldContains.
  pose proof (Contains_prefix (ToLower (launcher.Name app)) lowerQuery) as Hpre.
  destruct (HasPrefix (ToLower (launcher.Name app)) lowerQuery);
    [rewrite (Hpre eq_refl)|clear Hpre;
     destruct (launcher.Contains (ToLower (launcher.Name app)) lowerQuery)];
    destruct (launcher.Contains (ToLower (launcher.GenericName app)) lowerQuery);
    destruct (launcher.Contains (ToLower (launcher.Keywords app)) lowerQuery);
    destruct (launcher.Contains (ToLower (launcher.Comment app)) lowerQuery);
    destruct (launcher.Contains (ToLower (launcher.Exec app)) lowerQuery);
    vm_compute;
    (split; [reflexivity|]);
    (split; [split; intros; discriminate || reflexivity|]);
    (split; [set_solver|]);
    (split; split; intros; try discriminate; try reflexivity; try lia).
Qed.

(** [Contains] is the test for a substring. *)
Lemma Contains_iff (s q : string) :
  launcher.Contains s q = true <-> exists a b, s = a ++ q ++ b.
Proof.
  induction s as [|c s IH]; rewrite Contains_unfold, orb_true_iff,
    string_prefix_iff.
  - split.
    + intros [[r Hr]|Hf]; [|discriminate]. exists "", r. exact Hr.
    + intros (a & b & Hab). left. destruct a; [exists b; exact Hab|discriminate].
  - rewrite IH. split.
    + intros [[r Hr]|(a & b & Hab)].
      * exists "", r. exact Hr.
      * exists (String c a), b. rewrite string_app_cons, Hab. reflexivity.
    + intros (a & b & Hab). destruct a as [|d a].
      * left. exists b. exact Hab.
      * right. rewrite string_app_cons in Hab. injection Hab as _ Hab.
        exists a, b. exact Hab.
Qed.

(** ** The theme file *)

Lemma getColor_cases (rawThemeData : gmap string string) (lowerKey : string)
    (defaultValue : theme.Color) :
  let c := theme.getColor rawThemeData lowerKey defaultValue in
  (c = defaultValue \/ sharpAndSix c) /\
  (rawThemeData !! lowerKey = None -> c = defaultValue) /\
  (forall val, rawThemeData !! lowerKey = Some val -> sharpAndSix val -> c = val) /\
  (forall val, rawThemeData !! lowerKey = Some val -> String.length val = 6 ->
     HasPrefix val "#" = false -> c = "#" ++ val).
Proof.
  unfold theme.getColor, sharpAndSix.
  destruct (rawThemeData !! lowerKey) as [val|]; simpl.
  2:{ repeat split; auto; discriminate. }
  destruct (String.eqb_spec val "") as [->|Hne].
  { split; [auto|]. split; [discriminate|].
    split; intros v Hv; injection Hv as <-; simpl; intros; [lia|discriminate]. }
  destruct (HasPrefix val "#") eqn:Hp.
  - destruct (Nat.eqb_spec (String.length val) 7) as [Hl|Hl]; simpl.
    + split; [auto|]. split; [discriminate|].
      split; intros v Hv; injection Hv as <-; [reflexivity|congruence].
    + split; [auto|]. split; [discriminate|].
      split; intros v Hv; injection Hv as <-; [intros [? ?]; contradiction|congruence].
  - change (String.length ("#" ++ val)) with (S (String.length val)).
    destruct (Nat.eqb_spec (S (String.length val)) 7) as [Hl|Hl]; simpl.
    + split; [right; split; [exact Hl|]|].
      { unfold HasPrefix. simpl. destruct val; reflexivity. }
      split; [discriminate|].
      split; intros v Hv; injection Hv as <-; [intros [? ?]; congruence|reflexivity].
    + split; [auto|]. split; [discriminate|].
      split; intros v Hv; injection Hv as <-; [intros [? ?]; congruence|lia].
Qed.

Lemma colors_unmarshalled (rawThemeData : gmap string string) :
  theme.colors (theme.LoadThemeFromFile (theme.unmarshalled rawThemeData)) =
  (fun entry : string * theme.Color =>
     (fst entry, theme.getColor rawThemeData (fst entry) (snd entry)))
    <$> theme.colors theme.DefaultTheme.
Proof. reflexivity. Qed.

Lemma DefaultTheme_sharpAndSix (key : string) (d : theme.Color) :
  (key, d) ∈ theme.colors theme.DefaultTheme -> sharpAndSix d.
Proof.
  intros Hin. apply list_elem_of_In in Hin.
  unfold theme.colors, theme.DefaultTheme in Hin. cbn in Hin.
  repeat (destruct Hin as [Hin|Hin];
          [injection Hin as _ <-; split; reflexivity|]).
  destruct Hin.
Qed.

(** X24.  Loading a theme never fails and never yields a malformed
    colour: whatever [LoadThemeFromFile] finds, each of the sixteen colours
    is [#] followed by six bytes; it is the built-in default when there is
    no usable file or the file has no entry for the key, the value of the
    file when that is [#] and six bytes, and that value with [#] put in front
    when it is six bytes without one.  The bytes after [#] are not
    checked. *)
Theorem LoadThemeFromFile_colors (file : theme.themeFile)
    (key : string) (c : theme.Color) :
  (key, c) ∈ theme.colors (theme.LoadThemeFromFile file) ->
  sharpAndSix c /\
  match file with
  | theme.unmarshalled rawThemeData =>
      (rawThemeData !! key = None ->
       (key, c) ∈ theme.colors theme.DefaultTheme) /\
      (forall val, rawThemeData !! key = Some val -> sharpAndSix val -> c = val) /\
      (forall val, rawThemeData !! key = Some val -> String.length val = 6 ->
         HasPrefix val "#" = false -> c = "#" ++ val)
  | _ => (key, c) ∈ theme.colors theme.DefaultTheme
  end.
Proof.
  intros Hin. destruct file as [| | | |raw];
    try (split; [exact (DefaultTheme_sharpAndSix key c Hin)|exact Hin]).
  rewrite colors_unmarshalled in Hin.
  apply list_elem_of_fmap in Hin as ([k d] & Heq & Hd).
  cbn [fst snd] in Heq. injection Heq as -> ->.
  destruct (getColor_cases raw k d) as (Hc & Hnone & Hval & Hsix).
  split.
  - destruct Hc as [Hc|Hc]; [|exact Hc].
    rewrite Hc. exact (DefaultTheme_sharpAndSix k d Hd).
  - split; [|split; assumption].
    intros Hn. rewrite (Hnone Hn). exact Hd.
Qed.

Lemma LoadThemeFromFile_colors_witness :
  sharpAndSix "#abcdef".
Proof.
  apply (LoadThemeFromFile_colors
           (theme.unmarshalled {[ "base0a" := "abcdef" ]}) "base0a" "#abcdef").
  rewrite colors_unmarshalled. apply list_elem_of_fmap.
  exists ("base0a", theme.Base0A theme.DefaultTheme). split; [reflexivity|].
  apply list_elem_of_In. unfold theme.colors. cbn. tauto.
Defined.

(** ** The results of the launcher *)

Lemma ltb_asym (a b : string) : String.ltb a b = true -> String.ltb b a = false.
Proof.
  unfold String.ltb. rewrite (String.compare_antisym b a).
  destruct (String.compare a b); simpl; congruence.
Qed.

Lemma ltb_negtrans (a b c : string) :
  String.ltb b a = false -> String.ltb c b = false -> String.ltb c a = false.
Proof.
  unfold String.ltb. intros Hba Hcb.
  destruct (String.compare c a) eqn:Hca; try reflexivity. exfalso.
  destruct (String.compare c b) eqn:Ecb; try discriminate.
  - apply String.compare_eq_iff in Ecb. subst c. rewrite Hca in Hba.
    discriminate.
  - assert (Hbc : String.compare b c = Lt).
    { rewrite String.compare_antisym, Ecb. reflexivity. }
    apply OrderedTypeEx.String_as_OT.cmp_lt in Hbc, Hca.
    pose proof (OrderedTypeEx.String_as_OT.lt_trans _ _ _ Hbc Hca) as Hlt.
    apply OrderedTypeEx.String_as_OT.cmp_lt in Hlt. unfold OrderedTypeEx.String_as_OT.cmp in Hlt.
    rewrite Hlt in Hba. discriminate.
Qed.

Lemma byTitle_asym (a b : Result) :
  launcher.byTitle a b = true -> launcher.byTitle b a = false.
Proof. apply ltb_asym. Qed.

Lemma byTitle_negtrans (a b c : Result) :
  launcher.byTitle b a = false -> launcher.byTitle c b = false ->
  launcher.byTitle c a = false.
Proof. apply ltb_negtrans. Qed.

Lemma byScoreThenTitle_false (a b : launcher.scoredResult) :
  launcher.byScoreThenTitle b a = false <->
  launcher.Score b <= launcher.Score a /\
  (launcher.Score a = launcher.Score b ->
   String.ltb (Title (launcher.Result_ b)) (Title (launcher.Result_ a)) = false).
Proof.
  unfold launcher.byScoreThenTitle.
  destruct (Nat.eqb_spec (launcher.Score b) (launcher.Score a)) as [E|E]; simpl.
  - rewrite E. split; [intros Hl; split; [lia|auto]|intros [_ Hl]; auto].
  - rewrite Nat.ltb_ge. split; [intros Hl; split; [lia|intros; lia]|tauto].
Qed.

Lemma byScoreThenTitle_asym (a b : launcher.scoredResult) :
  launcher.byScoreThenTitle a b = true -> launcher.byScoreThenTitle b a = false.
Proof.
  intros Hab. apply byScoreThenTitle_false.
  unfold launcher.byScoreThenTitle in Hab.
  destruct (Nat.eqb_spec (launcher.Score a) (launcher.Score b)) as [E|E];
    simpl in Hab.
  - split; [lia|]. intros _. apply ltb_asym. exact Hab.
  - apply Nat.ltb_lt in Hab. split; [lia|lia].
Qed.

Lemma byScoreThenTitle_negtrans (a b c : launcher.scoredResult) :
  launcher.byScoreThenTitle b a = false ->
  launcher.byScoreThenTitle c b = false ->
  launcher.byScoreThenTitle c a = false.
Proof.
  rewrite !byScoreThenTitle_false. intros [Hba Tba] [Hcb Tcb].
  split; [lia|]. intros E.
  apply (ltb_negtrans _ (Title (launcher.Result_ b)));
    [apply Tba|apply Tcb]; lia.
Qed.

Lemma calculateRelevanceScore_positive (ToLower : string -> string)
    (app : launcher.DesktopEntry) (lowerQuery : string) :
  Nat.ltb 0 (launcher.calculateRelevanceScore ToLower app lowerQuery)
    = launcher.someFieldContains ToLower app lowerQuery.
Proof.
  unfold launcher.calculateRelevanceScore, launcher.scoreBeforeGuard,
    launcher.someFieldContains.
  pose proof (Contains_prefix (ToLower (launcher.Name app)) lowerQuery) as Hpre.
  destruct (HasPrefix (ToLower (launcher.Name app)) lowerQuery);
    [rewrite (Hpre eq_refl)|clear Hpre;
     destruct (launcher.Contains (ToLower (launcher.Name app)) lowerQuery)];
    destruct (launcher.Contains (ToLower (launcher.GenericName app)) lowerQuery);
    destruct (launcher.Contains (ToLower (launcher.Keywords app)) lowerQuery);
    destruct (launcher.Contains (ToLower (launcher.Comment app)) lowerQuery);
    destruct (launcher.Contains (ToLower (launcher.Exec app)) lowerQuery);
    reflexivity.
Qed.

Lemma scoreApps_filter (ToLower : string -> string)
    (apps : list launcher.DesktopEntry) (lowerQuery : string) :
  launcher.scoreApps ToLower apps lowerQuery =
  (fun app => launcher.mkScoredResult (launcher.toResult app)
                (launcher.calculateRelevanceScore ToLower app lowerQuery))
    <$> filter (fun app =>
                  launcher.someFieldContains ToLower app lowerQuery = true)
               apps.
Proof.
  unfold launcher.scoreApps.
  set (f := fun app => launcher.mkScoredResult _ _).
  set (step := fun scoredResults app => _).
  assert (Hgen : forall acc,
    foldl step acc apps =
    (acc ++ (f <$> filter (fun app =>
       launcher.someFieldContains ToLower app lowerQuery = true) apps))%list).
  { induction apps as [|app apps IH]; intros acc.
    - simpl. rewrite app_nil_r. reflexivity.
    - simpl. rewrite IH. unfold step at 1.
      rewrite calculateRelevanceScore_positive, filter_cons.
      destruct (launcher.someFieldContains ToLower app lowerQuery) eqn:Hs.
      + destruct (decide _) as [_|Hc]; [|congruence].
        rewrite fmap_cons, <- app_assoc. reflexivity.
      + destruct (decide _) as [Hc|_]; [congruence|reflexivity]. }
  apply Hgen.
Qed.

Lemma Contains_empty (s : string) : launcher.Contains s "" = true.
Proof. apply Contains_prefix. unfold HasPrefix. destruct s; reflexivity. Qed.

Lemma filter_someFieldContains_empty (ToLower : string -> string)
    (apps : list launcher.DesktopEntry) :
  filter (fun app => launcher.someFieldContains ToLower app "" = true) apps
    = apps.
Proof.
  induction apps as [|app apps IH]; [reflexivity|].
  rewrite filter_cons, IH.
  destruct (decide _) as [_|Hc]; [reflexivity|].
  exfalso. apply Hc. unfold launcher.someFieldContains.
  rewrite Contains_empty. reflexivity.
Qed.

(** X25.  The results of the launcher, for any lower-casing and any
    sort that keeps its contract: there is never an error; the results are
    built from exactly the entries of which some field contains the
    lower-cased trimmed query, each once, so from all entries when that
    query is empty; for an empty query they are ordered by name, otherwise
    by falling score and, within one score, by name. *)
Theorem launcher_GetResults_spec `{Sorter Result} `{Sorter launcher.scoredResult}
    (ToLower : string -> string)
    (apps : list launcher.DesktopEntry) (query : string) :
  let lowerQuery := ToLower (TrimSpace query) in
  let score := fun app =>
    launcher.calculateRelevanceScore ToLower app lowerQuery in
  snd (launcher.GetResults ToLower apps query) = None /\
  exists shown : list launcher.DesktopEntry,
    fst (launcher.GetResults ToLower apps query) = launcher.toResult <$> shown /\
    shown ≡ₚ filter (fun app =>
                launcher.someFieldContains ToLower app lowerQuery = true) apps /\
    (lowerQuery = "" -> shown ≡ₚ apps) /\
    forall i j a b, shown !! i = Some a -> shown !! j = Some b -> i < j ->
      if decide (lowerQuery = "")
      then String.ltb (launcher.Name b) (launcher.Name a) = false
      else score b <= score a /\
           (score a = score b ->
            String.ltb (launcher.Name b) (launcher.Name a) = false).
Proof.
  intros lowerQuery score. unfold launcher.GetResults. fold lowerQuery.
  destruct (String.eqb_spec lowerQuery "") as [He|Hne].
  - split; [reflexivity|]. cbn [fst snd].
    destruct (Permutation_map_inv launcher.toResult apps
                (sortBy_perm launcher.byTitle (map launcher.toResult apps)))
      as (shown & Heq & Hperm).
    exists shown. split; [exact Heq|].
    rewrite He, filter_someFieldContains_empty.
    split; [symmetry; exact Hperm|]. split; [intros _; symmetry; exact Hperm|].
    intros i j a b Hi Hj Hij.
    destruct (decide _) as [_|Hc]; [|contradiction].
    pose proof (sortBy_sorted launcher.byTitle (map launcher.toResult apps)
                  byTitle_asym byTitle_negtrans) as Hs.
    rewrite Heq in Hs.
    apply (sorted_lookup _ _ i j (launcher.toResult a) (launcher.toResult b) Hs);
      [| |exact Hij].
    + change (map launcher.toResult shown) with (launcher.toResult <$> shown).
      rewrite list_lookup_fmap, Hi. reflexivity.
    + change (map launcher.toResult shown) with (launcher.toResult <$> shown).
      rewrite list_lookup_fmap, Hj. reflexivity.
  - split; [reflexivity|]. cbn [fst snd].
    rewrite scoreApps_filter.
    set (f := fun app => launcher.mkScoredResult (launcher.toResult app)
                (launcher.calculateRelevanceScore ToLower app lowerQuery)).
    set (kept := filter _ apps).
    destruct (Permutation_map_inv f kept
                (sortBy_perm launcher.byScoreThenTitle (f <$> kept)))
      as (shown & Heq & Hperm).
    exists shown. split.
    { etransitivity; [exact (f_equal (map launcher.Result_) Heq)|].
      rewrite map_map. reflexivity. }
    split; [symmetry; exact Hperm|]. split; [intros Hc; contradiction|].
    intros i j a b Hi Hj Hij.
    destruct (decide _) as [Hc|_]; [contradiction|].
    pose proof (sortBy_sorted launcher.byScoreThenTitle (f <$> kept)
                  byScoreThenTitle_asym byScoreThenTitle_negtrans) as Hs.
    assert (Hs' : StronglySorted
      (fun a b => launcher.byScoreThenTitle b a = false) (map f shown)).
    { rewrite <- Heq. exact Hs. }
    clear Hs. rename Hs' into Hs.
    assert (Hab : launcher.byScoreThenTitle (f b) (f a) = false).
    { apply (sorted_lookup _ _ i j (f a) (f b) Hs); [| |exact Hij].
      + change (map f shown) with (f <$> shown).
        rewrite list_lookup_fmap, Hi. reflexivity.
      + change (map f shown) with (f <$> shown).
        rewrite list_lookup_fmap, Hj. reflexivity. }
    apply byScoreThenTitle_false in Hab. exact Hab.
Qed.

(** The launcher on three entries, with the identity for [ToLower]. *)
Example launcher_GetResults_run :
  launcher.GetResults (fun s => s) [terminal; nautilus; firefox] " i" =
    ([launcher.toResult nautilus; launcher.toResult firefox;
      launcher.toResult terminal], None) /\
  launcher.GetResults (fun s => s) [terminal; nautilus; firefox] "  " =
    ([launcher.toResult nautilus; launcher.toResult firefox;
      launcher.toResult terminal], None) /\
  launcher.GetResults (fun s => s) [terminal; nautilus; firefox] "We" =
    ([launcher.toResult firefox], None).
Proof. vm_compute. repeat split. Qed.

(** ** The list of plugins *)


Section PluginList.
Variable ToLower : string -> string.
Context {ranging : MapRange} {sorting : Sorter Result}.








End PluginList.

(** The list on a manager with three enabled plugins and one disabled. *)
Example pluginmanager_GetResults_run :
  let pm := snd (RegisterMetadata (Metadata hello)
                   (performAll sampleCalls NewPluginManager)) in
  Identifier <$> fst (pluginmanager.GetResults (fun s => s) pm "") =
    ["!a"; "!hello"; "!wiki"; "!w"; "pm_info_flag"] /\
  Identifier <$> fst (pluginmanager.GetResults (fun s => s) pm " Dis") =
    ["!hello"; "pm_info_flag"].
Proof. vm_compute. split; reflexivity. Qed.
